(** * AnthropicProxy: the protocol translation core, embedded and verified

    A shallow embedding of the translation engine of the proxy
    (converter.ts, streaming.ts, errors.ts, tokenizer.ts, types.ts) together with the
    properties its specification states about it.

    Conventions of the embedding:
    - a JavaScript string is a [string]; truthiness of a string is
      non-emptiness ([truthy]);
    - an optional field is an [option]; [x || d] on strings is [js_or];
    - a [Map] is a [gmap]; the [Set] of started tool blocks is an
      insertion-ordered list without duplicates, because the code iterates
      over it and a JavaScript [Set] iterates in insertion order;
    - [res.write] and the logger are modelled by the lists of events and of
      log entries they receive, in the order they receive them;
    - [JSON.stringify], [JSON.parse], [String(v)], [s.toLowerCase()],
      [s.length] and the token encoder are collaborators outside the
      repository: they are section variables; a collaborator that can
      throw returns an [option] or, for the encoder, the exception it
      throws; the request id and the generated uuid are arguments;
    - a lookup in a table written as an object literal also finds the
      members inherited from [Object.prototype]. *)

From stdpp Require Import gmap strings list pretty.
From Stdlib Require Import ZArith Lia.

Open Scope string_scope.
Open Scope list_scope.
Set Warnings "-register-all".
Set Default Proof Using "Type".

(** ** JavaScript helpers *)

Module JS.

(** [Boolean(s)] for a string. *)
Definition truthy (s : string) : bool :=
  match s with
  | EmptyString => false
  | String _ _ => true
  end.

(** [Boolean(o)] for an optional string ([undefined], [null] and the empty
    string are falsy). *)
Definition truthy_opt (o : option string) : bool :=
  match o with
  | Some s => truthy s
  | None => false
  end.

(** [o || d] where [o] is an optional string. *)
Definition js_or (o : option string) (d : string) : string :=
  match o with
  | Some s => if truthy s then s else d
  | None => d
  end.

(** [s.startsWith(p)]. *)
Definition startsWith (s p : string) : bool := String.prefix p s.

(** [s.includes(sub)]. *)
Fixpoint includes (s sub : string) : bool :=
  String.prefix sub s ||
  match s with
  | EmptyString => false
  | String _ s' => includes s' sub
  end.

(** The names every object written as a literal inherits from
    [Object.prototype]. [table[key]] finds them as well as the table's
    own keys: eleven functions, and under ['__proto__'] the prototype
    itself, all of them truthy. *)
Definition objectPrototypeMembers : list string :=
  [ "constructor"; "hasOwnProperty"; "isPrototypeOf"; "propertyIsEnumerable";
    "toLocaleString"; "toString"; "valueOf"; "__proto__";
    "__defineGetter__"; "__defineSetter__"; "__lookupGetter__"; "__lookupSetter__" ].

(** The line feed of ['\n']. *)
Definition LF : string := String (Ascii.ascii_of_nat 10) EmptyString.

(** [parts.join(sep)]. *)
Definition join (sep : string) (parts : list string) : string :=
  String.concat sep parts.

(** A JSON value, as [JSON.parse] builds it (numbers restricted to the
    integers; no property of this development depends on a number). *)
Inductive json : Type :=
| JNull
| JBool (b : bool)
| JNumber (n : Z)
| JString (s : string)
| JArray (items : list json)
| JObject (fields : list (string * json)).

(** [typeof v === 'object' && v !== null]. *)
Definition is_object (v : json) : bool :=
  match v with
  | JArray _ | JObject _ => true
  | _ => false
  end.

(** [typeof v]. *)
Definition typeof (v : json) : string :=
  match v with
  | JNull => "object"
  | JBool _ => "boolean"
  | JNumber _ => "number"
  | JString _ => "string"
  | JArray _ | JObject _ => "object"
  end.

(** [v.key] on an object; [None] is [undefined]. *)
Fixpoint field (key : string) (fields : list (string * json)) : option json :=
  match fields with
  | [] => None
  | (k, v) :: rest => if String.eqb k key then Some v else field key rest
  end.

Definition get (v : json) (key : string) : option json :=
  match v with
  | JObject fields => field key fields
  | _ => None
  end.

End JS.

Import JS.

(** ** types.ts *)

Module Types.

Inductive AnthropicErrorType : Type :=
| INVALID_REQUEST
| AUTHENTICATION
| PERMISSION
| NOT_FOUND
| RATE_LIMIT
| API_ERROR
| OVERLOADED
| REQUEST_TOO_LARGE.

(** The log events the translation core emits. *)
Inductive LogEvent : Type :=
| MODEL_SELECTION
| REQUEST_COMPLETED
| REQUEST_FAILURE
| STREAM_INTERRUPTED
| SYSTEM_PROMPT_ADJUSTED
| TOOL_INPUT_SERIALIZATION_FAILURE
| IMAGE_FORMAT_UNSUPPORTED
| MESSAGE_FORMAT_NORMALIZED
| TOOL_RESULT_SERIALIZATION_FAILURE
| TOOL_RESULT_PROCESSING
| TOOL_CHOICE_UNSUPPORTED
| TOOL_ARGS_TYPE_MISMATCH
| TOOL_ARGS_PARSE_FAILURE
| TOOL_ID_PLACEHOLDER
| TOOL_ID_UPDATED.

Inductive LogLevel : Type := DEBUG | INFO | WARNING | ERROR.

(** What the logger receives: the method called and the event of the
    record. *)
Record LogRecord : Type := mkLog { level : LogLevel; event : LogEvent }.

#[global] Instance LogEvent_eq_dec : EqDecision LogEvent.
Proof. solve_decision. Defined.
#[global] Instance LogLevel_eq_dec : EqDecision LogLevel.
Proof. solve_decision. Defined.
#[global] Instance LogRecord_eq_dec : EqDecision LogRecord.
Proof. solve_decision. Defined.
#[global] Instance AnthropicErrorType_eq_dec : EqDecision AnthropicErrorType.
Proof. solve_decision. Defined.

(** [StopReasonType] without its [null]; and [inherited member], the
    member of [Object.prototype] that a table written as an object literal
    returns for the key [member]. The type checker does not see that
    value, the variable holds it all the same. *)
Inductive StopReason : Type :=
| end_turn
| max_tokens
| stop_sequence
| tool_use
| error
| inherited (member : string).

#[global] Instance StopReason_eq_dec : EqDecision StopReason.
Proof. solve_decision. Defined.

(** Source dialect. *)
Inductive Role : Type := user | assistant.

#[global] Instance Role_eq_dec : EqDecision Role.
Proof. solve_decision. Defined.

(** The content of a tool result: [z.union([z.string(), z.array(...)])]. *)
Inductive ToolResultContent : Type :=
| ResultString (s : string)
| ResultArray (items : list json).

Inductive ContentBlock : Type :=
| BlockText (text : string)
| BlockImage (source_type media_type data : string)
| BlockToolUse (id name : string) (input : json)
| BlockToolResult (tool_use_id : string) (content : ToolResultContent).

Inductive MessageContent : Type :=
| ContentString (s : string)
| ContentBlocks (blocks : list ContentBlock).

Record Message : Type := mkMessage { role : Role; content : MessageContent }.

Record SystemContent : Type := mkSystemContent { sc_type : string; sc_text : string }.

(** [anthropicSystem?: string | SystemContent[]]. *)
Inductive SystemPrompt : Type :=
| SystemUndefined
| SystemString (s : string)
| SystemBlocks (blocks : list SystemContent).

(** [STATUS_CODE_ERROR_MAP], keyed by the status code. *)
Definition STATUS_CODE_ERROR_MAP : list (Z * AnthropicErrorType) :=
  [ (400, INVALID_REQUEST);
    (401, AUTHENTICATION);
    (403, PERMISSION);
    (404, NOT_FOUND);
    (413, REQUEST_TOO_LARGE);
    (422, INVALID_REQUEST);
    (429, RATE_LIMIT);
    (500, API_ERROR);
    (502, API_ERROR);
    (503, OVERLOADED);
    (504, API_ERROR) ]%Z.

End Types.

Import Types.

(** ** converter.ts *)

Module Converter.

(** The logger of one call: the records it was given, oldest first. *)
Definition Log : Type := list LogRecord.

Definition warned (l : Log) : bool :=
  existsb (fun r => bool_decide (level r = WARNING)) l.

Section WithToLowerCase.

(** [s.toLowerCase()], a built-in of the runtime: its case tables are
    those of Unicode. *)
Variable toLowerCase : string -> string.

Definition selectTargetModel (clientModelName bigModelName smallModelName : string)
    : string * Log :=
  let clientModelLower := toLowerCase clientModelName in
  let '(targetModel, log) :=
    if includes clientModelLower "opus" || includes clientModelLower "sonnet" then
      (bigModelName, [])
    else if includes clientModelLower "haiku" then
      (smallModelName, [])
    else
      (smallModelName, [mkLog WARNING MODEL_SELECTION]) in
  (targetModel, log ++ [mkLog DEBUG MODEL_SELECTION]).

End WithToLowerCase.

(** Target dialect ([ChatCompletionMessageParam]). *)
Inductive OpenAIRole : Type := RoleSystem | RoleUser | RoleAssistant | RoleTool.

#[global] Instance OpenAIRole_eq_dec : EqDecision OpenAIRole.
Proof. solve_decision. Defined.

(** [{ id, type, function: { name, arguments } }]. *)
Record ToolCall : Type := mkToolCall {
  tc_id : string;
  tc_type : string;
  tc_name : string;
  tc_arguments : string
}.

(** [msg_content = None] is [content: null]; [msg_tool_calls = None] and
    [msg_tool_call_id = None] are absent properties. *)
Record ChatCompletionMessageParam : Type := mkParam {
  msg_role : OpenAIRole;
  msg_content : option string;
  msg_tool_calls : option (list ToolCall);
  msg_tool_call_id : option string
}.

Definition plainMessage (r : OpenAIRole) (c : string) : ChatCompletionMessageParam :=
  mkParam r (Some c) None None.

Definition toolMessage (tool_use_id c : string) : ChatCompletionMessageParam :=
  mkParam RoleTool (Some c) None (Some tool_use_id).

Definition toolCallsMessage (calls : list ToolCall) : ChatCompletionMessageParam :=
  mkParam RoleAssistant None (Some calls) None.

Definition openaiRole (r : Role) : OpenAIRole :=
  match r with
  | user => RoleUser
  | assistant => RoleAssistant
  end.

(** An element of [openaiPartsForUserMessage]. *)
Inductive UserPart : Type :=
| PartText (text : string)
| PartImageUrl (url : string).

Definition isImageUrl (p : UserPart) : bool :=
  match p with
  | PartImageUrl _ => true
  | PartText _ => false
  end.

(** The variables of [convertAnthropicToOpenAIMessages] that the loops
    update: the output array, the logger, and the three arrays that are
    declared afresh for every message with block content. *)
Record Locals : Type := mkLocals {
  openaiMessages : list ChatCompletionMessageParam;
  logged : Log;
  openaiPartsForUserMessage : list UserPart;
  assistantToolCalls : list ToolCall;
  textContentForAssistant : list string
}.

Section WithJSON.

(** [JSON.stringify(v)]; [None] when it throws. *)
Variable JSON_stringify : json -> option string.
(** [JSON.stringify] of the array of user parts: the parts hold strings
    only, so it always returns. *)
Variable JSON_stringify_parts : list UserPart -> string.
(** [JSON.parse(s)]; [None] when it throws. *)
Variable JSON_parse : string -> option json.
(** [String(v)]. *)
Variable JS_String : json -> string.

(** [logger.warning(...)] and the like, behind the [&& logger] or
    [if (logger)] guard of an optional logger. *)
Definition logIf (logger : bool) (r : LogRecord) : Log :=
  if logger then [r] else [].

(** The test of [serializeToolResultContentForOpenAI] for a text item, and
    the [item.text] it then reads. *)
Definition textOfItem (item : json) : option json :=
  match get item "type", get item "text" with
  | Some (JString "text"), Some t => Some t
  | _, _ => None
  end.

(** One turn of the loop over the items: the part pushed and whether
    [containsNonTextBlock] is set. *)
Definition serializeItem (item : json) : string * bool :=
  match textOfItem item with
  | Some t => (JS_String t, false)
  | None =>
      match JSON_stringify item with
      | Some s => (s, true)
      | None => ("<unserializable_item type='" +:+ typeof item +:+ "'>", true)
      end
  end.

(** The content is a string or an array; the last branch of the
    function, for a value that is neither, is outside [ToolResultContent]. *)
Definition serializeToolResultContentForOpenAI
    (anthropicToolResultContent : ToolResultContent) (logger : bool) : string * Log :=
  match anthropicToolResultContent with
  | ResultString s => (s, [])
  | ResultArray items =>
      let processed := map serializeItem items in
      let processedParts := map fst processed in
      let containsNonTextBlock := existsb snd processed in
      let resultStr := join LF processedParts in
      (resultStr,
       if containsNonTextBlock then logIf logger (mkLog WARNING TOOL_RESULT_PROCESSING)
       else [])
  end.

(** The body of the [switch (block.type)] of the loop over the blocks. *)
Definition convertBlock (logger : bool) (role : Role) (block : ContentBlock)
    (st : Locals) : Locals :=
  match block with
  | BlockText text =>
      match role with
      | user =>
          mkLocals (openaiMessages st) (logged st)
            (openaiPartsForUserMessage st ++ [PartText text])
            (assistantToolCalls st) (textContentForAssistant st)
      | assistant =>
          mkLocals (openaiMessages st) (logged st)
            (openaiPartsForUserMessage st)
            (assistantToolCalls st) (textContentForAssistant st ++ [text])
      end
  | BlockImage source_type media_type data =>
      match role with
      | user =>
          if String.eqb source_type "base64" then
            mkLocals (openaiMessages st) (logged st)
              (openaiPartsForUserMessage st ++
                 [PartImageUrl ("data:" +:+ media_type +:+ ";base64," +:+ data)])
              (assistantToolCalls st) (textContentForAssistant st)
          else
            mkLocals (openaiMessages st)
              (logged st ++ logIf logger (mkLog WARNING IMAGE_FORMAT_UNSUPPORTED))
              (openaiPartsForUserMessage st)
              (assistantToolCalls st) (textContentForAssistant st)
      | assistant => st
      end
  | BlockToolUse id name input =>
      match role with
      | assistant =>
          match JSON_stringify input with
          | Some argsStr =>
              mkLocals (openaiMessages st) (logged st)
                (openaiPartsForUserMessage st)
                (assistantToolCalls st ++ [mkToolCall id "function" name argsStr])
                (textContentForAssistant st)
          | None =>
              mkLocals (openaiMessages st)
                (logged st ++ logIf logger (mkLog ERROR TOOL_INPUT_SERIALIZATION_FAILURE))
                (openaiPartsForUserMessage st)
                (assistantToolCalls st ++ [mkToolCall id "function" name "{}"])
                (textContentForAssistant st)
          end
      | user => st
      end
  | BlockToolResult tool_use_id content =>
      match role with
      | user =>
          let '(serializedContent, warnings) :=
            serializeToolResultContentForOpenAI content logger in
          mkLocals (openaiMessages st ++ [toolMessage tool_use_id serializedContent])
            (logged st ++ warnings)
            (openaiPartsForUserMessage st)
            (assistantToolCalls st) (textContentForAssistant st)
      | assistant => st
      end
  end.

(** The loop over the blocks of one message. *)
Definition convertBlocks (logger : bool) (role : Role) (blocks : list ContentBlock)
    (st : Locals) : Locals :=
  fold_left (fun acc block => convertBlock logger role block acc) blocks st.

(** "Handle user message parts": what is pushed after the loop for a
    user message. *)
Definition userMessageOfParts (parts : list UserPart)
    : list ChatCompletionMessageParam :=
  match parts with
  | [] => [plainMessage RoleUser ""]
  | _ =>
      let isMultimodal := existsb isImageUrl parts in
      if isMultimodal || (1 <? length parts)%nat then
        [plainMessage RoleUser (JSON_stringify_parts parts)]
      else
        match parts with
        | [PartText text] => [plainMessage RoleUser text]
        | _ => []
        end
  end.

(** The three-way [if] that attaches the tool calls of an assistant
    message. The second branch assigns to the last element of
    [openaiMessages] in place. *)
Definition attachToolCalls (msgs : list ChatCompletionMessageParam)
    (calls : list ToolCall) : list ChatCompletionMessageParam :=
  match last msgs with
  | Some lastMessage =>
      if bool_decide (msg_role lastMessage = RoleAssistant)
         && truthy_opt (msg_content lastMessage)
         && bool_decide (msg_tool_calls lastMessage = None) then
        msgs ++ [toolCallsMessage calls]
      else if bool_decide (msg_role lastMessage = RoleAssistant)
              && bool_decide (msg_tool_calls lastMessage = None) then
        removelast msgs ++
          [mkParam (msg_role lastMessage) None (Some calls) (msg_tool_call_id lastMessage)]
      else
        msgs ++ [toolCallsMessage calls]
  | None => msgs ++ [toolCallsMessage calls]
  end.

(** "Handle assistant messages". *)
Definition assistantMessages (msgs : list ChatCompletionMessageParam)
    (texts : list string) (calls : list ToolCall) : list ChatCompletionMessageParam :=
  let assistantText := join LF (filter (fun t => truthy t = true) texts) in
  let msgs1 :=
    if truthy assistantText then msgs ++ [plainMessage RoleAssistant assistantText]
    else msgs in
  match calls with
  | [] => msgs1
  | _ => attachToolCalls msgs1 calls
  end.

(** The body of the loop over the messages. *)
Definition convertMessage (logger : bool) (st : Locals) (msg : Message) : Locals :=
  match content msg with
  | ContentString s =>
      mkLocals (openaiMessages st ++ [plainMessage (openaiRole (role msg)) s])
        (logged st) [] [] []
  | ContentBlocks [] =>
      mkLocals (openaiMessages st ++ [plainMessage (openaiRole (role msg)) ""])
        (logged st) [] [] []
  | ContentBlocks blocks =>
      let st1 :=
        convertBlocks logger (role msg) blocks
          (mkLocals (openaiMessages st) (logged st) [] [] []) in
      match role msg with
      | user =>
          mkLocals (openaiMessages st1 ++ userMessageOfParts (openaiPartsForUserMessage st1))
            (logged st1) [] [] []
      | assistant =>
          mkLocals
            (assistantMessages (openaiMessages st1) (textContentForAssistant st1)
               (assistantToolCalls st1))
            (logged st1) [] [] []
      end
  end.

(** "Handle system prompt". *)
Definition systemTexts (blocks : list SystemContent) : list string :=
  map sc_text (filter (fun block => sc_type block = "text") blocks).

Definition convertSystem (anthropicSystem : SystemPrompt) (logger : bool) : Locals :=
  let '(systemTextContent, warnings) :=
    match anthropicSystem with
    | SystemUndefined => ("", [])
    | SystemString s => (s, [])
    | SystemBlocks blocks =>
        (join LF (systemTexts blocks),
         if (length (systemTexts blocks) <? length blocks)%nat
         then logIf logger (mkLog WARNING SYSTEM_PROMPT_ADJUSTED) else [])
    end in
  mkLocals
    (if truthy systemTextContent then [plainMessage RoleSystem systemTextContent] else [])
    warnings [] [] [].

(** "Normalize messages with tool_calls": the callback of the final
    [map], with what it logs. *)
Definition needsNormalizing (logger : bool) (msg : ChatCompletionMessageParam) : bool :=
  bool_decide (msg_role msg = RoleAssistant)
  && bool_decide (msg_tool_calls msg <> None)
  && bool_decide (msg_content msg <> None)
  && logger.

Definition normalizeMessage (logger : bool) (msg : ChatCompletionMessageParam)
    : ChatCompletionMessageParam :=
  if needsNormalizing logger msg then
    mkParam (msg_role msg) None (msg_tool_calls msg) (msg_tool_call_id msg)
  else msg.

Definition normalizeLog (logger : bool) (msgs : list ChatCompletionMessageParam) : Log :=
  flat_map (fun msg =>
    if needsNormalizing logger msg then [mkLog WARNING MESSAGE_FORMAT_NORMALIZED] else [])
    msgs.

Definition convertAnthropicToOpenAIMessages (anthropicMessages : list Message)
    (anthropicSystem : SystemPrompt) (logger : bool)
    : list ChatCompletionMessageParam * Log :=
  let st := fold_left (convertMessage logger) anthropicMessages
              (convertSystem anthropicSystem logger) in
  (map (normalizeMessage logger) (openaiMessages st),
   logged st ++ normalizeLog logger (openaiMessages st)).

(** *** The response of the backend ([ChatCompletion]) *)

Record ChatCompletionMessage : Type := mkCompletionMessage {
  cm_content : option string;
  cm_tool_calls : option (list ToolCall)
}.

Record Choice : Type := mkChoice {
  message : ChatCompletionMessage;
  finish_reason : option string
}.

Record CompletionUsage : Type := mkCompletionUsage {
  prompt_tokens : nat;
  completion_tokens : nat
}.

Record ChatCompletion : Type := mkChatCompletion {
  cc_id : string;
  cc_choices : list Choice;
  cc_usage : option CompletionUsage
}.

Record Usage : Type := mkUsage { input_tokens : nat; output_tokens : nat }.

Record MessagesResponse : Type := mkMessagesResponse {
  resp_id : string;
  resp_model : string;
  resp_content : list ContentBlock;
  resp_stop_reason : option StopReason;
  resp_usage : Usage
}.

(** [stopReasonMap], and the same table of streaming.ts. *)
Definition stopReasonMap : list (string * StopReason) :=
  [ ("stop", end_turn);
    ("length", max_tokens);
    ("tool_calls", tool_use);
    ("function_call", tool_use);
    ("content_filter", stop_sequence) ].

(** The table's own keys. *)
Fixpoint ownReason (table : list (string * StopReason)) (key : string)
    : option StopReason :=
  match table with
  | [] => None
  | (k, v) :: rest => if String.eqb k key then Some v else ownReason rest key
  end.

(** [table[key]] for a table written as an object literal: an own key,
    or else a member inherited from [Object.prototype]; [None] is
    [undefined]. *)
Definition lookupReason (table : list (string * StopReason)) (key : string)
    : option StopReason :=
  match ownReason table key with
  | Some v => Some v
  | None =>
      if bool_decide (key ∈ objectPrototypeMembers) then Some (inherited key) else None
  end.

(** [stopReasonMap[finishReason || ''] || 'end_turn']. *)
Definition mapStopReason (finishReason : option string) : StopReason :=
  default end_turn (lookupReason stopReasonMap (js_or finishReason "")).

(** The [try] around [JSON.parse(call.function.arguments)], with what it
    logs. *)
Definition toolInputOfArguments (arguments : string) (logger : bool) : json * Log :=
  match JSON_parse arguments with
  | Some parsedInput =>
      if is_object parsedInput then (parsedInput, [])
      else (JObject [("value", parsedInput)],
            logIf logger (mkLog WARNING TOOL_ARGS_TYPE_MISMATCH))
  | None =>
      (JObject [("error_parsing_arguments", JString arguments)],
       logIf logger (mkLog ERROR TOOL_ARGS_PARSE_FAILURE))
  end.

(** The body of the loop over [message.tool_calls]. *)
Definition convertToolCall (logger : bool) (acc : list ContentBlock * Log)
    (call : ToolCall) : list ContentBlock * Log :=
  if String.eqb (tc_type call) "function" then
    let '(toolInputDict, l) := toolInputOfArguments (tc_arguments call) logger in
    (fst acc ++ [BlockToolUse (tc_id call) (tc_name call) toolInputDict], snd acc ++ l)
  else acc.

Definition convertOpenAIToAnthropicResponse (openaiResponse : ChatCompletion)
    (originalAnthropicModelName : string) (logger : bool) (requestId : string)
    : MessagesResponse * Log :=
  let '(anthropicContent, anthropicStopReason, l) :=
    match cc_choices openaiResponse with
    | choice :: _ =>
        let finishReason := finish_reason choice in
        let stop0 := mapStopReason finishReason in
        let content0 :=
          match cm_content (message choice) with
          | Some c => if truthy c then [BlockText c] else []
          | None => []
          end in
        match cm_tool_calls (message choice) with
        | Some calls =>
            let '(content1, l1) := fold_left (convertToolCall logger) calls (content0, []) in
            (content1,
             Some (if bool_decide (finishReason = Some "tool_calls") then tool_use else stop0),
             l1)
        | None => (content0, Some stop0, [])
        end
    | [] => ([], None, [])
    end in
  let anthropicContent :=
    match anthropicContent with
    | [] => [BlockText ""]
    | _ => anthropicContent
    end in
  let anthropicUsage :=
    match cc_usage openaiResponse with
    | Some u => mkUsage (prompt_tokens u) (completion_tokens u)
    | None => mkUsage 0 0
    end in
  let responseId :=
    if truthy (cc_id openaiResponse) then "msg_" +:+ cc_id openaiResponse
    else "msg_" +:+ requestId +:+ "_completed" in
  (mkMessagesResponse responseId originalAnthropicModelName anthropicContent
     anthropicStopReason anthropicUsage, l).

End WithJSON.

(** *** Tools and tool choice *)

Record Tool : Type := mkTool {
  tool_name : string;
  tool_description : option string;
  tool_input_schema : json
}.

(** [{ type: 'function', function: { name, description, parameters } }]. *)
Record ChatCompletionTool : Type := mkChatCompletionTool {
  function_name : string;
  function_description : string;
  function_parameters : json
}.

(** [None] is [undefined]. *)
Definition convertAnthropicToolsToOpenAI (anthropicTools : option (list Tool))
    : option (list ChatCompletionTool) :=
  match anthropicTools with
  | None => None
  | Some tools =>
      Some (map (fun t =>
                   mkChatCompletionTool (tool_name t) (js_or (tool_description t) "")
                     (tool_input_schema t)) tools)
  end.

(** [z.enum(['auto', 'any', 'tool'])]. *)
Inductive ToolChoiceType : Type := ChoiceAuto | ChoiceAny | ChoiceTool.

Record ToolChoice : Type := mkToolChoice {
  choice_type : ToolChoiceType;
  choice_name : option string
}.

(** ['auto'] or [{ type: 'function', function: { name } }]. *)
Inductive ChatCompletionToolChoiceOption : Type :=
| ToolChoiceAuto
| ToolChoiceFunction (name : string).

Definition convertAnthropicToolChoiceToOpenAI (anthropicChoice : option ToolChoice)
    (logger : bool) : option ChatCompletionToolChoiceOption * Log :=
  match anthropicChoice with
  | None => (None, [])
  | Some choice =>
      match choice_type choice with
      | ChoiceAuto => (Some ToolChoiceAuto, [])
      | ChoiceAny =>
          (Some ToolChoiceAuto, logIf logger (mkLog WARNING TOOL_CHOICE_UNSUPPORTED))
      | ChoiceTool =>
          if truthy_opt (choice_name choice) then
            (Some (ToolChoiceFunction (js_or (choice_name choice) "")), [])
          else
            (Some ToolChoiceAuto, logIf logger (mkLog WARNING TOOL_CHOICE_UNSUPPORTED))
      end
  end.

End Converter.

(** ** The token encoder *)

Module TiktokenLib.

(** What [encoder.encode(text).length] comes to: the number of tokens,
    or the exception that [encode] throws, by its message. The encoders
    of the tiktoken package throw on a text that holds a special token. *)
Inductive Encoded : Type :=
| Tokens (count : nat)
| EncodeError (message : string).

(** A [Tiktoken] encoder, by the one thing the proxy reads of it. *)
Definition Tiktoken : Type := string -> Encoded.

(** An encoder that returns on every text. *)
Definition neverThrows (countTokens : string -> nat) : Tiktoken :=
  fun text => Tokens (countTokens text).

End TiktokenLib.

Import TiktokenLib.

(** ** streaming.ts *)

Module Streaming.

Record ToolState : Type := mkToolState {
  ts_id : string;
  ts_name : string;
  ts_arguments_buffer : string
}.

(** *** The fragments of the backend ([ChatCompletionChunk]) *)

Record FunctionDelta : Type := mkFunctionDelta {
  fn_name : option string;
  fn_arguments : option string
}.

Record ToolCallDelta : Type := mkToolCallDelta {
  td_index : nat;
  td_id : option string;
  td_function : option FunctionDelta
}.

Record Delta : Type := mkDelta {
  delta_content : option string;
  delta_tool_calls : option (list ToolCallDelta)
}.

Record ChunkChoice : Type := mkChunkChoice {
  delta : Delta;
  chunk_finish_reason : option string
}.

(** [chunk_choices = []] also stands for an absent [choices]. *)
Record ChatCompletionChunk : Type := mkChunk { chunk_choices : list ChunkChoice }.

(** What the asynchronous iterator yields: a chunk, or an exception
    thrown while waiting for the next one. *)
Inductive StreamItem : Type :=
| Chunk (chunk : ChatCompletionChunk)
| StreamError (message : string).

(** [toolDelta.function?.arguments]. *)
Definition td_arguments (toolDelta : ToolCallDelta) : option string :=
  match td_function toolDelta with
  | Some f => fn_arguments f
  | None => None
  end.

(** *** The events written to the response *)

Inductive ContentBlockSeed : Type :=
| SeedText
| SeedToolUse (id name : string).

Inductive DeltaPayload : Type :=
| TextDelta (text : string)
| InputJsonDelta (partial_json : string).

Inductive SSEEvent : Type :=
| MessageStart (id model : string) (input_tokens : nat)
| Ping
| ContentBlockStart (index : nat) (content_block : ContentBlockSeed)
| ContentBlockDelta (index : nat) (payload : DeltaPayload)
| ContentBlockStop (index : nat)
| MessageDelta (stop_reason : StopReason) (output_tokens : nat)
| MessageStop
| ErrorEvent (type : AnthropicErrorType) (message : string).

(** *** The state of one stream *)

(** The [let] and [const] variables of the handler, the events written
    with [writeSSE] and the records given to the logger. The [Set]
    [sentToolBlockStarts] is kept in insertion order, the order in which
    [for ... of] visits it. *)
Record StreamState : Type := mkState {
  nextAnthropicBlockIdx : nat;
  textBlockAnthropicIdx : option nat;
  openaiToolIdxToAnthropicBlockIdx : gmap nat nat;
  toolStates : gmap nat ToolState;
  sentToolBlockStarts : list nat;
  outputTokenCount : nat;
  finalAnthropicStopReason : option StopReason;
  written : list SSEEvent;
  logged : list LogRecord
}.

(** How a piece of the [try] block ends. *)
Inductive Completion : Type :=
| Normal (st : StreamState)
| Thrown (st : StreamState) (message : string).

Definition writeSSE (e : SSEEvent) (st : StreamState) : StreamState :=
  mkState (nextAnthropicBlockIdx st) (textBlockAnthropicIdx st)
    (openaiToolIdxToAnthropicBlockIdx st) (toolStates st) (sentToolBlockStarts st)
    (outputTokenCount st) (finalAnthropicStopReason st)
    (written st ++ [e]) (logged st).

Definition logRecord (r : LogRecord) (st : StreamState) : StreamState :=
  mkState (nextAnthropicBlockIdx st) (textBlockAnthropicIdx st)
    (openaiToolIdxToAnthropicBlockIdx st) (toolStates st) (sentToolBlockStarts st)
    (outputTokenCount st) (finalAnthropicStopReason st)
    (written st) (logged st ++ [r]).

Definition addOutputTokens (n : nat) (st : StreamState) : StreamState :=
  mkState (nextAnthropicBlockIdx st) (textBlockAnthropicIdx st)
    (openaiToolIdxToAnthropicBlockIdx st) (toolStates st) (sentToolBlockStarts st)
    (outputTokenCount st + n) (finalAnthropicStopReason st)
    (written st) (logged st).

Definition setToolState (blockIdx : nat) (toolState : ToolState) (st : StreamState)
    : StreamState :=
  mkState (nextAnthropicBlockIdx st) (textBlockAnthropicIdx st)
    (openaiToolIdxToAnthropicBlockIdx st) (<[blockIdx := toolState]> (toolStates st))
    (sentToolBlockStarts st)
    (outputTokenCount st) (finalAnthropicStopReason st)
    (written st) (logged st).

(** [sentToolBlockStarts.add(blockIdx)]. *)
Definition addSentToolBlockStart (blockIdx : nat) (st : StreamState) : StreamState :=
  mkState (nextAnthropicBlockIdx st) (textBlockAnthropicIdx st)
    (openaiToolIdxToAnthropicBlockIdx st) (toolStates st)
    (if bool_decide (blockIdx ∈ sentToolBlockStarts st) then sentToolBlockStarts st
     else sentToolBlockStarts st ++ [blockIdx])
    (outputTokenCount st) (finalAnthropicStopReason st)
    (written st) (logged st).

Definition setFinalAnthropicStopReason (r : StopReason) (st : StreamState) : StreamState :=
  mkState (nextAnthropicBlockIdx st) (textBlockAnthropicIdx st)
    (openaiToolIdxToAnthropicBlockIdx st) (toolStates st) (sentToolBlockStarts st)
    (outputTokenCount st) (Some r)
    (written st) (logged st).

(** [openaiToAnthropicStopReasonMap]. *)
Definition openaiToAnthropicStopReasonMap : list (string * StopReason) :=
  [ ("stop", end_turn);
    ("length", max_tokens);
    ("tool_calls", tool_use);
    ("function_call", tool_use);
    ("content_filter", stop_sequence) ].

(** A block can start: its id is set and is no placeholder, and its name
    is set. *)
Definition startReady (toolState : ToolState) : bool :=
  truthy (ts_id toolState)
  && negb (startsWith (ts_id toolState) "tool_ph_")
  && truthy (ts_name toolState).

Section WithCollaborators.

(** The encoder the handler gets from [getTokenEncoder]. *)
Variable encoder : Tiktoken.
(** [JSON.parse(s)]; [None] when it throws. *)
Variable JSON_parse : string -> option json.
Variable requestId : string.

(** "Handle content delta". The tokens are counted first: when the
    encoder throws, nothing of this delta has been written. *)
Definition handleContentDelta (content : option string) (st : StreamState)
    : Completion :=
  match content with
  | Some text =>
      if truthy text then
        match encoder text with
        | Tokens count =>
            let st := addOutputTokens count st in
            let '(idx, st) :=
              match textBlockAnthropicIdx st with
              | None =>
                  let idx := nextAnthropicBlockIdx st in
                  (idx,
                   writeSSE (ContentBlockStart idx SeedText)
                     (mkState (idx + 1) (Some idx)
                        (openaiToolIdxToAnthropicBlockIdx st) (toolStates st)
                        (sentToolBlockStarts st) (outputTokenCount st)
                        (finalAnthropicStopReason st) (written st) (logged st)))
              | Some idx => (idx, st)
              end in
            Normal (writeSSE (ContentBlockDelta idx (TextDelta text)) st)
        | EncodeError message => Thrown st message
        end
      else Normal st
  | None => Normal st
  end.

(** The first [if] of the loop over the tool-call deltas: a tool-call
    index seen for the first time gets the next block index and a fresh
    state. *)
Definition assignToolBlock (toolDelta : ToolCallDelta) (st : StreamState) : StreamState :=
  let openaiTcIdx := td_index toolDelta in
  match openaiToolIdxToAnthropicBlockIdx st !! openaiTcIdx with
  | Some _ => st
  | None =>
      let currentAnthropicToolBlockIdx := nextAnthropicBlockIdx st in
      let placeholder :=
        "tool_ph_" +:+ requestId +:+ "_" +:+ pretty currentAnthropicToolBlockIdx in
      let st :=
        mkState (currentAnthropicToolBlockIdx + 1) (textBlockAnthropicIdx st)
          (<[openaiTcIdx := currentAnthropicToolBlockIdx]>
             (openaiToolIdxToAnthropicBlockIdx st))
          (<[currentAnthropicToolBlockIdx :=
               mkToolState (js_or (td_id toolDelta) placeholder) "" ""]> (toolStates st))
          (sentToolBlockStarts st) (outputTokenCount st)
          (finalAnthropicStopReason st) (written st) (logged st) in
      if truthy_opt (td_id toolDelta) then st
      else logRecord (mkLog WARNING TOOL_ID_PLACEHOLDER) st
  end.

(** The id of the block after this delta: a placeholder gives way to an
    id that arrives. *)
Definition updatedId (toolDelta : ToolCallDelta) (toolState : ToolState) : string :=
  match td_id toolDelta with
  | Some id =>
      if truthy id && startsWith (ts_id toolState) "tool_ph_" then id
      else ts_id toolState
  | None => ts_id toolState
  end.

(** The name and the buffer after this delta. *)
Definition updatedName (toolDelta : ToolCallDelta) (toolState : ToolState) : string :=
  match td_function toolDelta with
  | Some f => js_or (fn_name f) (ts_name toolState)
  | None => ts_name toolState
  end.

Definition updatedBuffer (toolDelta : ToolCallDelta) (toolState : ToolState) : string :=
  match td_arguments toolDelta with
  | Some arguments =>
      if truthy arguments then ts_arguments_buffer toolState +:+ arguments
      else ts_arguments_buffer toolState
  | None => ts_arguments_buffer toolState
  end.

Definition updatedToolState (toolDelta : ToolCallDelta) (toolState : ToolState)
    : ToolState :=
  mkToolState (updatedId toolDelta toolState) (updatedName toolDelta toolState)
    (updatedBuffer toolDelta toolState).

(** The assignments to [toolState], which is the object held by
    [toolStates]: the entry of the block changes. The tokens of the
    arguments are counted after the buffer is extended: when the encoder
    throws, the id, the name and the buffer are already updated and
    nothing of this tool-call delta has been written. *)
Definition accumulate (blockIdx : nat) (toolDelta : ToolCallDelta) (toolState : ToolState)
    (st : StreamState) : Completion :=
  let st :=
    if truthy_opt (td_id toolDelta) && startsWith (ts_id toolState) "tool_ph_"
    then logRecord (mkLog DEBUG TOOL_ID_UPDATED) st else st in
  let st := setToolState blockIdx (updatedToolState toolDelta toolState) st in
  match td_arguments toolDelta with
  | Some arguments =>
      if truthy arguments then
        match encoder arguments with
        | Tokens count => Normal (addOutputTokens count st)
        | EncodeError message => Thrown st message
        end
      else Normal st
  | None => Normal st
  end.

(** "Send content_block_start for tool if ready". *)
Definition sendToolBlockStart (blockIdx : nat) (toolState : ToolState) (st : StreamState)
    : StreamState :=
  if negb (bool_decide (blockIdx ∈ sentToolBlockStarts st)) && startReady toolState then
    addSentToolBlockStart blockIdx
      (writeSSE
         (ContentBlockStart blockIdx (SeedToolUse (ts_id toolState) (ts_name toolState)))
         st)
  else st.

(** "Send tool arguments delta". *)
Definition sendToolArgumentsDelta (blockIdx : nat) (toolDelta : ToolCallDelta)
    (st : StreamState) : StreamState :=
  match td_arguments toolDelta with
  | Some arguments =>
      if truthy arguments && bool_decide (blockIdx ∈ sentToolBlockStarts st) then
        writeSSE (ContentBlockDelta blockIdx (InputJsonDelta arguments)) st
      else st
  | None => st
  end.

(** The body of the loop over [delta.tool_calls]. Reading a property of
    an absent tool state would throw a [TypeError]. *)
Definition handleToolCallDelta (toolDelta : ToolCallDelta) (st : StreamState)
    : Completion :=
  let st := assignToolBlock toolDelta st in
  match openaiToolIdxToAnthropicBlockIdx st !! td_index toolDelta with
  | Some currentAnthropicToolBlockIdx =>
      match toolStates st !! currentAnthropicToolBlockIdx with
      | Some toolState =>
          match accumulate currentAnthropicToolBlockIdx toolDelta toolState st with
          | Normal st =>
              let toolState := updatedToolState toolDelta toolState in
              let st := sendToolBlockStart currentAnthropicToolBlockIdx toolState st in
              Normal (sendToolArgumentsDelta currentAnthropicToolBlockIdx toolDelta st)
          | Thrown st message => Thrown st message
          end
      | None => Thrown st "Cannot read properties of undefined (reading 'id')"
      end
  | None => Thrown st "Cannot read properties of undefined (reading 'id')"
  end.

Fixpoint handleToolCallDeltas (toolDeltas : list ToolCallDelta) (st : StreamState)
    : Completion :=
  match toolDeltas with
  | [] => Normal st
  | toolDelta :: rest =>
      match handleToolCallDelta toolDelta st with
      | Normal st => handleToolCallDeltas rest st
      | Thrown st message => Thrown st message
      end
  end.

(** The table's own keys. *)
Fixpoint ownStopReason (table : list (string * StopReason)) (key : string)
    : option StopReason :=
  match table with
  | [] => None
  | (k, v) :: rest => if String.eqb k key then Some v else ownStopReason rest key
  end.

(** [table[key]] for a table written as an object literal: an own key,
    or else a member inherited from [Object.prototype]; [None] is
    [undefined]. *)
Definition lookupStopReason (table : list (string * StopReason)) (key : string)
    : option StopReason :=
  match ownStopReason table key with
  | Some v => Some v
  | None =>
      if bool_decide (key ∈ objectPrototypeMembers) then Some (inherited key) else None
  end.

(** "Handle finish reason": the stop reason of a truthy finish reason. *)
Definition stopReasonOfFinish (openaiFinishReason : string) : StopReason :=
  let mapped :=
    default end_turn (lookupStopReason openaiToAnthropicStopReasonMap openaiFinishReason) in
  if String.eqb openaiFinishReason "tool_calls" then tool_use else mapped.

(** The [for await] loop. It returns at the first chunk whose first
    choice has a truthy finish reason ([break]), at the end of the stream,
    or with the first exception. *)
Fixpoint consume (openaiStream : list StreamItem) (st : StreamState) : Completion :=
  match openaiStream with
  | [] => Normal st
  | StreamError message :: _ => Thrown st message
  | Chunk chunk :: rest =>
      match chunk_choices chunk with
      | [] => consume rest st
      | choice :: _ =>
          match handleContentDelta (delta_content (delta choice)) st with
          | Normal st =>
              match
                handleToolCallDeltas (default [] (delta_tool_calls (delta choice))) st
              with
              | Normal st =>
                  match chunk_finish_reason choice with
                  | Some openaiFinishReason =>
                      if truthy openaiFinishReason then
                        Normal (setFinalAnthropicStopReason
                                  (stopReasonOfFinish openaiFinishReason) st)
                      else consume rest st
                  | None => consume rest st
                  end
              | Thrown st message => Thrown st message
              end
          | Thrown st message => Thrown st message
          end
      end
  end.

(** One turn of the loop over [sentToolBlockStarts]. *)
Definition stopToolBlock (st : StreamState) (anthropicToolIdx : nat) : StreamState :=
  let st :=
    match toolStates st !! anthropicToolIdx with
    | Some toolStateToFinalize =>
        match JSON_parse (ts_arguments_buffer toolStateToFinalize) with
        | Some _ => st
        | None => logRecord (mkLog WARNING TOOL_ARGS_PARSE_FAILURE) st
        end
    | None => st
    end in
  writeSSE (ContentBlockStop anthropicToolIdx) st.

(** "Send content_block_stop events" and "Send final events". *)
Definition finalize (st : StreamState) : StreamState :=
  let st :=
    match textBlockAnthropicIdx st with
    | Some idx => writeSSE (ContentBlockStop idx) st
    | None => st
    end in
  let st := fold_left stopToolBlock (sentToolBlockStarts st) st in
  let stopReason := default end_turn (finalAnthropicStopReason st) in
  let st := setFinalAnthropicStopReason stopReason st in
  let st := writeSSE (MessageDelta stopReason (outputTokenCount st)) st in
  writeSSE MessageStop st.

(** The state before the first chunk, with [message_start] and [ping]
    written. [uuid8] is [uuidv4().slice(0, 8)]. *)
Definition initialState (originalAnthropicModelName : string)
    (estimatedInputTokens : nat) (uuid8 : string) : StreamState :=
  mkState 0 None ∅ ∅ [] 0 None
    [ MessageStart ("msg_stream_" +:+ requestId +:+ "_" +:+ uuid8)
        originalAnthropicModelName estimatedInputTokens;
      Ping ]
    [].

(** The [catch] block. *)
Definition interrupted (st : StreamState) (errorMsgStr : string) : StreamState :=
  let st :=
    mkState (nextAnthropicBlockIdx st) (textBlockAnthropicIdx st)
      (openaiToolIdxToAnthropicBlockIdx st) (toolStates st) (sentToolBlockStarts st)
      (outputTokenCount st) (Some error) (written st) (logged st) in
  let st := logRecord (mkLog ERROR STREAM_INTERRUPTED) st in
  writeSSE (ErrorEvent API_ERROR errorMsgStr) st.

(** The handler: the final state holds what was written to the response
    and what was logged. *)
Definition handleAnthropicStreamingResponseFromOpenAIStream
    (openaiStream : list StreamItem) (originalAnthropicModelName : string)
    (estimatedInputTokens : nat) (uuid8 : string) : StreamState :=
  let st0 := initialState originalAnthropicModelName estimatedInputTokens uuid8 in
  match consume openaiStream st0 with
  | Normal st => logRecord (mkLog INFO REQUEST_COMPLETED) (finalize st)
  | Thrown st message => logRecord (mkLog ERROR REQUEST_FAILURE) (interrupted st message)
  end.

End WithCollaborators.

End Streaming.

(** ** errors.ts *)

Module Errors.

(** The classes of the backend SDK that the mapper tells apart with
    [instanceof]. [GenericAPIError] is [APIError] itself or a subclass the
    mapper does not name; [OtherError] is an [Error] that is not an
    [APIError]. *)
Inductive ErrorClass : Type :=
| OtherError
| GenericAPIError
| AuthenticationError
| RateLimitError
| BadRequestError
| PermissionDeniedError
| NotFoundError
| InternalServerError.

#[global] Instance ErrorClass_eq_dec : EqDecision ErrorClass.
Proof. solve_decision. Defined.

(** [exc instanceof APIError]. *)
Definition isAPIError (c : ErrorClass) : bool :=
  match c with
  | OtherError => false
  | _ => true
  end.

(** An exception: its class, [name], [message], and for an [APIError] its
    [status] and [body] ([None] is [undefined]). *)
Record Exception : Type := mkException {
  exc_class : ErrorClass;
  exc_name : string;
  exc_message : string;
  exc_status : option Z;
  exc_body : option json
}.

(** [String(exc)], which is [Error.prototype.toString]. *)
Definition errorToString (exc : Exception) : string :=
  if truthy (exc_name exc) then
    if truthy (exc_message exc) then exc_name exc +:+ ": " +:+ exc_message exc
    else exc_name exc
  else exc_message exc.

Record ProviderErrorMetadata : Type := mkProviderErrorMetadata {
  provider_name : string;
  raw_error : option json
}.

(** [Boolean(v)] for a JSON value. *)
Definition truthy_json (v : json) : bool :=
  match v with
  | JNull => false
  | JBool b => b
  | JNumber n => negb (n =? 0)%Z
  | JString s => truthy s
  | JArray _ | JObject _ => true
  end.

(** [STATUS_CODE_ERROR_MAP[statusCode]]. *)
Fixpoint lookupStatus (table : list (Z * AnthropicErrorType)) (statusCode : Z)
    : option AnthropicErrorType :=
  match table with
  | [] => None
  | (k, v) :: rest => if (k =? statusCode)%Z then Some v else lookupStatus rest statusCode
  end.

Record ErrorDetails : Type := mkErrorDetails {
  errorType : AnthropicErrorType;
  errorMessage : string;
  statusCode : Z;
  providerDetails : option ProviderErrorMetadata
}.

Section WithJSON.

Variable JSON_parse : string -> option json.

Definition extractProviderErrorDetails (errorDetails : option json)
    : option ProviderErrorMetadata :=
  match errorDetails with
  | Some details =>
      if is_object details then
        match get details "metadata" with
        | Some metadata =>
            if is_object metadata then
              match get metadata "provider_name" with
              | Some (JString providerName) =>
                  if truthy providerName then
                    let parsedRawError :=
                      match get metadata "raw" with
                      | Some (JString rawErrorStr) =>
                          match JSON_parse rawErrorStr with
                          | Some parsed => Some parsed
                          | None =>
                              Some (JObject [("raw_string_parse_failed", JString rawErrorStr)])
                          end
                      | Some raw => if is_object raw then Some raw else None
                      | None => None
                      end in
                    Some (mkProviderErrorMetadata providerName parsedRawError)
                  else None
              | _ => None
              end
            else None
        | None => None
        end
      else None
  | None => None
  end.

Definition getAnthropicErrorDetailsFromException (exc : Exception) : ErrorDetails :=
  let errorMessage :=
    if truthy (exc_message exc) then exc_message exc else errorToString exc in
  let '(errorType, statusCode, providerDetails) :=
    if isAPIError (exc_class exc) then
      let statusCode :=
        match exc_status exc with
        | Some status => if (status =? 0)%Z then 500%Z else status
        | None => 500%Z
        end in
      let errorType := default API_ERROR (lookupStatus STATUS_CODE_ERROR_MAP statusCode) in
      let providerDetails :=
        match exc_body exc with
        | Some body =>
            if is_object body then
              let actualErrorDetails :=
                match get body "error" with
                | Some e => if truthy_json e then e else body
                | None => body
                end in
              extractProviderErrorDetails (Some actualErrorDetails)
            else None
        | None => None
        end in
      (errorType, statusCode, providerDetails)
    else (API_ERROR, 500%Z, None) in
  let errorType :=
    match exc_class exc with
    | AuthenticationError => AUTHENTICATION
    | RateLimitError => RATE_LIMIT
    | BadRequestError => INVALID_REQUEST
    | PermissionDeniedError => PERMISSION
    | NotFoundError => NOT_FOUND
    | InternalServerError => API_ERROR
    | GenericAPIError | OtherError => errorType
    end in
  mkErrorDetails errorType errorMessage statusCode providerDetails.

End WithJSON.

(** *** The error payload *)

(** [AnthropicErrorDetail]; an absent property is [None]. *)
Record AnthropicErrorDetail : Type := mkAnthropicErrorDetail {
  detail_type : AnthropicErrorType;
  detail_message : string;
  detail_provider : option string;
  detail_provider_message : option json;
  detail_provider_code : option json
}.

Section WithStringify.

(** [JSON.stringify] of [{ type: 'error', error: detail }]. *)
Variable JSON_stringify_error : AnthropicErrorDetail -> string.

Definition formatAnthropicErrorSSEEvent (errorType : AnthropicErrorType)
    (message : string) (providerDetails : option ProviderErrorMetadata) : string :=
  let anthropicErrDetail :=
    match providerDetails with
    | Some details =>
        let '(provider_message, provider_code) :=
          match raw_error details with
          | Some raw =>
              if is_object raw then
                match get raw "error" with
                | Some provErrObj =>
                    if is_object provErrObj
                    then (get provErrObj "message", get provErrObj "code")
                    else
                      match get raw "message" with
                      | Some (JString m) => (Some (JString m), get raw "code")
                      | _ => (None, None)
                      end
                | None =>
                    match get raw "message" with
                    | Some (JString m) => (Some (JString m), get raw "code")
                    | _ => (None, None)
                    end
                end
              else (None, None)
          | None => (None, None)
          end in
        mkAnthropicErrorDetail errorType message (Some (provider_name details))
          provider_message provider_code
    | None => mkAnthropicErrorDetail errorType message None None None
    end in
  "event: error" +:+ LF +:+ "data: " +:+ JSON_stringify_error anthropicErrDetail
    +:+ LF +:+ LF.

End WithStringify.

(** The status and the body of the HTTP reply. *)
Definition buildAnthropicErrorResponse (errorType : AnthropicErrorType)
    (message : string) (statusCode : Z) (providerDetails : option ProviderErrorMetadata)
    : Z * AnthropicErrorDetail :=
  let errDetail :=
    match providerDetails with
    | Some details =>
        let '(provider_message, provider_code) :=
          match raw_error details with
          | Some raw =>
              if is_object raw then
                match get raw "error" with
                | Some provErrObj =>
                    if is_object provErrObj
                    then (get provErrObj "message", get provErrObj "code")
                    else
                      match get raw "message" with
                      | Some (JString m) => (Some (JString m), get raw "code")
                      | _ => (None, None)
                      end
                | None =>
                    match get raw "message" with
                    | Some (JString m) => (Some (JString m), get raw "code")
                    | _ => (None, None)
                    end
                end
              else (None, None)
          | None => (None, None)
          end in
        mkAnthropicErrorDetail errorType message (Some (provider_name details))
          provider_message provider_code
    | None => mkAnthropicErrorDetail errorType message None None None
    end in
  (statusCode, errDetail).

End Errors.

(** ** tokenizer.ts *)

Module Tokenizer.
Import Converter.

Inductive LoggerMethod : Type := LogDebug | LogWarning | LogCritical.

(** What the logger receives: the method called, the [event] of the
    record and the [token_count] of its data, if it has one. *)
Record TokenLogRecord : Type := mkTokenLog {
  log_method : LoggerMethod;
  log_event : string;
  log_token_count : option nat
}.

Definition TokenLog : Type := list TokenLogRecord.

(** A call of the logger behind [if (logger)]. *)
Definition tokenLogIf (logger : bool) (r : TokenLogRecord) : TokenLog :=
  if logger then [r] else [].

(** How a count ends: it returns the tokens, or it throws the exception
    of the encoder; either way with the records logged until then. *)
Inductive Counted : Type :=
| Returns (tokens : nat) (log : TokenLog)
| Throws (message : string) (log : TokenLog).

(** [msg.role] as a string. *)
Definition roleName (r : Role) : string :=
  match r with
  | user => "user"
  | assistant => "assistant"
  end.

(** [Boolean(v)] for a JSON value. *)
Definition truthy_json (v : json) : bool :=
  match v with
  | JNull => false
  | JBool b => b
  | JNumber n => negb (n =? 0)%Z
  | JString s => truthy s
  | JArray _ | JObject _ => true
  end.

(** ['type' in item && item.type === 'text'], for any item. *)
Definition isTextItem (item : json) : bool :=
  match get item "type" with
  | Some (JString "text") => true
  | _ => false
  end.

Section WithTiktoken.

(** [encoding_for_model(name)] and [get_encoding(name)]; [None] when they
    throw. *)
Variable encoding_for_model : string -> option Tiktoken.
Variable get_encoding : string -> option Tiktoken.
(** [JSON.stringify(v)]; [None] when it throws. *)
Variable JSON_stringify : json -> option string.
(** [String(v)], the conversion [+=] applies to a value that is no
    string. *)
Variable JS_String : json -> string.
(** [text.length], the number of UTF-16 code units of a text. *)
Variable JS_length : string -> nat.

(** The dummy encoder of the last resort: [encode] returns an array as
    long as the text, and never throws. *)
Definition dummyEncoder : Tiktoken := fun text => Tokens (JS_length text).

(** The module-level [tokenEncoderCache] is passed in and returned. The
    encoder returned is the one [tokenEncoderCache.get(cacheKey)] finds:
    the one that was there, or the one just set. *)
Definition getTokenEncoder (logger : bool) (tokenEncoderCache : gmap string Tiktoken)
    : Tiktoken * gmap string Tiktoken * TokenLog :=
  let cacheKey := "gpt-4" in
  match tokenEncoderCache !! cacheKey with
  | Some encoder => (encoder, tokenEncoderCache, [])
  | None =>
      match encoding_for_model "gpt-4" with
      | Some encoder => (encoder, <[cacheKey := encoder]> tokenEncoderCache, [])
      | None =>
          match get_encoding "cl100k_base" with
          | Some encoder =>
              (encoder, <[cacheKey := encoder]> tokenEncoderCache,
               tokenLogIf logger (mkTokenLog LogWarning "token_encoder_load_failed" None))
          | None =>
              (dummyEncoder, <[cacheKey := dummyEncoder]> tokenEncoderCache,
               tokenLogIf logger (mkTokenLog LogCritical "token_encoder_load_failed" None))
          end
      end
  end.

(** [contentStr += item.text || ''] for a text item. *)
Definition textOfItem (item : json) : string :=
  match get item "text" with
  | Some (JString s) => s
  | Some v => if truthy_json v then JS_String v else ""
  | None => ""
  end.

(** One turn of the loop over the items of a tool result; [None] once
    [JSON.stringify] has thrown. *)
Definition appendItem (contentStr : option string) (item : json) : option string :=
  match contentStr with
  | Some str =>
      if isTextItem item then Some (str +:+ textOfItem item)
      else
        match JSON_stringify item with
        | Some s => Some (str +:+ s)
        | None => None
        end
  | None => None
  end.

(** The warning of a [catch] block. *)
Definition serializationWarning (logger : bool) (event : string) : TokenLog :=
  tokenLogIf logger (mkTokenLog LogWarning event None).

(** The content of a tool result is a string or an array; the last
    branch of its [try], for a value that is neither, is outside
    [ToolResultContent]. An exception of the encoder leaves the function
    where [encode] is called outside a [try] (a text, the name of a tool
    use) and is caught where it is called inside one. *)
Definition countContentBlockTokens (block : ContentBlock) (encoder : Tiktoken)
    (logger : bool) : Counted :=
  match block with
  | BlockText text =>
      match encoder text with
      | Tokens count => Returns count []
      | EncodeError message => Throws message []
      end
  | BlockImage _ _ _ => Returns 768 []
  | BlockToolUse _ name input =>
      match encoder name with
      | Tokens tokens =>
          match JSON_stringify input with
          | Some inputStr =>
              match encoder inputStr with
              | Tokens count => Returns (tokens + count) []
              | EncodeError _ =>
                  Returns tokens
                    (serializationWarning logger "tool_input_serialization_failure")
              end
          | None =>
              Returns tokens
                (serializationWarning logger "tool_input_serialization_failure")
          end
      | EncodeError message => Throws message []
      end
  | BlockToolResult _ content =>
      let contentStr :=
        match content with
        | ResultString s => Some s
        | ResultArray items => fold_left appendItem items (Some "")
        end in
      match contentStr with
      | Some contentStr =>
          match encoder contentStr with
          | Tokens count => Returns count []
          | EncodeError _ =>
              Returns 0 (serializationWarning logger "tool_result_serialization_failure")
          end
      | None =>
          Returns 0 (serializationWarning logger "tool_result_serialization_failure")
      end
  end.

(** [totalTokens += encoder.encode(text).length] outside a [try]. *)
Definition addTokens (encoder : Tiktoken) (text : string) (acc : Counted) : Counted :=
  match acc with
  | Returns totalTokens log =>
      match encoder text with
      | Tokens count => Returns (totalTokens + count) log
      | EncodeError message => Throws message log
      end
  | Throws _ _ => acc
  end.

(** "Count system prompt tokens"; [acc] is [totalTokens] with the
    records logged so far, or the exception on its way out. *)
Definition countSystemTokens (encoder : Tiktoken) (system : SystemPrompt)
    (acc : Counted) : Counted :=
  match system with
  | SystemString s => addTokens encoder s acc
  | SystemBlocks blocks =>
      fold_left (fun acc block =>
                   if String.eqb (sc_type block) "text"
                   then addTokens encoder (sc_text block) acc
                   else acc) blocks acc
  | SystemUndefined => acc
  end.

(** The body of the loop over the blocks of a message. *)
Definition countBlock (encoder : Tiktoken) (logger : bool) (acc : Counted)
    (block : ContentBlock) : Counted :=
  match acc with
  | Returns totalTokens log =>
      match countContentBlockTokens block encoder logger with
      | Returns tokens warnings => Returns (totalTokens + tokens) (log ++ warnings)
      | Throws message warnings => Throws message (log ++ warnings)
      end
  | Throws _ _ => acc
  end.

(** "Count message tokens": the body of the loop over the messages. *)
Definition countMessage (encoder : Tiktoken) (logger : bool) (acc : Counted)
    (msg : Message) : Counted :=
  match acc with
  | Returns totalTokens log =>
      let acc := addTokens encoder (roleName (role msg)) (Returns (totalTokens + 4) log) in
      match content msg with
      | ContentString s => addTokens encoder s acc
      | ContentBlocks blocks => fold_left (countBlock encoder logger) blocks acc
      end
  | Throws _ _ => acc
  end.

(** "Count tool tokens": the body of the loop over the tools. The schema
    is serialised and encoded inside a [try]. *)
Definition countTool (encoder : Tiktoken) (logger : bool) (acc : Counted)
    (tool : Tool) : Counted :=
  let acc := addTokens encoder (tool_name tool) acc in
  let acc :=
    match tool_description tool with
    | Some description =>
        if truthy description then addTokens encoder description acc else acc
    | None => acc
    end in
  match acc with
  | Returns totalTokens log =>
      match JSON_stringify (tool_input_schema tool) with
      | Some schemaStr =>
          match encoder schemaStr with
          | Tokens count => Returns (totalTokens + count) log
          | EncodeError _ =>
              Returns totalTokens
                (log ++ serializationWarning logger "tool_input_serialization_failure")
          end
      | None =>
          Returns totalTokens
            (log ++ serializationWarning logger "tool_input_serialization_failure")
      end
  | Throws _ _ => acc
  end.

(** [totalTokens += n] for a constant. *)
Definition addConstant (n : nat) (acc : Counted) : Counted :=
  match acc with
  | Returns totalTokens log => Returns (totalTokens + n) log
  | Throws _ _ => acc
  end.

(** The counter: how the count ends and the cache it leaves. [modelName]
    is read by the message of the last record only and is left out. *)
Definition countTokensForAnthropicRequest (messages : list Message)
    (system : SystemPrompt) (tools : option (list Tool)) (logger : bool)
    (tokenEncoderCache : gmap string Tiktoken)
    : Counted * gmap string Tiktoken :=
  let '(encoder, tokenEncoderCache, log) := getTokenEncoder logger tokenEncoderCache in
  let acc := countSystemTokens encoder system (Returns 0 log) in
  let acc := fold_left (countMessage encoder logger) messages acc in
  let acc :=
    match tools with
    | Some tools => fold_left (countTool encoder logger) tools (addConstant 2 acc)
    | None => acc
    end in
  (match acc with
   | Returns totalTokens log =>
       Returns totalTokens
         (log ++ tokenLogIf logger
                   (mkTokenLog LogDebug "token_count" (Some totalTokens)))
   | Throws _ _ => acc
   end,
   tokenEncoderCache).

End WithTiktoken.

End Tokenizer.

(** ** Properties of the model selector *)

Module ConverterSpec.
Import Converter.

(** The text [sub] occurs in [s]. *)
Definition contains (s sub : string) : Prop :=
  exists before after, s = before +:+ sub +:+ after.

Lemma append_empty (s : string) : "" +:+ s = s.
Proof. reflexivity. Qed.

Lemma append_String (c : Ascii.ascii) (s1 s2 : string) :
  String c s1 +:+ s2 = String c (s1 +:+ s2).
Proof. reflexivity. Qed.

Lemma prefix_append (sub s : string) :
  String.prefix sub s = true <-> exists after, s = sub +:+ after.
Proof.
  revert s. induction sub as [| c sub IH]; intros s.
  { split; [intros _; by exists s | intros _; by destruct s]. }
  destruct s as [| d s]; cbn [String.prefix].
  { split; [done | intros [after H]; by rewrite append_String in H]. }
  destruct (Ascii.ascii_dec c d) as [-> | Hcd].
  - rewrite IH. split; intros [after H]; exists after.
    + by rewrite append_String, H.
    + rewrite append_String in H. by injection H.
  - split; [done |]. intros [after H]. rewrite append_String in H.
    injection H as ? _. done.
Qed.

Lemma includes_contains (s sub : string) : includes s sub = true <-> contains s sub.
Proof.
  unfold contains. induction s as [| c s IH].
  - cbn [includes]. rewrite orb_false_r, prefix_append. split.
    + intros [after ->]. by exists "", after.
    + intros ([| d before] & after & H).
      * exists after. by rewrite append_empty in H.
      * by rewrite append_String in H.
  - cbn [includes]. rewrite orb_true_iff, prefix_append, IH. split.
    + intros [[after ->] | (before & after & ->)].
      * by exists "", after.
      * by exists (String c before), after.
    + intros ([| d before] & after & H).
      * left. exists after. by rewrite append_empty in H.
      * right. rewrite append_String in H. injection H as -> ->.
        by exists before, after.
Qed.

Lemma includes_not_contains (s sub : string) : includes s sub = false <-> ~ contains s sub.
Proof. rewrite <- includes_contains. by destruct (includes s sub). Qed.

Section WithToLowerCase.

Variable toLowerCase : string -> string.

(** C9. The model selector is total, and one of three cases holds of
    every client model name. The lowercased name contains "opus" or
    "sonnet": the big name is returned, without a warning. It contains
    neither but contains "haiku": the small name is returned, without a
    warning. It contains none of the three: the small name is returned and
    a warning is given to the logger. In all cases the debug record of the
    selection follows. *)
Theorem selectTargetModel_policy (client big small : string) :
  let lowered := toLowerCase client in
  let result := selectTargetModel toLowerCase client big small in
  ((contains lowered "opus" \/ contains lowered "sonnet")
   /\ result = (big, [mkLog DEBUG MODEL_SELECTION]))
  \/ (~ contains lowered "opus" /\ ~ contains lowered "sonnet"
      /\ contains lowered "haiku"
      /\ result = (small, [mkLog DEBUG MODEL_SELECTION]))
  \/ (~ contains lowered "opus" /\ ~ contains lowered "sonnet"
      /\ ~ contains lowered "haiku"
      /\ result = (small, [mkLog WARNING MODEL_SELECTION; mkLog DEBUG MODEL_SELECTION])).
Proof.
  cbv zeta. unfold selectTargetModel.
  destruct (includes (toLowerCase client) "opus") eqn:Ho.
  { left. split; [left; by apply includes_contains | done]. }
  destruct (includes (toLowerCase client) "sonnet") eqn:Hs.
  { left. split; [right; by apply includes_contains | done]. }
  apply includes_not_contains in Ho, Hs. right.
  destruct (includes (toLowerCase client) "haiku") eqn:Hh.
  - left. apply includes_contains in Hh. done.
  - right. apply includes_not_contains in Hh. done.
Qed.

End WithToLowerCase.

End ConverterSpec.

(** ** Properties of the request and response translators *)

Module MessagesSpec.
Import Converter.

(** The invariant of the target dialect: an assistant message that
    carries tool calls has [content: null]. *)
Definition nullContentInvariant (m : ChatCompletionMessageParam) : Prop :=
  msg_role m = RoleAssistant -> msg_tool_calls m <> None -> msg_content m = None.

(** The tool calls carried by a list of target messages, in order. *)
Definition requestToolCalls (msgs : list ChatCompletionMessageParam) : list ToolCall :=
  flat_map (fun m => default [] (msg_tool_calls m)) msgs.

Definition idName (c : ToolCall) : string * string := (tc_id c, tc_name c).

(** The (id, name) pairs of the tool-use blocks of a block list. *)
Definition toolUsesOfBlocks (blocks : list ContentBlock) : list (string * string) :=
  flat_map (fun b =>
    match b with
    | BlockToolUse id name _ => [(id, name)]
    | _ => []
    end) blocks.

(** The (id, name) pairs of the assistant tool-use blocks of a request. *)
Definition assistantToolUses (msgs : list Message) : list (string * string) :=
  flat_map (fun m =>
    match role m, content m with
    | assistant, ContentBlocks blocks => toolUsesOfBlocks blocks
    | _, _ => []
    end) msgs.

(** A state whose output array and log are extended at the front. *)
Definition prepend (pre : list ChatCompletionMessageParam) (lpre : Log) (st : Locals)
    : Locals :=
  mkLocals (pre ++ openaiMessages st) (lpre ++ logged st)
    (openaiPartsForUserMessage st) (assistantToolCalls st) (textContentForAssistant st).

(** A prefix of the output array that no later message can change: it is
    empty or ends in a message that is not an assistant message. *)
Definition sealed (pre : list ChatCompletionMessageParam) : Prop :=
  forall x, last pre = Some x -> msg_role x <> RoleAssistant.

Definition isSystemPromptWarning (r : LogRecord) : bool :=
  bool_decide (r = mkLog WARNING SYSTEM_PROMPT_ADJUSTED).

Section WithJSON.

Variable JSON_stringify : json -> option string.
Variable JSON_stringify_parts : list UserPart -> string.
Variable JSON_parse : string -> option json.
Variable JS_String : json -> string.

Abbreviation convertBlock := (convertBlock JSON_stringify JS_String).
Abbreviation convertBlocks := (convertBlocks JSON_stringify JS_String).
Abbreviation convertMessage := (convertMessage JSON_stringify JSON_stringify_parts JS_String).
Abbreviation serializeToolResult := (serializeToolResultContentForOpenAI JSON_stringify JS_String).
Abbreviation convertMessages :=
  (convertAnthropicToOpenAIMessages JSON_stringify JSON_stringify_parts JS_String).
Abbreviation convertResponse := (convertOpenAIToAnthropicResponse JSON_parse).

(** *** Framing: a sealed prefix is carried through unchanged *)

Lemma convertBlock_prepend logger r b pre lpre st :
  convertBlock logger r b (prepend pre lpre st)
  = prepend pre lpre (convertBlock logger r b st).
Proof.
  unfold prepend.
  destruct b as [t | sty mt d | i n inp | i c], r; cbn [Converter.convertBlock];
    try reflexivity.
  - destruct (String.eqb sty "base64"); cbn; by rewrite ?app_assoc.
  - destruct (JSON_stringify inp); cbn; by rewrite ?app_assoc.
  - destruct (serializeToolResult c logger) as [s w]. cbn. by rewrite !app_assoc.
Qed.

Lemma convertBlocks_prepend logger r blocks pre lpre st :
  convertBlocks logger r blocks (prepend pre lpre st)
  = prepend pre lpre (convertBlocks logger r blocks st).
Proof.
  unfold Converter.convertBlocks.
  revert st. induction blocks as [| b blocks IH]; intros st; [reflexivity |].
  cbn [fold_left]. rewrite convertBlock_prepend. apply IH.
Qed.

Lemma last_app_sealed pre (rest : list ChatCompletionMessageParam) :
  last (pre ++ rest) = match last rest with Some x => Some x | None => last pre end.
Proof.
  destruct rest as [| y rest] using rev_ind.
  - by rewrite app_nil_r.
  - by rewrite app_assoc, !last_snoc.
Qed.

Lemma removelast_snoc {A} (l : list A) x : removelast (l ++ [x]) = l.
Proof. by rewrite removelast_last. Qed.

Lemma attachToolCalls_prepend pre msgs calls :
  sealed pre ->
  attachToolCalls (pre ++ msgs) calls = pre ++ attachToolCalls msgs calls.
Proof.
  intros Hs. unfold attachToolCalls. rewrite last_app_sealed.
  destruct msgs as [| y msgs _] using rev_ind.
  - cbn [last]. rewrite app_nil_r.
    destruct (last pre) as [x |] eqn:Hl; [| reflexivity].
    specialize (Hs x Hl).
    rewrite (bool_decide_eq_false_2 _ Hs). reflexivity.
  - rewrite last_snoc.
    repeat case_match; rewrite ?app_assoc, ?removelast_snoc; try reflexivity.
Qed.

Lemma assistantMessages_prepend pre msgs texts calls :
  sealed pre ->
  assistantMessages (pre ++ msgs) texts calls = pre ++ assistantMessages msgs texts calls.
Proof.
  intros Hs. unfold assistantMessages.
  destruct (truthy _), calls; rewrite <- ?app_assoc; try reflexivity.
  all: rewrite attachToolCalls_prepend by assumption; reflexivity.
Qed.

Lemma convertBlocks_fresh logger r blocks msgs l :
  convertBlocks logger r blocks (mkLocals msgs l [] [] [])
  = prepend msgs l (convertBlocks logger r blocks (mkLocals [] [] [] [] [])).
Proof.
  rewrite <- convertBlocks_prepend. unfold prepend. cbn. by rewrite !app_nil_r.
Qed.

Lemma convertMessage_prepend logger pre lpre st m :
  sealed pre ->
  convertMessage logger (prepend pre lpre st) m
  = prepend pre lpre (convertMessage logger st m).
Proof.
  intros Hs. unfold Converter.convertMessage.
  destruct (content m) as [s | [| b blocks]].
  - unfold prepend. cbn. by rewrite app_assoc.
  - unfold prepend. cbn. by rewrite app_assoc.
  - set (bs := b :: blocks).
    rewrite (convertBlocks_fresh _ _ _ (openaiMessages (prepend pre lpre st))).
    rewrite (convertBlocks_fresh _ _ _ (openaiMessages st)).
    set (inner := convertBlocks logger (role m) bs _).
    unfold prepend. cbn.
    destruct (role m); cbn.
    + by rewrite <- !app_assoc.
    + rewrite <- !app_assoc. by rewrite assistantMessages_prepend.
Qed.

Lemma convertMessages_prepend logger pre lpre msgs st :
  sealed pre ->
  fold_left (convertMessage logger) msgs (prepend pre lpre st)
  = prepend pre lpre (fold_left (convertMessage logger) msgs st).
Proof.
  intros Hs. revert st. induction msgs as [| m msgs IH]; intros st; [reflexivity |].
  cbn [fold_left]. rewrite convertMessage_prepend by assumption. apply IH.
Qed.

(** *** What a message can push *)

Section Preservation.

Variable P : ChatCompletionMessageParam -> Prop.
Hypothesis P_plain : forall r c, P (plainMessage (openaiRole r) c).
Hypothesis P_tool : forall i c, P (toolMessage i c).
Hypothesis P_calls : forall calls, P (toolCallsMessage calls).
Hypothesis P_merge : forall x calls,
  msg_role x = RoleAssistant -> P x ->
  P (mkParam (msg_role x) None (Some calls) (msg_tool_call_id x)).

Local Ltac pushed :=
  repeat (apply Forall_app; split); try assumption;
  repeat constructor; auto.

Lemma convertBlock_Forall logger r b st :
  Forall P (openaiMessages st) ->
  Forall P (openaiMessages (convertBlock logger r b st)).
Proof using P_tool.
  intros H.
  destruct b as [t | sty mt d | i n inp | i c], r; cbn [Converter.convertBlock];
    try assumption.
  - destruct (String.eqb sty "base64"); assumption.
  - destruct (JSON_stringify inp); assumption.
  - destruct (serializeToolResult c logger) as [s w]. cbn. pushed.
Qed.

Lemma convertBlocks_Forall logger r blocks st :
  Forall P (openaiMessages st) ->
  Forall P (openaiMessages (convertBlocks logger r blocks st)).
Proof using P_tool.
  unfold Converter.convertBlocks.
  revert st. induction blocks as [| b blocks IH]; intros st H; [assumption |].
  cbn [fold_left]. apply IH. by apply convertBlock_Forall.
Qed.

Lemma attachToolCalls_Forall msgs calls :
  Forall P msgs -> Forall P (attachToolCalls msgs calls).
Proof using P_calls P_merge.
  intros H. unfold attachToolCalls.
  destruct (last msgs) as [x |] eqn:Hl; [| pushed].
  apply last_Some in Hl as [init ->].
  apply Forall_app in H as [Hinit Hx]. rewrite Forall_singleton in Hx.
  destruct (_ && _ && _); [pushed |].
  destruct (bool_decide (msg_role x = RoleAssistant)) eqn:Hr; cbn [andb]; [| pushed].
  apply bool_decide_eq_true_1 in Hr.
  destruct (bool_decide (msg_tool_calls x = None)); [| pushed].
  rewrite removelast_snoc. pushed.
Qed.

Lemma assistantMessages_Forall msgs texts calls :
  Forall P msgs -> Forall P (assistantMessages msgs texts calls).
Proof using P_plain P_calls P_merge.
  intros H. unfold assistantMessages.
  set (text := join LF _).
  assert (H1 : Forall P (if truthy text
                         then msgs ++ [plainMessage RoleAssistant text] else msgs)).
  { destruct (truthy text); [| assumption].
    apply Forall_app. split; [assumption |].
    constructor; [apply (P_plain assistant) | constructor]. }
  destruct calls; [assumption |]. by apply attachToolCalls_Forall.
Qed.

Lemma userMessageOfParts_Forall parts :
  Forall P (userMessageOfParts JSON_stringify_parts parts).
Proof using P_plain.
  unfold userMessageOfParts.
  destruct parts as [| p parts].
  { constructor; [apply (P_plain user) | constructor]. }
  destruct (_ || _).
  { constructor; [apply (P_plain user) | constructor]. }
  destruct p, parts; try constructor; try apply (P_plain user); constructor.
Qed.

Lemma convertMessage_Forall logger st m :
  Forall P (openaiMessages st) ->
  Forall P (openaiMessages (convertMessage logger st m)).
Proof using P_plain P_tool P_calls P_merge.
  intros H. unfold Converter.convertMessage.
  destruct (content m) as [s | [| b blocks]].
  - cbn. pushed.
  - cbn. pushed.
  - set (st1 := convertBlocks logger (role m) (b :: blocks) _).
    assert (H1 : Forall P (openaiMessages st1)) by by apply convertBlocks_Forall.
    destruct (role m); cbn.
    + apply Forall_app. split; [assumption | apply userMessageOfParts_Forall].
    + by apply assistantMessages_Forall.
Qed.

Lemma convertMessages_Forall logger msgs st :
  Forall P (openaiMessages st) ->
  Forall P (openaiMessages (fold_left (convertMessage logger) msgs st)).
Proof using P_plain P_tool P_calls P_merge.
  revert st. induction msgs as [| m msgs IH]; intros st H; [assumption |].
  cbn [fold_left]. apply IH. by apply convertMessage_Forall.
Qed.

End Preservation.

(** *** The final normalisation *)

Lemma normalizeMessage_other logger m :
  msg_role m <> RoleAssistant -> normalizeMessage logger m = m.
Proof.
  intros H. unfold normalizeMessage, needsNormalizing.
  by rewrite (bool_decide_eq_false_2 _ H).
Qed.

Lemma normalize_other logger msgs :
  Forall (fun m => msg_role m <> RoleAssistant) msgs ->
  map (normalizeMessage logger) msgs = msgs /\ normalizeLog logger msgs = [].
Proof.
  induction 1 as [| m msgs Hm _ [IH1 IH2]]; [done |].
  unfold normalizeLog in *. cbn. rewrite IH1, IH2.
  rewrite normalizeMessage_other by assumption.
  unfold needsNormalizing. by rewrite (bool_decide_eq_false_2 _ Hm).
Qed.

Lemma normalizeMessage_invariant logger m :
  nullContentInvariant m -> nullContentInvariant (normalizeMessage logger m).
Proof.
  unfold normalizeMessage. destruct (needsNormalizing logger m); [| done].
  intros _ _ _. reflexivity.
Qed.

Lemma convertSystem_Forall (P : ChatCompletionMessageParam -> Prop) sys logger :
  (forall c, P (plainMessage RoleSystem c)) ->
  Forall P (openaiMessages (convertSystem sys logger)).
Proof.
  intros HP. unfold convertSystem.
  destruct sys as [| s | blocks]; cbn [openaiMessages].
  - cbn. constructor.
  - destruct (truthy s); repeat constructor. apply HP.
  - destruct (truthy _); repeat constructor. apply HP.
Qed.

(** *** Messages made of tool results *)

Definition toolResultBlock (r : string * ToolResultContent) : ContentBlock :=
  BlockToolResult (fst r) (snd r).

Definition toolResultMessage (logger : bool) (r : string * ToolResultContent)
    : ChatCompletionMessageParam :=
  toolMessage (fst r) (fst (serializeToolResult (snd r) logger)).

Lemma convertBlocks_tool_results logger results st :
  let st' := convertBlocks logger user (map toolResultBlock results) st in
  openaiMessages st' = openaiMessages st ++ map (toolResultMessage logger) results
  /\ openaiPartsForUserMessage st' = openaiPartsForUserMessage st.
Proof.
  unfold Converter.convertBlocks. revert st.
  induction results as [| [i c] results IH]; intros st; cbn [map fold_left].
  - by rewrite app_nil_r.
  - destruct (IH (convertBlock logger user (toolResultBlock (i, c)) st)) as [IH1 IH2].
    cbv zeta. rewrite IH1, IH2. unfold toolResultBlock, toolResultMessage.
    cbn [Converter.convertBlock fst snd].
    destruct (serializeToolResult c logger) as [s w]. cbn.
    by rewrite <- app_assoc.
Qed.

Lemma sealed_snoc pre x : msg_role x <> RoleAssistant -> sealed (pre ++ [x]).
Proof. intros H y. rewrite last_snoc. by intros [= <-]. Qed.

(** The messages of a user message made of tool results, as the code
    builds them. *)
Lemma tool_results_segment
    (before after : list Message) (r : string * ToolResultContent)
    (results : list (string * ToolResultContent))
    (anthropicSystem : SystemPrompt) (logger : bool) :
  fst (convertMessages
         (before ++ mkMessage user (ContentBlocks (map toolResultBlock (r :: results)))
            :: after)
         anthropicSystem logger)
  = fst (convertMessages before anthropicSystem logger)
    ++ map (toolResultMessage logger) (r :: results)
    ++ [plainMessage RoleUser ""]
    ++ fst (convertMessages after SystemUndefined logger).
Proof.
  unfold Converter.convertAnthropicToOpenAIMessages. cbn [fst].
  rewrite fold_left_app. cbn [fold_left].
  set (st0 := fold_left (convertMessage logger) before _).
  set (m := mkMessage user _).
  set (seg := map (toolResultMessage logger) (r :: results) ++ [plainMessage RoleUser ""]).
  assert (Hm : exists l, convertMessage logger st0 m
                = prepend (openaiMessages st0 ++ seg) l (convertSystem SystemUndefined logger)).
  { unfold Converter.convertMessage, m. cbn [content role map].
    change (toolResultBlock r :: map toolResultBlock results)
      with (map toolResultBlock (r :: results)).
    destruct (convertBlocks_tool_results logger (r :: results)
                (mkLocals (openaiMessages st0) (logged st0) [] [] [])) as [H1 H2].
    cbv zeta in H1, H2. cbn [map] in H1, H2 |- *.
    rewrite H1, H2. cbn [openaiMessages openaiPartsForUserMessage userMessageOfParts].
    eexists. unfold prepend, seg. cbn. rewrite !app_nil_r.
    by rewrite <- app_assoc. }
  destruct Hm as [l ->].
  rewrite convertMessages_prepend.
  2:{ unfold seg. rewrite app_assoc. by apply sealed_snoc. }
  unfold prepend. cbn [openaiMessages]. rewrite !map_app.
  destruct (normalize_other logger seg) as [-> _].
  { unfold seg. apply Forall_app. split; [| by repeat constructor].
    apply Forall_forall. intros x Hx. apply list_elem_of_In, in_map_iff in Hx.
    by destruct Hx as [? [<- _]]. }
  unfold seg. by rewrite <- !app_assoc.
Qed.

(** [obj[key]] for an own property, read off the list of properties. *)
Definition propertyOf (item : json) (key : string) : option json :=
  match item with
  | JObject properties =>
      snd <$> List.find (fun property => String.eqb (fst property) key) properties
  | _ => None
  end.

(** The name [typeof] gives to an item. *)
Definition typeName (item : json) : string :=
  match item with
  | JBool _ => "boolean"
  | JNumber _ => "number"
  | JString _ => "string"
  | JNull | JArray _ | JObject _ => "object"
  end.

(** The serialised content of a tool result, as the specification words
    it: a string passes through; the items of an array are joined by
    newlines, a text-typed item by its text, any other item by its JSON
    text, and by a placeholder when it has none. *)
Definition serializedItem (item : json) : string :=
  match propertyOf item "type", propertyOf item "text" with
  | Some (JString "text"), Some text => JS_String text
  | _, _ =>
      match JSON_stringify item with
      | Some jsonText => jsonText
      | None => "<unserializable_item type='" +:+ typeName item +:+ "'>"
      end
  end.

Definition serializedContent (c : ToolResultContent) : string :=
  match c with
  | ResultString s => s
  | ResultArray items =>
      String.concat
        (String (Ascii.Ascii false true false true false false false false) EmptyString)
        (map serializedItem items)
  end.

Lemma get_propertyOf item key : get item key = propertyOf item key.
Proof.
  destruct item as [| | | | | properties]; try reflexivity. cbn [get propertyOf].
  induction properties as [| [k v] rest IH]; [reflexivity |].
  cbn [field List.find fst]. by destruct (String.eqb k key).
Qed.

Lemma typeof_typeName item : typeof item = typeName item.
Proof. by destruct item. Qed.

Lemma serializeItem_serializedItem item :
  fst (serializeItem JSON_stringify JS_String item) = serializedItem item.
Proof.
  unfold serializeItem, textOfItem, serializedItem.
  rewrite !get_propertyOf, typeof_typeName.
  destruct (propertyOf item "type") as [[| | | t | |] |];
    try (by destruct (JSON_stringify item)).
  destruct (String.eqb_spec t "text") as [-> | Ht].
  - destruct (propertyOf item "text"); [reflexivity |]. by destruct (JSON_stringify item).
  - assert (Hno : forall (A : Type) (a b : A),
              match t with "text" => a | _ => b end = b).
    { intros A a b. clear -Ht.
      repeat (let c := fresh "c" in destruct t as [| c t]; [done |];
              destruct c as [[] [] [] [] [] [] [] []]; try done). }
    destruct (propertyOf item "text"); rewrite !Hno; by destruct (JSON_stringify item).
Qed.

Lemma serializeToolResult_serializedContent c logger :
  fst (serializeToolResult c logger) = serializedContent c.
Proof.
  destruct c as [s | items]; [reflexivity |]. cbn [serializeToolResultContentForOpenAI fst].
  unfold serializedContent, join. f_equal. rewrite map_map.
  apply map_ext. intros item. apply serializeItem_serializedItem.
Qed.

(** C10. A user message whose content is a non-empty array of tool-result
    blocks contributes, to the translated request, one message per block,
    in block order, with the role [tool], the tool-use id of the block as
    [tool_call_id], its serialised content as content and no tool calls,
    followed by one user-role message whose content is the empty string;
    the messages before it and after it are translated as they are on
    their own. *)
Theorem tool_results_only_message
    (before after : list Message) (r : string * ToolResultContent)
    (results : list (string * ToolResultContent))
    (anthropicSystem : SystemPrompt) (logger : bool) :
  fst (convertMessages
         (before ++ mkMessage user (ContentBlocks (map toolResultBlock (r :: results)))
            :: after)
         anthropicSystem logger)
  = fst (convertMessages before anthropicSystem logger)
    ++ map (fun result =>
              mkParam RoleTool (Some (serializedContent (snd result))) None
                (Some (fst result)))
         (r :: results)
    ++ [mkParam RoleUser (Some "") None None]
    ++ fst (convertMessages after SystemUndefined logger).
Proof.
  rewrite tool_results_segment. do 2 f_equal.
  apply map_ext. intros [id c]. unfold toolResultMessage, toolMessage. cbn [fst snd].
  by rewrite serializeToolResult_serializedContent.
Qed.

(** C5. In the output of the request translator every assistant-role
    message that carries a tool-call list has [content: null], whatever
    the source messages and whether or not a logger is supplied. *)
Theorem assistant_tool_calls_null_content
    (anthropicMessages : list Message) (anthropicSystem : SystemPrompt) (logger : bool)
    (m : ChatCompletionMessageParam) :
  In m (fst (convertMessages anthropicMessages anthropicSystem logger)) ->
  msg_role m = RoleAssistant ->
  msg_tool_calls m <> None ->
  msg_content m = None.
Proof.
  intros Hin. revert m Hin.
  change (forall m, In m (fst (convertMessages anthropicMessages anthropicSystem logger))
                    -> nullContentInvariant m).
  apply List.Forall_forall.
  unfold Converter.convertAnthropicToOpenAIMessages. cbn [fst].
  apply List.Forall_map.
  eapply Forall_impl; [| intros x Hx; apply (normalizeMessage_invariant logger x Hx)].
  apply convertMessages_Forall.
  - intros r c _. by cbn.
  - intros i c. by cbn.
  - intros calls _ _. reflexivity.
  - intros x calls _ _ _ _. reflexivity.
  - apply convertSystem_Forall. intros c Hr. discriminate Hr.
Qed.

(** *** The system prompt *)

Definition hasNonText (blocks : list SystemContent) : bool :=
  existsb (fun block => negb (String.eqb (sc_type block) "text")) blocks.

Lemma systemTexts_shorter blocks :
  (length (systemTexts blocks) <? length blocks)%nat = hasNonText blocks.
Proof.
  unfold systemTexts, hasNonText. rewrite length_map.
  induction blocks as [| b blocks IH]; [reflexivity |].
  rewrite filter_cons. cbn [existsb length].
  destruct (decide (sc_type b = "text")) as [-> | Hne].
  - cbn [length negb orb]. exact IH.
  - apply String.eqb_neq in Hne. rewrite Hne. cbn [negb orb].
    apply Nat.ltb_lt.
    pose proof (length_filter (fun block => sc_type block = "text") blocks). lia.
Qed.

Definition quiet (l : Log) : Prop := Forall (fun r => isSystemPromptWarning r = false) l.

Lemma quiet_app l1 l2 : quiet l1 -> quiet l2 -> quiet (l1 ++ l2).
Proof. intros. by apply Forall_app. Qed.

Lemma quiet_logIf logger r : isSystemPromptWarning r = false -> quiet (logIf logger r).
Proof. intros H. destruct logger; repeat constructor. exact H. Qed.

Lemma quiet_existsb l : quiet l -> existsb isSystemPromptWarning l = false.
Proof. induction 1 as [| r l Hr _ IH]; [reflexivity |]. cbn. by rewrite Hr, IH. Qed.

Lemma convertBlock_quiet logger r b st :
  quiet (logged st) -> quiet (logged (convertBlock logger r b st)).
Proof.
  intros H.
  destruct b as [t | sty mt d | i n inp | i c], r; cbn [Converter.convertBlock];
    try assumption.
  - destruct (String.eqb sty "base64"); cbn; [assumption |].
    apply quiet_app; [assumption | by apply quiet_logIf].
  - destruct (JSON_stringify inp); cbn; [assumption |].
    apply quiet_app; [assumption | by apply quiet_logIf].
  - unfold serializeToolResultContentForOpenAI.
    destruct c as [s | items]; cbn.
    + by rewrite app_nil_r.
    + apply quiet_app; [assumption |].
      destruct (existsb _ _); [by apply quiet_logIf | constructor].
Qed.

Lemma convertBlocks_quiet logger r blocks st :
  quiet (logged st) -> quiet (logged (convertBlocks logger r blocks st)).
Proof.
  unfold Converter.convertBlocks.
  revert st. induction blocks as [| b blocks IH]; intros st H; [exact H |].
  cbn [fold_left]. apply IH. by apply convertBlock_quiet.
Qed.

Lemma convertMessage_quiet logger st m :
  quiet (logged st) -> quiet (logged (convertMessage logger st m)).
Proof.
  intros H. unfold Converter.convertMessage.
  destruct (content m) as [s | [| b blocks]]; try exact H.
  set (st1 := convertBlocks logger (role m) (b :: blocks) _).
  assert (H1 : quiet (logged st1)) by by apply convertBlocks_quiet.
  destruct (role m); exact H1.
Qed.

Lemma convertMessages_quiet logger msgs st :
  quiet (logged st) -> quiet (logged (fold_left (convertMessage logger) msgs st)).
Proof.
  revert st. induction msgs as [| m msgs IH]; intros st H; [exact H |].
  cbn [fold_left]. apply IH. by apply convertMessage_quiet.
Qed.

Lemma normalizeLog_quiet logger msgs : quiet (normalizeLog logger msgs).
Proof.
  unfold normalizeLog. induction msgs as [| m msgs IH]; [constructor |].
  cbn [flat_map]. apply quiet_app; [| exact IH].
  destruct (needsNormalizing logger m); repeat constructor.
Qed.

(** The translation of a request without a system prompt never leaves a
    system-prompt warning and never produces a system-role message. *)
Lemma no_system_prompt logger msgs :
  let out := convertMessages msgs SystemUndefined logger in
  existsb isSystemPromptWarning (snd out) = false
  /\ Forall (fun m => msg_role m <> RoleSystem) (fst out).
Proof.
  unfold Converter.convertAnthropicToOpenAIMessages. cbn [fst snd]. split.
  - apply quiet_existsb, quiet_app; [| apply normalizeLog_quiet].
    apply convertMessages_quiet. constructor.
  - apply List.Forall_map.
    eapply Forall_impl.
    + apply (convertMessages_Forall (fun m => msg_role m <> RoleSystem)).
      * by intros [] c.
      * done.
      * done.
      * intros x calls Hx _. cbn. by rewrite Hx.
      * constructor.
    + intros m Hm. unfold normalizeMessage. by destruct (needsNormalizing logger m).
Qed.

(** With a system prompt, the output is the system part followed by the
    output for the messages alone. *)
Lemma convertMessages_system logger msgs sys :
  let st := convertSystem sys logger in
  let rest := convertMessages msgs SystemUndefined logger in
  convertMessages msgs sys logger
  = (openaiMessages st ++ fst rest, logged st ++ snd rest).
Proof.
  cbv zeta. unfold Converter.convertAnthropicToOpenAIMessages.
  set (st := convertSystem sys logger).
  assert (Hseal : Forall (fun m => msg_role m <> RoleAssistant) (openaiMessages st)).
  { apply convertSystem_Forall. done. }
  assert (Hst : st = prepend (openaiMessages st) (logged st)
                       (convertSystem SystemUndefined logger)).
  { unfold prepend. cbn. rewrite !app_nil_r.
    unfold st, convertSystem. by destruct sys. }
  assert (Hfold : fold_left (convertMessage logger) msgs st
                  = prepend (openaiMessages st) (logged st)
                      (fold_left (convertMessage logger) msgs
                         (convertSystem SystemUndefined logger))).
  { rewrite Hst at 1. apply convertMessages_prepend.
    intros x Hx. apply last_Some_elem_of in Hx.
    by apply (proj1 (Forall_forall _ _) Hseal). }
  rewrite Hfold. unfold prepend. cbn [openaiMessages logged fst snd].
  unfold normalizeLog in *. rewrite map_app, flat_map_app.
  destruct (normalize_other logger _ Hseal) as [-> Hlog].
  unfold normalizeLog in Hlog. rewrite Hlog. cbn [app].
  by rewrite <- app_assoc.
Qed.

(** C7, as the code has it. A plain-string system prompt becomes one
    leading system-role message with that string as content when the
    string is not empty, and no message when it is empty. An array becomes
    one leading system-role message whose content is the texts of its
    text blocks joined by line feeds when that join is not empty, and no
    message otherwise. In both cases the rest of the output is the
    translation of the messages alone, which holds no system-role
    message. The system-prompt warning is logged exactly when a logger is
    supplied and the array holds a block that is not a text block. *)
Theorem system_prompt_translation
    (anthropicMessages : list Message) (anthropicSystem : SystemPrompt) (logger : bool) :
  let out := convertMessages anthropicMessages anthropicSystem logger in
  let rest := convertMessages anthropicMessages SystemUndefined logger in
  Forall (fun m => msg_role m <> RoleSystem) (fst rest)
  /\ match anthropicSystem with
     | SystemUndefined => out = rest
     | SystemString s =>
         fst out = (if truthy s then [plainMessage RoleSystem s] else []) ++ fst rest
         /\ existsb isSystemPromptWarning (snd out) = false
     | SystemBlocks blocks =>
         let text := join LF (systemTexts blocks) in
         fst out = (if truthy text then [plainMessage RoleSystem text] else []) ++ fst rest
         /\ existsb isSystemPromptWarning (snd out) = logger && hasNonText blocks
     end.
Proof.
  cbv zeta. destruct (no_system_prompt logger anthropicMessages) as [Hq Hr].
  cbv zeta in Hq, Hr. split; [exact Hr |].
  rewrite convertMessages_system. cbn [fst snd]. rewrite existsb_app, Hq.
  destruct anthropicSystem as [| s | blocks]; cbn [convertSystem openaiMessages logged].
  - by destruct (convertMessages anthropicMessages SystemUndefined logger).
  - split; reflexivity.
  - split; [reflexivity |].
    rewrite systemTexts_shorter.
    destruct (hasNonText blocks), logger; reflexivity.
Qed.

(** *** Tool calls there and back *)

Definition isFunctionCall (c : ToolCall) : Prop := tc_type c = "function".

Lemma requestToolCalls_app l1 l2 :
  requestToolCalls (l1 ++ l2) = requestToolCalls l1 ++ requestToolCalls l2.
Proof. apply flat_map_app. Qed.

Lemma requestToolCalls_none msgs :
  Forall (fun m => msg_tool_calls m = None) msgs -> requestToolCalls msgs = [].
Proof.
  induction 1 as [| m msgs Hm _ IH]; [reflexivity |].
  unfold requestToolCalls in *. cbn. by rewrite Hm, IH.
Qed.

(** The loop over the blocks pushes tool-role messages only, and collects
    one call per tool-use block of an assistant message. *)
Lemma convertBlock_calls logger r b st :
  let st' := convertBlock logger r b st in
  requestToolCalls (openaiMessages st') = requestToolCalls (openaiMessages st)
  /\ map idName (assistantToolCalls st')
     = map idName (assistantToolCalls st)
       ++ match r with assistant => toolUsesOfBlocks [b] | user => [] end
  /\ (Forall isFunctionCall (assistantToolCalls st) ->
      Forall isFunctionCall (assistantToolCalls st')).
Proof.
  cbv zeta.
  destruct b as [t | sty mt d | i n inp | i c], r; cbn [Converter.convertBlock];
    cbn [toolUsesOfBlocks flat_map app]; rewrite ?app_nil_r; try done.
  - by destruct (String.eqb sty "base64").
  - destruct (JSON_stringify inp); cbn [assistantToolCalls openaiMessages];
      rewrite map_app; (split_and!; [done | done |]);
      intros H; apply Forall_app; split; try done; by repeat constructor.
  - destruct (serializeToolResult c logger) as [s w].
    cbn [openaiMessages assistantToolCalls].
    rewrite requestToolCalls_app. cbn. by rewrite app_nil_r.
Qed.

Lemma convertBlocks_calls logger r blocks st :
  let st' := convertBlocks logger r blocks st in
  requestToolCalls (openaiMessages st') = requestToolCalls (openaiMessages st)
  /\ map idName (assistantToolCalls st')
     = map idName (assistantToolCalls st)
       ++ match r with assistant => toolUsesOfBlocks blocks | user => [] end
  /\ (Forall isFunctionCall (assistantToolCalls st) ->
      Forall isFunctionCall (assistantToolCalls st')).
Proof.
  unfold Converter.convertBlocks. revert st.
  induction blocks as [| b blocks IH]; intros st; cbn [fold_left].
  { cbv zeta. by destruct r; rewrite app_nil_r. }
  destruct (IH (convertBlock logger r b st)) as (IH1 & IH2 & IH3).
  destruct (convertBlock_calls logger r b st) as (H1 & H2 & H3).
  cbv zeta in *. rewrite IH1, IH2, H1, H2. split_and!; [done | | by auto].
  rewrite <- app_assoc. f_equal. destruct r; [reflexivity |].
  unfold toolUsesOfBlocks. cbn [flat_map]. by rewrite app_nil_r.
Qed.

Lemma attachToolCalls_calls msgs calls :
  requestToolCalls (attachToolCalls msgs calls) = requestToolCalls msgs ++ calls.
Proof.
  assert (Hnew : requestToolCalls (msgs ++ [toolCallsMessage calls])
                 = requestToolCalls msgs ++ calls).
  { rewrite requestToolCalls_app. cbn. by rewrite app_nil_r. }
  unfold attachToolCalls.
  destruct (last msgs) as [x |] eqn:Hl; [| exact Hnew].
  destruct (_ && _ && _); [exact Hnew |].
  destruct (bool_decide (msg_role x = RoleAssistant)); cbn [andb]; [| exact Hnew].
  destruct (bool_decide (msg_tool_calls x = None)) eqn:Hn; [| exact Hnew].
  apply bool_decide_eq_true_1 in Hn.
  apply last_Some in Hl as [init ->].
  rewrite removelast_snoc, !requestToolCalls_app. cbn. rewrite Hn. cbn.
  by rewrite !app_nil_r.
Qed.

Lemma assistantMessages_calls msgs texts calls :
  requestToolCalls (assistantMessages msgs texts calls) = requestToolCalls msgs ++ calls.
Proof.
  unfold assistantMessages. set (text := join LF _).
  assert (H1 : requestToolCalls
                 (if truthy text then msgs ++ [plainMessage RoleAssistant text] else msgs)
               = requestToolCalls msgs).
  { destruct (truthy text); [| reflexivity].
    rewrite requestToolCalls_app. cbn. by rewrite app_nil_r. }
  destruct calls as [| c calls]; [by rewrite app_nil_r |].
  by rewrite attachToolCalls_calls, H1.
Qed.

Lemma userMessageOfParts_calls parts :
  requestToolCalls (userMessageOfParts JSON_stringify_parts parts) = [].
Proof.
  apply requestToolCalls_none, userMessageOfParts_Forall; done.
Qed.

(** The tool calls a message adds to the output. *)
Lemma convertMessage_calls logger st m :
  exists calls,
    requestToolCalls (openaiMessages (convertMessage logger st m))
    = requestToolCalls (openaiMessages st) ++ calls
    /\ map idName calls = assistantToolUses [m]
    /\ Forall isFunctionCall calls.
Proof.
  unfold Converter.convertMessage, assistantToolUses. cbn [flat_map]. rewrite app_nil_r.
  destruct (content m) as [s | [| b blocks]].
  - exists []. cbn. rewrite requestToolCalls_app. cbn. by destruct (role m).
  - exists []. cbn. rewrite requestToolCalls_app. cbn. by destruct (role m).
  - set (bs := b :: blocks).
    destruct (convertBlocks_calls logger (role m) bs
                (mkLocals (openaiMessages st) (logged st) [] [] [])) as (H1 & H2 & H3).
    cbv zeta in H1, H2, H3. cbn [openaiMessages assistantToolCalls map app] in H1, H2, H3.
    set (st1 := convertBlocks logger (role m) bs _) in *.
    destruct (role m); cbn [openaiMessages].
    + exists []. rewrite requestToolCalls_app, userMessageOfParts_calls, H1. done.
    + exists (assistantToolCalls st1).
      rewrite assistantMessages_calls, H1. split_and!; [done | done |].
      apply H3. constructor.
Qed.

Lemma convertMessages_calls logger msgs st :
  exists calls,
    requestToolCalls (openaiMessages (fold_left (convertMessage logger) msgs st))
    = requestToolCalls (openaiMessages st) ++ calls
    /\ map idName calls = assistantToolUses msgs
    /\ Forall isFunctionCall calls.
Proof.
  revert st. induction msgs as [| m msgs IH]; intros st; cbn [fold_left].
  { exists []. by rewrite app_nil_r. }
  destruct (convertMessage_calls logger st m) as (c1 & H1 & H2 & H3).
  destruct (IH (convertMessage logger st m)) as (c2 & H4 & H5 & H6).
  exists (c1 ++ c2). rewrite H4, H1, <- app_assoc. split_and!; [done | |].
  - rewrite map_app, H2, H5. unfold assistantToolUses. cbn [flat_map].
    by rewrite app_nil_r.
  - by apply Forall_app.
Qed.

Lemma requestToolCalls_normalize logger msgs :
  requestToolCalls (map (normalizeMessage logger) msgs) = requestToolCalls msgs.
Proof.
  unfold requestToolCalls. induction msgs as [| m msgs IH]; [reflexivity |].
  cbn. rewrite IH. f_equal.
  unfold normalizeMessage. by destruct (needsNormalizing logger m).
Qed.

(** The request translator carries every assistant tool-use block over as
    one function call with the block's id and name, in order. *)
Lemma request_tool_calls logger msgs sys :
  let calls := requestToolCalls (fst (convertMessages msgs sys logger)) in
  map idName calls = assistantToolUses msgs /\ Forall isFunctionCall calls.
Proof.
  cbv zeta. unfold Converter.convertAnthropicToOpenAIMessages. cbn [fst].
  rewrite requestToolCalls_normalize.
  destruct (convertMessages_calls logger msgs (convertSystem sys logger))
    as (calls & -> & H2 & H3).
  rewrite requestToolCalls_none; [done |].
  apply convertSystem_Forall. done.
Qed.

(** The response translator turns every function call into a tool-use
    block with the call's id and name, in order. *)
Lemma convertToolCalls_tool_uses logger calls acc :
  Forall isFunctionCall calls ->
  toolUsesOfBlocks (fst (fold_left (convertToolCall JSON_parse logger) calls acc))
  = toolUsesOfBlocks (fst acc) ++ map idName calls.
Proof.
  intros H. revert acc. induction H as [| c calls Hc _ IH]; intros acc; cbn [fold_left map].
  { by rewrite app_nil_r. }
  rewrite IH. unfold convertToolCall. unfold isFunctionCall in Hc.
  rewrite Hc, String.eqb_refl.
  destruct (toolInputOfArguments JSON_parse (tc_arguments c) logger) as [d l].
  cbn [fst]. unfold toolUsesOfBlocks. rewrite flat_map_app. cbn.
  by rewrite <- app_assoc.
Qed.

(** C8. For every request, the tool calls of its translation, carried by
    a completion of the backend, come back from the response translator
    as tool-use blocks with exactly the ids and names of the assistant
    tool-use blocks of the request, in order. This holds whatever
    [JSON.stringify] and [JSON.parse] do with the inputs. *)
Theorem tool_use_round_trip
    (anthropicMessages : list Message) (anthropicSystem : SystemPrompt) (logger : bool)
    (responseId : string) (text : option string) (finishReason : option string)
    (usage : option CompletionUsage) (model requestId : string) (logger' : bool) :
  let calls :=
    requestToolCalls (fst (convertMessages anthropicMessages anthropicSystem logger)) in
  let completion :=
    mkChatCompletion responseId
      [mkChoice (mkCompletionMessage text (Some calls)) finishReason] usage in
  toolUsesOfBlocks
    (resp_content (fst (convertResponse completion model logger' requestId)))
  = assistantToolUses anthropicMessages.
Proof.
  cbv zeta.
  destruct (request_tool_calls logger anthropicMessages anthropicSystem) as [Hnames Hfun].
  cbv zeta in Hnames, Hfun. rewrite <- Hnames.
  set (calls := requestToolCalls _) in *.
  unfold Converter.convertOpenAIToAnthropicResponse.
  cbn [cc_choices message cm_tool_calls cm_content finish_reason].
  set (content0 := match text with Some c => _ | None => _ end).
  pose proof (convertToolCalls_tool_uses logger' calls (content0, []) Hfun) as Hfold.
  destruct (fold_left (convertToolCall JSON_parse logger') calls (content0, []))
    as [content1 l1].
  cbn [fst] in Hfold. cbn [fst resp_content].
  assert (H0 : toolUsesOfBlocks content0 = []).
  { unfold content0. destruct text as [c |]; [| reflexivity]. by destruct (truthy c). }
  rewrite H0 in Hfold. cbn [app] in Hfold. rewrite <- Hfold.
  by destruct content1.
Qed.

End WithJSON.

End MessagesSpec.

(** ** Properties of the error mapper *)

Module ErrorsSpec.
Import Errors.

(** The table of the specification, status by status. *)
Definition statusKind (status : Z) : AnthropicErrorType :=
  if (status =? 400)%Z || (status =? 422)%Z then INVALID_REQUEST
  else if (status =? 401)%Z then AUTHENTICATION
  else if (status =? 403)%Z then PERMISSION
  else if (status =? 404)%Z then NOT_FOUND
  else if (status =? 413)%Z then REQUEST_TOO_LARGE
  else if (status =? 429)%Z then RATE_LIMIT
  else if (status =? 500)%Z || (status =? 502)%Z || (status =? 504)%Z then API_ERROR
  else if (status =? 503)%Z then OVERLOADED
  else API_ERROR.

(** The kind a specific subtype stands for. *)
Definition subtypeKind (c : ErrorClass) : option AnthropicErrorType :=
  match c with
  | AuthenticationError => Some AUTHENTICATION
  | RateLimitError => Some RATE_LIMIT
  | BadRequestError => Some INVALID_REQUEST
  | PermissionDeniedError => Some PERMISSION
  | NotFoundError => Some NOT_FOUND
  | InternalServerError => Some API_ERROR
  | GenericAPIError | OtherError => None
  end.

Lemma lookupStatus_table (status : Z) :
  default API_ERROR
    (lookupStatus STATUS_CODE_ERROR_MAP (if (status =? 0)%Z then 500%Z else status))
  = statusKind status.
Proof.
  unfold statusKind, STATUS_CODE_ERROR_MAP. cbn [lookupStatus].
  destruct (Z.eqb_spec status 0) as [-> | H0]; [reflexivity |].
  repeat match goal with
         | |- context [(?k =? status)%Z] => rewrite (Z.eqb_sym k status)
         end.
  repeat match goal with
         | |- context [(status =? ?k)%Z] =>
             destruct (Z.eqb_spec status k) as [-> | ?]; [reflexivity |]
         end.
  reflexivity.
Qed.

Lemma truthy_nonempty s : truthy s = true <-> s <> "".
Proof. destruct s; cbn; split; congruence. Qed.

(** C6, amended. For a backend exception (an [APIError]) with an HTTP
    status, the kind returned is the kind of its subtype when it is one of
    the six named subtypes, and otherwise the kind the status table gives,
    with [api_error] for a status outside the table. The mapper is total.
    Its message is the message of the exception or, when that is empty,
    the name of the exception: it is not empty exactly when the exception
    has a message or a name. *)
Theorem error_kind_of_exception (JSON_parse : string -> option json)
    (exc : Exception) (status : Z) :
  isAPIError (exc_class exc) = true ->
  exc_status exc = Some status ->
  let details := getAnthropicErrorDetailsFromException JSON_parse exc in
  errorType details
  = match subtypeKind (exc_class exc) with
    | Some kind => kind
    | None => statusKind status
    end
  /\ errorMessage details
     = (if decide (exc_message exc = "") then exc_name exc else exc_message exc)
  /\ (errorMessage details <> "" <-> exc_message exc <> "" \/ exc_name exc <> "").
Proof.
  intros Hapi Hstatus. cbv zeta.
  unfold getAnthropicErrorDetailsFromException. rewrite Hapi, Hstatus.
  assert (Hm : (if truthy (exc_message exc) then exc_message exc else errorToString exc)
               = if decide (exc_message exc = "") then exc_name exc else exc_message exc).
  { unfold errorToString. destruct (exc_message exc) as [| c m]; cbn [truthy].
    - rewrite decide_True by done. by destruct (exc_name exc).
    - by rewrite decide_False. }
  split_and!.
  - cbn [errorType]. rewrite lookupStatus_table.
    destruct (exc_class exc); reflexivity.
  - exact Hm.
  - cbn [errorMessage]. rewrite Hm.
    destruct (decide (exc_message exc = "")) as [He | He].
    + rewrite He. split; [by right | by intros [? | ?]].
    + split; [by left | done].
Qed.

End ErrorsSpec.

(** ** Properties of the streaming translator *)

Module StreamingSpec.
Import Streaming.

(** The block index an event is about. *)
Definition eventIndex (e : SSEEvent) : option nat :=
  match e with
  | ContentBlockStart i _ | ContentBlockDelta i _ | ContentBlockStop i => Some i
  | _ => None
  end.

Definition about (i : nat) (e : SSEEvent) : Prop := eventIndex e = Some i.

#[global] Instance about_dec i e : Decision (about i e).
Proof. unfold about. apply _. Defined.

(** The events about one block while it is open, and once it is closed. *)
Definition openedTrace (i : nat) (l : list SSEEvent) : Prop :=
  exists seed payloads, l = ContentBlockStart i seed :: map (ContentBlockDelta i) payloads.

Definition closedTrace (i : nat) (l : list SSEEvent) : Prop :=
  exists seed payloads,
    l = ContentBlockStart i seed :: map (ContentBlockDelta i) payloads
        ++ [ContentBlockStop i].

Definition toolStartIndex (e : SSEEvent) : option nat :=
  match e with
  | ContentBlockStart i (SeedToolUse _ _) => Some i
  | _ => None
  end.

Definition textStartIndex (e : SSEEvent) : option nat :=
  match e with
  | ContentBlockStart i SeedText => Some i
  | _ => None
  end.

Definition stopIndex (e : SSEEvent) : option nat :=
  match e with
  | ContentBlockStop i => Some i
  | _ => None
  end.

(** The indices of the tool blocks started, of the text blocks started
    and of the blocks stopped, in the order of the events. *)
Definition toolStarts (l : list SSEEvent) : list nat := omap toolStartIndex l.
Definition textStarts (l : list SSEEvent) : list nat := omap textStartIndex l.
Definition stops (l : list SSEEvent) : list nat := omap stopIndex l.


(** The finish reason that ends the loop: the first truthy finish reason
    of a first choice. *)
Fixpoint terminalFinishReason (chunks : list ChatCompletionChunk) : option string :=
  match chunks with
  | [] => None
  | chunk :: rest =>
      match chunk_choices chunk with
      | choice :: _ =>
          match chunk_finish_reason choice with
          | Some r => if truthy r then Some r else terminalFinishReason rest
          | None => terminalFinishReason rest
          end
      | [] => terminalFinishReason rest
      end
  end.




(** The state of the block of a tool-call delta before the delta is
    processed, if its tool-call index was seen before. *)
Definition previousToolState (st : StreamState) (toolDelta : ToolCallDelta)
    : option ToolState :=
  match openaiToolIdxToAnthropicBlockIdx st !! td_index toolDelta with
  | Some blockIdx => toolStates st !! blockIdx
  | None => None
  end.

Definition wasReady (st : StreamState) (toolDelta : ToolCallDelta) : bool :=
  from_option startReady false (previousToolState st toolDelta).

Definition previousBuffer (st : StreamState) (toolDelta : ToolCallDelta) : string :=
  from_option ts_arguments_buffer "" (previousToolState st toolDelta).

(** The arguments fragment of a tool-call delta: none when the property
    is absent or is the empty string. *)
Definition fragment (toolDelta : ToolCallDelta) : list string :=
  match td_arguments toolDelta with
  | Some arguments => if truthy arguments then [arguments] else []
  | None => []
  end.

(** A block is open: it is the text block, or a started tool block. *)
Definition opened (st : StreamState) (i : nat) : Prop :=
  textBlockAnthropicIdx st = Some i \/ i ∈ sentToolBlockStarts st.

(** What holds of the state between two steps of the loop. *)
Record Inv (st : StreamState) : Prop := mkInv {
  inv_text : forall t,
    textBlockAnthropicIdx st = Some t -> t < nextAnthropicBlockIdx st;
  inv_map : forall k v,
    openaiToolIdxToAnthropicBlockIdx st !! k = Some v ->
    v < nextAnthropicBlockIdx st
    /\ textBlockAnthropicIdx st <> Some v
    /\ is_Some (toolStates st !! v);
  inv_sent : forall i,
    i ∈ sentToolBlockStarts st ->
    exists k, openaiToolIdxToAnthropicBlockIdx st !! k = Some i;
  inv_nodup : NoDup (sentToolBlockStarts st);
  inv_open : forall i,
    opened st i -> openedTrace i (filter (about i) (written st));
  inv_unused : forall i,
    ~ opened st i -> filter (about i) (written st) = [];
  inv_tool_starts : toolStarts (written st) = sentToolBlockStarts st;
  inv_text_starts : textStarts (written st) = option_list (textBlockAnthropicIdx st);
  inv_no_stop : stops (written st) = [];
  inv_ready : forall v toolState,
    toolStates st !! v = Some toolState ->
    (v ∈ sentToolBlockStarts st <-> startReady toolState = true)
}.

(** *** Events appended to the response *)

Lemma filter_about_snoc i l e :
  filter (about i) (l ++ [e])
  = filter (about i) l ++ (if decide (about i e) then [e] else []).
Proof. rewrite filter_app. f_equal. Qed.

Lemma openedTrace_start i seed : openedTrace i [ContentBlockStart i seed].
Proof. by exists seed, []. Qed.

Lemma openedTrace_delta i l payload :
  openedTrace i l -> openedTrace i (l ++ [ContentBlockDelta i payload]).
Proof.
  intros (seed & payloads & ->). exists seed, (payloads ++ [payload]).
  by rewrite map_app.
Qed.

Lemma closedTrace_stop i l :
  openedTrace i l -> closedTrace i (l ++ [ContentBlockStop i]).
Proof. intros (seed & payloads & ->). by exists seed, payloads. Qed.

Lemma sent_below st i :
  Inv st -> i ∈ sentToolBlockStarts st ->
  i < nextAnthropicBlockIdx st /\ textBlockAnthropicIdx st <> Some i.
Proof.
  intros HI Hi. destruct (inv_sent st HI i Hi) as [k Hk].
  destruct (inv_map st HI k i Hk) as (? & ? & _). done.
Qed.

Lemma next_unused st : Inv st -> ~ opened st (nextAnthropicBlockIdx st).
Proof.
  intros HI [Ht | Hs].
  - apply (inv_text st HI) in Ht. lia.
  - apply (sent_below st) in Hs as [? _]; [lia | done].
Qed.

(** Fields the invariant does not read. *)
Lemma Inv_same st st' :
  nextAnthropicBlockIdx st' = nextAnthropicBlockIdx st ->
  textBlockAnthropicIdx st' = textBlockAnthropicIdx st ->
  openaiToolIdxToAnthropicBlockIdx st' = openaiToolIdxToAnthropicBlockIdx st ->
  toolStates st' = toolStates st ->
  sentToolBlockStarts st' = sentToolBlockStarts st ->
  written st' = written st ->
  Inv st -> Inv st'.
Proof.
  intros H1 H2 H3 H4 H5 H6 [].
  constructor; unfold opened in *; rewrite ?H1, ?H2, ?H3, ?H4, ?H5, ?H6; assumption.
Qed.

Lemma Inv_addOutputTokens n st : Inv st -> Inv (addOutputTokens n st).
Proof. by apply Inv_same. Qed.

Lemma Inv_logRecord r st : Inv st -> Inv (logRecord r st).
Proof. by apply Inv_same. Qed.

Lemma Inv_setFinalAnthropicStopReason r st :
  Inv st -> Inv (setFinalAnthropicStopReason r st).
Proof. by apply Inv_same. Qed.

(** A delta for an open block. *)
Lemma Inv_write_delta st i payload :
  Inv st -> opened st i -> Inv (writeSSE (ContentBlockDelta i payload) st).
Proof.
  intros HI Hop. destruct HI.
  constructor; cbn [writeSSE nextAnthropicBlockIdx textBlockAnthropicIdx
    openaiToolIdxToAnthropicBlockIdx toolStates sentToolBlockStarts written];
    try assumption.
  - intros j Hj. rewrite filter_about_snoc.
    change (opened (writeSSE (ContentBlockDelta i payload) st) j) with (opened st j) in Hj.
    destruct (decide (about j (ContentBlockDelta i payload))) as [Heq | Hne].
    + injection Heq as ->. by apply openedTrace_delta, inv_open0.
    + rewrite app_nil_r. by apply inv_open0.
  - intros j Hj. rewrite filter_about_snoc.
    change (opened (writeSSE (ContentBlockDelta i payload) st) j) with (opened st j) in Hj.
    destruct (decide (about j (ContentBlockDelta i payload))) as [Heq | Hne].
    + injection Heq as ->. done.
    + rewrite app_nil_r. by apply inv_unused0.
  - unfold toolStarts in *. rewrite omap_app. cbn. by rewrite app_nil_r.
  - unfold textStarts in *. rewrite omap_app. cbn. by rewrite app_nil_r.
  - unfold stops in *. rewrite omap_app. cbn. by rewrite app_nil_r.
Qed.

Section WithCollaborators.

Variable countTokens : string -> nat.
Variable JSON_parse : string -> option json.
Variable requestId : string.

(** The claims of the specification are about streams that are processed
    to completion: in this section the handler is given an encoder that
    returns on every text. What an encoder that throws changes is the
    subject of [StreamingExtra]. *)
Abbreviation encoder := (neverThrows countTokens).
Abbreviation assignToolBlock := (assignToolBlock requestId).
Abbreviation handleToolCallDelta := (handleToolCallDelta encoder requestId).
Abbreviation handleToolCallDeltas := (handleToolCallDeltas encoder requestId).
Abbreviation consume := (consume encoder requestId).
Abbreviation stopToolBlock := (stopToolBlock JSON_parse).
Abbreviation finalize := (finalize JSON_parse).
Abbreviation initialState := (initialState requestId).
Abbreviation handleStream :=
  (handleAnthropicStreamingResponseFromOpenAIStream encoder JSON_parse requestId).

(** *** The steps for an encoder that returns *)

(** What a content delta comes to. *)
Definition contentStep (content : option string) (st : StreamState) : StreamState :=
  match content with
  | Some text =>
      if truthy text then
        let st := addOutputTokens (countTokens text) st in
        let '(idx, st) :=
          match textBlockAnthropicIdx st with
          | None =>
              let idx := nextAnthropicBlockIdx st in
              (idx,
               writeSSE (ContentBlockStart idx SeedText)
                 (mkState (idx + 1) (Some idx)
                    (openaiToolIdxToAnthropicBlockIdx st) (toolStates st)
                    (sentToolBlockStarts st) (outputTokenCount st)
                    (finalAnthropicStopReason st) (written st) (logged st)))
          | Some idx => (idx, st)
          end in
        writeSSE (ContentBlockDelta idx (TextDelta text)) st
      else st
  | None => st
  end.

(** What the accumulation of a tool-call delta comes to. *)
Definition accumulated (blockIdx : nat) (toolDelta : ToolCallDelta) (toolState : ToolState)
    (st : StreamState) : StreamState :=
  let st :=
    if truthy_opt (td_id toolDelta) && startsWith (ts_id toolState) "tool_ph_"
    then logRecord (mkLog DEBUG TOOL_ID_UPDATED) st else st in
  let st :=
    match td_arguments toolDelta with
    | Some arguments =>
        if truthy arguments then addOutputTokens (countTokens arguments) st else st
    | None => st
    end in
  setToolState blockIdx (updatedToolState toolDelta toolState) st.

Lemma handleContentDelta_returns content st :
  Streaming.handleContentDelta encoder content st = Normal (contentStep content st).
Proof.
  unfold Streaming.handleContentDelta, contentStep, neverThrows.
  destruct content as [text |]; [| reflexivity].
  destruct (truthy text); [| reflexivity]. cbv zeta.
  by destruct (textBlockAnthropicIdx (addOutputTokens (countTokens text) st)).
Qed.

Lemma accumulate_returns blockIdx toolDelta toolState st :
  Streaming.accumulate encoder blockIdx toolDelta toolState st
  = Normal (accumulated blockIdx toolDelta toolState st).
Proof.
  unfold Streaming.accumulate, accumulated, neverThrows.
  destruct (td_arguments toolDelta) as [a |]; [| reflexivity]. by destruct (truthy a).
Qed.

Lemma handleToolCallDelta_eq toolDelta st :
  handleToolCallDelta toolDelta st
  = let st := assignToolBlock toolDelta st in
    match openaiToolIdxToAnthropicBlockIdx st !! td_index toolDelta with
    | Some currentAnthropicToolBlockIdx =>
        match toolStates st !! currentAnthropicToolBlockIdx with
        | Some toolState =>
            let st := accumulated currentAnthropicToolBlockIdx toolDelta toolState st in
            let toolState := updatedToolState toolDelta toolState in
            let st := sendToolBlockStart currentAnthropicToolBlockIdx toolState st in
            Normal (sendToolArgumentsDelta currentAnthropicToolBlockIdx toolDelta st)
        | None => Thrown st "Cannot read properties of undefined (reading 'id')"
        end
    | None => Thrown st "Cannot read properties of undefined (reading 'id')"
    end.
Proof.
  unfold Streaming.handleToolCallDelta. cbv zeta.
  destruct (openaiToolIdxToAnthropicBlockIdx _ !! _) as [blockIdx |]; [| reflexivity].
  destruct (toolStates _ !! blockIdx) as [toolState |]; [| reflexivity].
  by rewrite accumulate_returns.
Qed.

Lemma consume_nil st : consume [] st = Normal st.
Proof. reflexivity. Qed.

Lemma consume_StreamError message rest st :
  consume (StreamError message :: rest) st = Thrown st message.
Proof. reflexivity. Qed.

Lemma consume_Chunk chunk rest st :
  consume (Chunk chunk :: rest) st
  = match chunk_choices chunk with
    | [] => consume rest st
    | choice :: _ =>
        match
          handleToolCallDeltas (default [] (delta_tool_calls (delta choice)))
            (contentStep (delta_content (delta choice)) st)
        with
        | Normal st =>
            match chunk_finish_reason choice with
            | Some openaiFinishReason =>
                if truthy openaiFinishReason then
                  Normal (setFinalAnthropicStopReason
                            (stopReasonOfFinish openaiFinishReason) st)
                else consume rest st
            | None => consume rest st
            end
        | Thrown st message => Thrown st message
        end
    end.
Proof.
  cbn [Streaming.consume]. destruct (chunk_choices chunk) as [| choice _]; [reflexivity |].
  by rewrite handleContentDelta_returns.
Qed.

(** *** The steps keep the invariant *)

Lemma Inv_handleContentDelta content st : Inv st -> Inv (contentStep content st).
Proof.
  intros HI. unfold contentStep.
  destruct content as [text |]; [| exact HI].
  destruct (truthy text); [| exact HI].
  apply (Inv_addOutputTokens (countTokens text)) in HI.
  revert HI. generalize (addOutputTokens (countTokens text) st). clear st.
  intros st1 HI.
  destruct (textBlockAnthropicIdx st1) as [idx |] eqn:Htext.
  { apply Inv_write_delta; [exact HI | by left]. }
  apply Inv_write_delta; [| by left].
  pose proof (next_unused st1 HI) as Hfresh.
  destruct HI.
  constructor; cbn [writeSSE nextAnthropicBlockIdx textBlockAnthropicIdx
    openaiToolIdxToAnthropicBlockIdx toolStates sentToolBlockStarts written].
  - intros t [= <-]. lia.
  - intros k v Hk. destruct (inv_map0 k v Hk) as (Hlt & _ & Hs).
    split_and!; [lia | | exact Hs]. intros [= Heq]. lia.
  - exact inv_sent0.
  - exact inv_nodup0.
  - intros j Hj. rewrite filter_about_snoc.
    destruct (decide (about j _)) as [Heq | Hne].
    + injection Heq as <-. rewrite (inv_unused0 _ Hfresh). apply openedTrace_start.
    + rewrite app_nil_r. apply inv_open0.
      destruct Hj as [[= <-] | Hj]; [by destruct Hne | by right].
  - intros j Hj. rewrite filter_about_snoc.
    destruct (decide (about j _)) as [Heq | Hne].
    + injection Heq as <-. destruct Hj. by left.
    + rewrite app_nil_r. apply inv_unused0. intros [Ht | Hs]; [congruence |].
      apply Hj. by right.
  - unfold toolStarts in *. rewrite omap_app. cbn. by rewrite app_nil_r.
  - unfold textStarts in *. rewrite omap_app, inv_text_starts0, Htext. reflexivity.
  - unfold stops in *. rewrite omap_app. cbn. by rewrite app_nil_r.
  - exact inv_ready0.
Qed.

Lemma startReady_fresh id : startReady (mkToolState id "" "") = false.
Proof. unfold startReady. cbn. by rewrite andb_false_r. Qed.

(** After the first [if], the tool-call index has a block and the block
    has a state. *)
Lemma Inv_assignToolBlock toolDelta st :
  Inv st ->
  let st' := assignToolBlock toolDelta st in
  Inv st'
  /\ exists blockIdx toolState,
       openaiToolIdxToAnthropicBlockIdx st' !! td_index toolDelta = Some blockIdx
       /\ toolStates st' !! blockIdx = Some toolState.
Proof.
  intros HI. cbv zeta. unfold Streaming.assignToolBlock.
  destruct (openaiToolIdxToAnthropicBlockIdx st !! td_index toolDelta) as [v |] eqn:Hk.
  { split; [exact HI |].
    destruct (inv_map st HI _ _ Hk) as (_ & _ & [toolState Hs]). by exists v, toolState. }
  set (idx := nextAnthropicBlockIdx st).
  set (fresh := mkToolState _ "" "").
  set (st1 := mkState _ _ _ _ _ _ _ _ _).
  assert (H1 : Inv st1).
  { pose proof (next_unused st HI) as Hfresh. destruct HI.
    constructor; unfold st1, opened in *; cbn [nextAnthropicBlockIdx textBlockAnthropicIdx
      openaiToolIdxToAnthropicBlockIdx toolStates sentToolBlockStarts written];
      try assumption.
    - intros t Ht. apply inv_text0 in Ht. lia.
    - intros k v. rewrite lookup_insert. case_decide as Hkv.
      + intros [= <-]. split_and!; [lia | | by rewrite lookup_insert_eq].
        intros Ht. apply Hfresh. by left.
      + intros Hv. destruct (inv_map0 k v Hv) as (Hlt & Hne & Hs).
        split_and!; [lia | done |]. rewrite lookup_insert_is_Some'. by right.
    - intros i Hi. destruct (inv_sent0 i Hi) as [k Hki]. exists k.
      rewrite lookup_insert_ne; [done |]. intros <-. congruence.
    - intros v toolState. rewrite lookup_insert. case_decide as Hv.
      + intros [= <-]. subst v. unfold fresh. rewrite startReady_fresh. split; [| done].
        intros Hs. destruct Hfresh. by right.
      + apply inv_ready0. }
  assert (H2 : openaiToolIdxToAnthropicBlockIdx st1 !! td_index toolDelta = Some idx
               /\ toolStates st1 !! idx = Some fresh).
  { unfold st1. cbn. by rewrite !lookup_insert_eq. }
  destruct (truthy_opt (td_id toolDelta)).
  - split; [exact H1 |]. by exists idx, fresh.
  - split; [by apply Inv_logRecord |]. by exists idx, fresh.
Qed.

(** Once a block can start it can start for good: the id is no longer
    replaced, and a name is replaced by a name. *)
Lemma startReady_updated toolDelta toolState :
  startReady toolState = true -> startReady (updatedToolState toolDelta toolState) = true.
Proof.
  unfold startReady. intros H.
  apply andb_true_iff in H as [H Hname].
  apply andb_true_iff in H as [Hid Hph]. apply negb_true_iff in Hph.
  assert (Hid' : ts_id (updatedToolState toolDelta toolState) = ts_id toolState).
  { unfold updatedToolState, updatedId. cbn [ts_id]. rewrite Hph.
    destruct (td_id toolDelta) as [id |]; [| done]. by rewrite andb_false_r. }
  assert (Hname' : truthy (ts_name (updatedToolState toolDelta toolState)) = true).
  { unfold updatedToolState, updatedName. cbn [ts_name].
    destruct (td_function toolDelta) as [f |]; [| exact Hname].
    unfold js_or. destruct (fn_name f) as [n |]; [| exact Hname].
    destruct (truthy n) eqn:Hn; [exact Hn | exact Hname]. }
  by rewrite Hid', Hid, Hph, Hname'.
Qed.

(** The assignments to the tool state followed by the start of the
    block. *)
Lemma Inv_sendToolBlockStart toolDelta k blockIdx toolState st :
  Inv st ->
  openaiToolIdxToAnthropicBlockIdx st !! k = Some blockIdx ->
  toolStates st !! blockIdx = Some toolState ->
  Inv (sendToolBlockStart blockIdx (updatedToolState toolDelta toolState)
         (accumulated blockIdx toolDelta toolState st)).
Proof.
  intros HI Hk Hs.
  set (toolState' := updatedToolState toolDelta toolState).
  assert (Hacc : exists st1,
    accumulated blockIdx toolDelta toolState st = st1
    /\ nextAnthropicBlockIdx st1 = nextAnthropicBlockIdx st
    /\ textBlockAnthropicIdx st1 = textBlockAnthropicIdx st
    /\ openaiToolIdxToAnthropicBlockIdx st1 = openaiToolIdxToAnthropicBlockIdx st
    /\ toolStates st1 = <[blockIdx := toolState']> (toolStates st)
    /\ sentToolBlockStarts st1 = sentToolBlockStarts st
    /\ written st1 = written st).
  { eexists. split; [reflexivity |]. unfold accumulated.
    destruct (_ && _); destruct (td_arguments toolDelta) as [a |];
      try destruct (truthy a); done. }
  destruct Hacc as (st1 & -> & E1 & E2 & E3 & E4 & E5 & E6).
  destruct (inv_map st HI k blockIdx Hk) as (Hlt & Hnt & _).
  pose proof (inv_ready st HI blockIdx toolState Hs) as Hready.
  unfold sendToolBlockStart, addSentToolBlockStart.
  destruct (bool_decide (blockIdx ∈ sentToolBlockStarts st1)) eqn:Hin; cbn [negb andb].
  { (* already started *)
    apply bool_decide_eq_true_1 in Hin. rewrite E5 in Hin. destruct HI.
    constructor; unfold opened in *; rewrite ?E1, ?E2, ?E3, ?E4, ?E5, ?E6; try assumption.
    - intros k' v Hv. destruct (inv_map0 k' v Hv) as (? & ? & ?).
      split_and!; [done | done |]. rewrite lookup_insert_is_Some'. by right.
    - intros v ts. rewrite lookup_insert. case_decide as Hv.
      + intros [= <-]. subst v. split; [| done]. intros _.
        apply startReady_updated, Hready, Hin.
      + apply inv_ready0. }
  apply bool_decide_eq_false_1 in Hin. rewrite E5 in Hin.
  destruct (startReady toolState') eqn:Hnow.
  - (* the block starts now *)
    cbn [writeSSE sentToolBlockStarts]. rewrite E5.
    rewrite (bool_decide_eq_false_2 _ Hin).
    assert (Hfresh : ~ opened st blockIdx) by (intros [Ht | Hs']; done).
    destruct HI.
    constructor; unfold opened in *; cbn [writeSSE nextAnthropicBlockIdx
      textBlockAnthropicIdx openaiToolIdxToAnthropicBlockIdx toolStates
      sentToolBlockStarts written];
      rewrite ?E1, ?E2, ?E3, ?E4, ?E5, ?E6; try assumption.
    + intros k' v Hv. destruct (inv_map0 k' v Hv) as (? & ? & ?).
      split_and!; [done | done |]. rewrite lookup_insert_is_Some'. by right.
    + intros i Hi. apply elem_of_app in Hi as [Hi | Hi]; [by apply inv_sent0 |].
      apply list_elem_of_singleton in Hi as ->. by exists k.
    + apply NoDup_app. split_and!; [done | | apply NoDup_singleton].
      intros x Hx Hx'. apply list_elem_of_singleton in Hx' as ->. done.
    + intros j Hj. rewrite filter_about_snoc.
      destruct (decide (about j _)) as [Heq | Hne].
      * injection Heq as <-. rewrite (inv_unused0 _ Hfresh). apply openedTrace_start.
      * rewrite app_nil_r. apply inv_open0.
        destruct Hj as [Hj | Hj]; [by left |].
        apply elem_of_app in Hj as [Hj | Hj]; [by right |].
        apply list_elem_of_singleton in Hj as ->. by destruct Hne.
    + intros j Hj. rewrite filter_about_snoc.
      destruct (decide (about j _)) as [Heq | Hne].
      * injection Heq as <-. destruct Hj. right. apply elem_of_app. right.
        by apply list_elem_of_singleton.
      * rewrite app_nil_r. apply inv_unused0. intros [Ht | Hs']; apply Hj; [by left |].
        right. apply elem_of_app. by left.
    + unfold toolStarts in *. rewrite omap_app, inv_tool_starts0. reflexivity.
    + unfold textStarts in *. rewrite omap_app. cbn. by rewrite app_nil_r.
    + unfold stops in *. rewrite omap_app. cbn. by rewrite app_nil_r.
    + intros v ts. rewrite lookup_insert. case_decide as Hv.
      * intros [= <-]. subst v. split; [done |]. intros _.
        apply elem_of_app. right. by apply list_elem_of_singleton.
      * intros Hts. rewrite elem_of_app, list_elem_of_singleton.
        rewrite <- (inv_ready0 v ts Hts). split; [| by left].
        intros [? | ->]; done.
  - (* the block cannot start yet *)
    destruct HI.
    constructor; unfold opened in *; rewrite ?E1, ?E2, ?E3, ?E4, ?E5, ?E6; try assumption.
    + intros k' v Hv. destruct (inv_map0 k' v Hv) as (? & ? & ?).
      split_and!; [done | done |]. rewrite lookup_insert_is_Some'. by right.
    + intros v ts. rewrite lookup_insert. case_decide as Hv.
      * intros [= <-]. subst v. rewrite Hnow. split; [done | done].
      * apply inv_ready0.
Qed.

Lemma Inv_sendToolArgumentsDelta blockIdx toolDelta st :
  Inv st -> Inv (sendToolArgumentsDelta blockIdx toolDelta st).
Proof.
  intros HI. unfold sendToolArgumentsDelta.
  destruct (td_arguments toolDelta) as [a |]; [| exact HI].
  destruct (truthy a); [| exact HI]. cbn [andb].
  destruct (bool_decide (blockIdx ∈ sentToolBlockStarts st)) eqn:Hin; [| exact HI].
  apply bool_decide_eq_true_1 in Hin. apply Inv_write_delta; [exact HI | by right].
Qed.

(** Under the invariant no step of the loop throws. *)
Lemma Inv_handleToolCallDelta toolDelta st :
  Inv st -> exists st', handleToolCallDelta toolDelta st = Normal st' /\ Inv st'.
Proof.
  intros HI. rewrite handleToolCallDelta_eq; cbv zeta.
  destruct (Inv_assignToolBlock toolDelta st HI) as (HI1 & blockIdx & toolState & Hk & Hs).
  cbv zeta in HI1, Hk, Hs. rewrite Hk, Hs. eexists. split; [reflexivity |].
  apply Inv_sendToolArgumentsDelta. by eapply Inv_sendToolBlockStart.
Qed.

Lemma Inv_handleToolCallDeltas toolDeltas st :
  Inv st -> exists st', handleToolCallDeltas toolDeltas st = Normal st' /\ Inv st'.
Proof.
  revert st. induction toolDeltas as [| toolDelta rest IH]; intros st HI.
  { by exists st. }
  cbn [Streaming.handleToolCallDeltas].
  destruct (Inv_handleToolCallDelta toolDelta st HI) as (st1 & -> & HI1).
  by apply IH.
Qed.

Lemma Inv_consume (chunks : list ChatCompletionChunk) st :
  Inv st -> exists st', consume (map Chunk chunks) st = Normal st' /\ Inv st'.
Proof.
  revert st. induction chunks as [| chunk rest IH]; intros st HI.
  { by exists st. }
  cbn [map]; rewrite ?consume_nil, ?consume_Chunk, ?consume_StreamError.
  destruct (chunk_choices chunk) as [| choice _]; [by apply IH |].
  pose proof (Inv_handleContentDelta (delta_content (delta choice)) st HI) as HI1.
  destruct (Inv_handleToolCallDeltas (default [] (delta_tool_calls (delta choice))) _ HI1)
    as (st2 & -> & HI2).
  destruct (chunk_finish_reason choice) as [r |]; [| by apply IH].
  destruct (truthy r); [| by apply IH].
  eexists. split; [reflexivity |]. by apply Inv_setFinalAnthropicStopReason.
Qed.

Lemma Inv_initialState model tokens uuid8 : Inv (initialState model tokens uuid8).
Proof.
  constructor; unfold opened; cbn; try done.
  - intros i Hi. by apply elem_of_nil in Hi.
  - apply NoDup_nil_2.
  - intros i [? | Hi]; [done |]. by apply elem_of_nil in Hi.
Qed.

(** *** What the loop writes *)

Definition isBlockEvent (e : SSEEvent) : Prop := is_Some (eventIndex e).

(** [st'] is [st] after more block events were written. *)
Definition extends (st st' : StreamState) : Prop :=
  exists events, written st' = written st ++ events /\ Forall isBlockEvent events.

Lemma extends_refl st st' : written st' = written st -> extends st st'.
Proof. intros H. exists []. by rewrite app_nil_r. Qed.

Lemma extends_trans st1 st2 st3 : extends st1 st2 -> extends st2 st3 -> extends st1 st3.
Proof.
  intros (e1 & H1 & F1) (e2 & H2 & F2). exists (e1 ++ e2).
  rewrite H2, H1, <- app_assoc. split; [done | by apply Forall_app].
Qed.

Lemma extends_write e st st' : isBlockEvent e -> extends st st' -> extends st (writeSSE e st').
Proof.
  intros He H. eapply extends_trans; [exact H |].
  exists [e]. split; [done | by constructor].
Qed.

Lemma extends_handleContentDelta content st : extends st (contentStep content st).
Proof.
  unfold contentStep.
  destruct content as [text |]; [| by apply extends_refl].
  destruct (truthy text); [| by apply extends_refl].
  destruct (textBlockAnthropicIdx _).
  - apply extends_write; [by eexists | by apply extends_refl].
  - apply extends_write; [by eexists |]. apply extends_write; [by eexists | by apply extends_refl].
Qed.

Lemma written_assignToolBlock toolDelta st :
  written (assignToolBlock toolDelta st) = written st.
Proof.
  unfold Streaming.assignToolBlock.
  destruct (openaiToolIdxToAnthropicBlockIdx st !! td_index toolDelta); [done |].
  by destruct (truthy_opt (td_id toolDelta)).
Qed.

Lemma written_accumulate blockIdx toolDelta toolState st :
  written (accumulated blockIdx toolDelta toolState st) = written st.
Proof.
  unfold accumulated.
  destruct (_ && _); destruct (td_arguments toolDelta) as [a |];
    try destruct (truthy a); done.
Qed.

Lemma extends_handleToolCallDelta toolDelta st st' :
  handleToolCallDelta toolDelta st = Normal st' -> extends st st'.
Proof.
  rewrite handleToolCallDelta_eq; cbv zeta.
  destruct (openaiToolIdxToAnthropicBlockIdx _ !! _) as [blockIdx |]; [| done].
  destruct (toolStates _ !! blockIdx) as [toolState |]; [| done].
  intros [= <-].
  assert (H1 : extends st (accumulated blockIdx toolDelta toolState
                             (assignToolBlock toolDelta st))).
  { apply extends_refl. by rewrite written_accumulate, written_assignToolBlock. }
  eapply extends_trans; [exact H1 |].
  unfold sendToolArgumentsDelta, sendToolBlockStart.
  destruct (_ && startReady _).
  - destruct (td_arguments toolDelta) as [a |]; [destruct (_ && _) |].
    + apply extends_write; [by eexists |]. exists [ContentBlockStart blockIdx
        (SeedToolUse (ts_id (updatedToolState toolDelta toolState))
           (ts_name (updatedToolState toolDelta toolState)))].
      split; [done | repeat constructor; by eexists].
    + eexists [_]. split; [done | repeat constructor; by eexists].
    + eexists [_]. split; [done | repeat constructor; by eexists].
  - destruct (td_arguments toolDelta) as [a |]; [destruct (_ && _) |].
    + apply extends_write; [by eexists | by apply extends_refl].
    + by apply extends_refl.
    + by apply extends_refl.
Qed.

Lemma extends_handleToolCallDeltas toolDeltas st st' :
  handleToolCallDeltas toolDeltas st = Normal st' -> extends st st'.
Proof.
  revert st. induction toolDeltas as [| toolDelta rest IH]; intros st;
    cbn [Streaming.handleToolCallDeltas].
  { intros [= <-]. by apply extends_refl. }
  destruct (handleToolCallDelta toolDelta st) as [st1 | st1 m] eqn:H1; [| done].
  intros H2. eapply extends_trans; [by eapply extends_handleToolCallDelta | by apply IH].
Qed.

Lemma extends_consume stream st st' : consume stream st = Normal st' -> extends st st'.
Proof.
  revert st. induction stream as [| [chunk | m] rest IH]; intros st;
    rewrite ?consume_nil, ?consume_Chunk, ?consume_StreamError; [| | done].
  { intros [= <-]. by apply extends_refl. }
  destruct (chunk_choices chunk) as [| choice _]; [by apply IH |].
  destruct (handleToolCallDeltas _ _) as [st2 | st2 m] eqn:H2; [| done].
  assert (H : extends st st2).
  { eapply extends_trans; [apply extends_handleContentDelta |].
    by eapply extends_handleToolCallDeltas. }
  destruct (chunk_finish_reason choice) as [r |].
  - destruct (truthy r).
    + intros [= <-]. eapply extends_trans; [exact H | by apply extends_refl].
    + intros H3. eapply extends_trans; [exact H | by apply IH].
  - intros H3. eapply extends_trans; [exact H | by apply IH].
Qed.

(** *** Finalization *)

Lemma stopToolBlocks_fields blocks st :
  let st' := fold_left stopToolBlock blocks st in
  written st' = written st ++ map ContentBlockStop blocks
  /\ outputTokenCount st' = outputTokenCount st
  /\ finalAnthropicStopReason st' = finalAnthropicStopReason st.
Proof.
  cbv zeta. revert st. induction blocks as [| b blocks IH]; intros st; cbn [fold_left map].
  { by rewrite app_nil_r. }
  destruct (IH (stopToolBlock st b)) as (-> & -> & ->).
  unfold Streaming.stopToolBlock.
  destruct (toolStates st !! b) as [toolState |]; [destruct (JSON_parse _) |];
    cbn; by rewrite <- app_assoc.
Qed.

Lemma written_finalize st :
  written (finalize st)
  = written st
    ++ map ContentBlockStop (option_list (textBlockAnthropicIdx st) ++ sentToolBlockStarts st)
    ++ [MessageDelta (default end_turn (finalAnthropicStopReason st)) (outputTokenCount st);
        MessageStop].
Proof.
  unfold Streaming.finalize.
  set (st1 := match textBlockAnthropicIdx st with Some _ => _ | None => _ end).
  assert (H1 : written st1 = written st ++ map ContentBlockStop
                                (option_list (textBlockAnthropicIdx st))
               /\ sentToolBlockStarts st1 = sentToolBlockStarts st
               /\ outputTokenCount st1 = outputTokenCount st
               /\ finalAnthropicStopReason st1 = finalAnthropicStopReason st).
  { unfold st1. destruct (textBlockAnthropicIdx st); cbn; by rewrite ?app_nil_r. }
  destruct H1 as (Hw & Hs & Ht & Hf). rewrite Hs.
  destruct (stopToolBlocks_fields (sentToolBlockStarts st) st1) as (Hw2 & Ht2 & Hf2).
  cbv zeta in Hw2, Ht2, Hf2. cbn [writeSSE written setFinalAnthropicStopReason
    outputTokenCount].
  rewrite Hw2, Ht2, Hf2, Hw, Ht, Hf, map_app, <- !app_assoc. reflexivity.
Qed.

(** The events of a stream that is processed to its end: [message_start]
    and [ping], the block events of the loop, the stops, the final two
    events. [st] is the state at the end of the loop. *)
Lemma stream_events (chunks : list ChatCompletionChunk) model tokens uuid8 :
  exists st body,
    consume (map Chunk chunks) (initialState model tokens uuid8) = Normal st
    /\ Inv st
    /\ written st = written (initialState model tokens uuid8) ++ body
    /\ Forall isBlockEvent body
    /\ written (handleStream (map Chunk chunks) model tokens uuid8)
       = written st
         ++ map ContentBlockStop
              (option_list (textBlockAnthropicIdx st) ++ sentToolBlockStarts st)
         ++ [MessageDelta (default end_turn (finalAnthropicStopReason st))
               (outputTokenCount st);
             MessageStop].
Proof.
  destruct (Inv_consume chunks _ (Inv_initialState model tokens uuid8)) as (st & Hc & HI).
  destruct (extends_consume _ _ _ Hc) as (body & Hb & Fb).
  exists st, body. split_and!; try done.
  unfold handleAnthropicStreamingResponseFromOpenAIStream. rewrite Hc.
  cbn [logRecord written]. apply written_finalize.
Qed.

Lemma filter_about_stops i blocks :
  NoDup blocks ->
  filter (about i) (map ContentBlockStop blocks)
  = if decide (i ∈ blocks) then [ContentBlockStop i] else [].
Proof.
  induction 1 as [| b blocks Hb _ IH]; [done |].
  cbn [map]. rewrite filter_cons, IH.
  destruct (decide (about i (ContentBlockStop b))) as [Heq | Hne].
  - injection Heq as ->.
    rewrite (decide_False (P := i ∈ blocks)) by done.
    by rewrite (decide_True (P := i ∈ i :: blocks)) by by left.
  - assert (Hib : i <> b) by (intros ->; by destruct Hne).
    destruct (decide (i ∈ blocks)) as [Hi | Hi].
    + by rewrite (decide_True (P := i ∈ b :: blocks)) by by right.
    + rewrite (decide_False (P := i ∈ b :: blocks)); [done |].
      intros Hin. apply elem_of_cons in Hin as [-> | ?]; done.
Qed.

Lemma filter_about_none i l :
  Forall (fun e => eventIndex e = None) l -> filter (about i) l = [].
Proof.
  induction 1 as [| e l He _ IH]; [done |].
  rewrite filter_cons, IH. rewrite decide_False; [done |].
  unfold about. by rewrite He.
Qed.

Lemma opened_stops st i :
  Inv st ->
  NoDup (option_list (textBlockAnthropicIdx st) ++ sentToolBlockStarts st)
  /\ (opened st i <-> i ∈ option_list (textBlockAnthropicIdx st) ++ sentToolBlockStarts st).
Proof.
  intros HI. split.
  - apply NoDup_app. split_and!; [| | apply (inv_nodup st HI)].
    + destruct (textBlockAnthropicIdx st); cbn; [apply NoDup_singleton | apply NoDup_nil_2].
    + intros x Hx Hs. apply (sent_below st x HI) in Hs as [_ Hne].
      destruct (textBlockAnthropicIdx st); cbn in Hx; [| by apply elem_of_nil in Hx].
      apply list_elem_of_singleton in Hx as ->. done.
  - unfold opened. rewrite elem_of_app.
    destruct (textBlockAnthropicIdx st) as [t |]; cbn.
    + rewrite list_elem_of_singleton. split; (intros [? | ?]; [left | by right]); congruence.
    + rewrite elem_of_nil. split; (intros [? | ?]; [done | by right]).
Qed.

(** *** The stop reason *)






(** *** The states the translator goes through *)

Inductive Reachable : StreamState -> Prop :=
| reach_initial model tokens uuid8 :
    Reachable (initialState model tokens uuid8)
| reach_content content st st' :
    Reachable st ->
    Streaming.handleContentDelta encoder content st = Normal st' -> Reachable st'
| reach_tool toolDelta st st' :
    Reachable st -> handleToolCallDelta toolDelta st = Normal st' -> Reachable st'
| reach_finish r st :
    Reachable st -> Reachable (setFinalAnthropicStopReason r st).

Lemma reach_contentStep content st : Reachable st -> Reachable (contentStep content st).
Proof. intros HR. eapply reach_content; [exact HR | apply handleContentDelta_returns]. Qed.

Lemma Reachable_Inv st : Reachable st -> Inv st.
Proof.
  induction 1 as [model tokens uuid8 | content st st' _ IH Hstep
                  | toolDelta st st' _ IH Hstep | r st _ IH].
  - apply Inv_initialState.
  - rewrite handleContentDelta_returns in Hstep. injection Hstep as <-.
    by apply Inv_handleContentDelta.
  - destruct (Inv_handleToolCallDelta toolDelta st IH) as (st1 & Hst1 & HI).
    rewrite Hstep in Hst1. by injection Hst1 as ->.
  - by apply Inv_setFinalAnthropicStopReason.
Qed.

Lemma Reachable_handleToolCallDeltas toolDeltas st st' :
  Reachable st -> handleToolCallDeltas toolDeltas st = Normal st' -> Reachable st'.
Proof.
  revert st. induction toolDeltas as [| toolDelta rest IH]; intros st HR;
    cbn [Streaming.handleToolCallDeltas].
  { by intros [= <-]. }
  destruct (handleToolCallDelta toolDelta st) as [st1 | st1 m] eqn:H1; [| done].
  apply IH. by eapply reach_tool.
Qed.

(** Every state of the loop over a stream is reachable. *)
Lemma Reachable_consume stream st st' :
  Reachable st -> consume stream st = Normal st' -> Reachable st'.
Proof.
  revert st. induction stream as [| [chunk | m] rest IH]; intros st HR;
    rewrite ?consume_nil, ?consume_Chunk, ?consume_StreamError; [| | done].
  { by intros [= <-]. }
  destruct (chunk_choices chunk) as [| choice _]; [by apply IH |].
  destruct (handleToolCallDeltas _ _) as [st2 | st2 m] eqn:H2; [| done].
  assert (HR2 : Reachable st2).
  { eapply Reachable_handleToolCallDeltas; [| exact H2]. by apply reach_contentStep. }
  destruct (chunk_finish_reason choice) as [r |]; [| by apply IH].
  destruct (truthy r); [| by apply IH].
  intros [= <-]. by apply reach_finish.
Qed.

(** *** One tool-call delta *)

(** After the first [if]: the block of the delta, and its state before
    the delta. *)
Lemma assignToolBlock_summary toolDelta st :
  Inv st ->
  let st1 := assignToolBlock toolDelta st in
  exists blockIdx toolState,
    openaiToolIdxToAnthropicBlockIdx st1 !! td_index toolDelta = Some blockIdx
    /\ toolStates st1 !! blockIdx = Some toolState
    /\ written st1 = written st
    /\ sentToolBlockStarts st1 = sentToolBlockStarts st
    /\ startReady toolState = wasReady st toolDelta
    /\ ts_arguments_buffer toolState = previousBuffer st toolDelta
    /\ bool_decide (blockIdx ∈ sentToolBlockStarts st) = wasReady st toolDelta.
Proof.
  intros HI. cbv zeta.
  unfold Streaming.assignToolBlock, wasReady, previousBuffer, previousToolState.
  destruct (openaiToolIdxToAnthropicBlockIdx st !! td_index toolDelta) as [v |] eqn:Hk.
  - destruct (inv_map st HI _ _ Hk) as (_ & _ & [toolState Hs]).
    exists v, toolState. rewrite Hs. cbn [from_option]. split_and!; try done.
    pose proof (inv_ready st HI v toolState Hs) as Hr.
    destruct (startReady toolState).
    + apply bool_decide_eq_true_2. by apply Hr.
    + apply bool_decide_eq_false_2. intros Hin. by apply Hr in Hin.
  - pose proof (next_unused st HI) as Hfresh.
    eexists (nextAnthropicBlockIdx st), _.
    split_and!.
    + destruct (truthy_opt (td_id toolDelta)); cbn; by rewrite lookup_insert_eq.
    + destruct (truthy_opt (td_id toolDelta)); cbn; by rewrite lookup_insert_eq.
    + by destruct (truthy_opt (td_id toolDelta)).
    + by destruct (truthy_opt (td_id toolDelta)).
    + apply startReady_fresh.
    + reflexivity.
    + apply bool_decide_eq_false_2. intros Hin. apply Hfresh. by right.
Qed.

Lemma updatedBuffer_fragment toolDelta toolState :
  ts_arguments_buffer (updatedToolState toolDelta toolState)
  = fold_left String.append (fragment toolDelta) (ts_arguments_buffer toolState).
Proof.
  unfold updatedToolState, updatedBuffer, fragment. cbn [ts_arguments_buffer].
  destruct (td_arguments toolDelta) as [a |]; [| done]. by destruct (truthy a).
Qed.

(** C2, as the code has it. In every state the translator reaches, a
    tool-call delta is processed without failure and, with the state of
    its block taken after the id, the name and the arguments fragment of
    this delta are accumulated: a non-empty fragment is appended to the
    buffer of the block; [ContentBlockStart] with the index, id and name
    of the block is written exactly when the block has a non-placeholder
    id and a non-empty name now and did not have them before this delta;
    a [ContentBlockDelta] with the fragment is written, after that start,
    exactly when the block has them now, that is when its start was
    written before this delta or is written for this delta; nothing else
    is written; and a block that had them keeps them. *)
Theorem tool_block_start_and_deltas (st : StreamState) (toolDelta : ToolCallDelta) :
  Reachable st ->
  exists blockIdx toolState st',
    handleToolCallDelta toolDelta st = Normal st'
    /\ openaiToolIdxToAnthropicBlockIdx st' !! td_index toolDelta = Some blockIdx
    /\ toolStates st' !! blockIdx = Some toolState
    /\ ts_arguments_buffer toolState
       = fold_left String.append (fragment toolDelta) (previousBuffer st toolDelta)
    /\ written st'
       = written st
         ++ (if startReady toolState && negb (wasReady st toolDelta)
             then [ContentBlockStart blockIdx
                     (SeedToolUse (ts_id toolState) (ts_name toolState))]
             else [])
         ++ (if startReady toolState
             then map (fun arguments =>
                         ContentBlockDelta blockIdx (InputJsonDelta arguments))
                    (fragment toolDelta)
             else [])
    /\ implb (wasReady st toolDelta) (startReady toolState) = true.
Proof.
  intros HR. apply Reachable_Inv in HR.
  destruct (assignToolBlock_summary toolDelta st HR)
    as (blockIdx & old & Hk & Hs & Hw & Hsent & Hready & Hbuf & Hin).
  cbv zeta in Hk, Hs, Hw, Hsent.
  rewrite handleToolCallDelta_eq; cbv zeta. rewrite Hk, Hs.
  set (st1 := assignToolBlock toolDelta st) in *.
  set (toolState := updatedToolState toolDelta old).
  assert (Hacc : exists st2,
    accumulated blockIdx toolDelta old st1 = st2
    /\ openaiToolIdxToAnthropicBlockIdx st2 = openaiToolIdxToAnthropicBlockIdx st1
    /\ toolStates st2 = <[blockIdx := toolState]> (toolStates st1)
    /\ sentToolBlockStarts st2 = sentToolBlockStarts st1
    /\ written st2 = written st1).
  { eexists. split; [reflexivity |]. unfold accumulated.
    destruct (_ && _); destruct (td_arguments toolDelta) as [a |];
      try destruct (truthy a); done. }
  destruct Hacc as (st2 & -> & E1 & E2 & E3 & E4).
  rewrite Hsent in E3. rewrite Hw in E4.
  assert (Hmono : implb (wasReady st toolDelta) (startReady toolState) = true).
  { rewrite <- Hready. destruct (startReady old) eqn:Hold; [| done].
    cbn. by apply startReady_updated. }
  exists blockIdx, toolState. eexists. split; [reflexivity |].
  assert (Hfields : forall st3,
    openaiToolIdxToAnthropicBlockIdx
      (sendToolArgumentsDelta blockIdx toolDelta (sendToolBlockStart blockIdx toolState st3))
    = openaiToolIdxToAnthropicBlockIdx st3
    /\ toolStates
         (sendToolArgumentsDelta blockIdx toolDelta (sendToolBlockStart blockIdx toolState st3))
       = toolStates st3).
  { intros st3. unfold sendToolArgumentsDelta, sendToolBlockStart.
    repeat case_match; done. }
  destruct (Hfields st2) as [-> ->]. rewrite E1, E2, lookup_insert_eq.
  split_and!; [exact Hk | reflexivity | | | exact Hmono].
  { unfold toolState. by rewrite updatedBuffer_fragment, Hbuf. }
  unfold sendToolBlockStart, addSentToolBlockStart. rewrite E3, Hin.
  unfold sendToolArgumentsDelta, fragment.
  assert (Hdone : forall st3 events,
    written st3 = written st ++ events ->
    forall b,
    written match td_arguments toolDelta with
            | Some arguments =>
                if truthy arguments && b
                then writeSSE (ContentBlockDelta blockIdx (InputJsonDelta arguments)) st3
                else st3
            | None => st3
            end
    = written st ++ events
      ++ (if b
          then map (fun arguments => ContentBlockDelta blockIdx (InputJsonDelta arguments))
                 match td_arguments toolDelta with
                 | Some arguments => if truthy arguments then [arguments] else []
                 | None => []
                 end
          else [])).
  { intros st3 events H3 b.
    destruct (td_arguments toolDelta) as [a |];
      [destruct (truthy a) |]; destruct b; cbn; rewrite H3, ?app_nil_r, <- ?app_assoc;
      reflexivity. }
  destruct (wasReady st toolDelta) eqn:Hwas; cbn [negb andb].
  - cbn in Hmono. rewrite Hmono. cbn [andb]. rewrite E3, Hin.
    apply (Hdone st2 []). by rewrite app_nil_r.
  - apply bool_decide_eq_false_1 in Hin.
    destruct (startReady toolState); cbn [andb].
    + cbn [writeSSE sentToolBlockStarts written]. rewrite E3.
      rewrite (bool_decide_eq_false_2 _ Hin).
      rewrite (bool_decide_eq_true_2 (blockIdx ∈ sentToolBlockStarts st ++ [blockIdx])).
      2:{ apply elem_of_app. right. by apply list_elem_of_singleton. }
      apply (Hdone _ [_]). cbn. by rewrite E4.
    + rewrite E3, (bool_decide_eq_false_2 _ Hin).
      apply (Hdone st2 []). by rewrite app_nil_r.
Qed.

(** *** The theorems on whole streams *)

(** C1. For every finite sequence of fragments that is processed to its
    end, and every block index that some emitted event is about: the
    events about that index are, in the order of emission, exactly one
    [ContentBlockStart], then its [ContentBlockDelta]s, then exactly one
    [ContentBlockStop]; and the one [MessageStop] is the last event, so
    that stop comes before it. *)
Theorem block_lifecycle (chunks : list ChatCompletionChunk)
    (model : string) (tokens : nat) (uuid8 : string) (i : nat) (e : SSEEvent) :
  let events := written (handleStream (map Chunk chunks) model tokens uuid8) in
  In e events ->
  eventIndex e = Some i ->
  closedTrace i (filter (about i) events)
  /\ exists before, events = before ++ [MessageStop] /\ ~ In MessageStop before.
Proof.
  cbv zeta. intros Hin He.
  destruct (stream_events chunks model tokens uuid8) as (st & body & _ & HI & Hb & Fb & Hw).
  rewrite Hw in Hin |- *. clear Hw.
  destruct (opened_stops st i HI) as [Hnd Hop].
  set (closing := option_list (textBlockAnthropicIdx st) ++ sentToolBlockStarts st) in *.
  split.
  - rewrite !filter_app, (filter_about_stops i closing Hnd).
    rewrite (filter_about_none i [_; _]) by by repeat constructor.
    rewrite app_nil_r.
    destruct (decide (i ∈ closing)) as [Hi | Hi].
    + apply closedTrace_stop, (inv_open st HI), Hop, Hi.
    + exfalso.
      assert (Hnone : filter (about i) (written st) = []).
      { apply (inv_unused st HI). by rewrite Hop. }
      assert (Hany : e ∈ filter (about i)
                (written st ++ map ContentBlockStop closing ++ [MessageDelta
                   (default end_turn (finalAnthropicStopReason st)) (outputTokenCount st);
                   MessageStop])).
      { apply list_elem_of_filter. split; [exact He | by apply list_elem_of_In]. }
      rewrite !filter_app, Hnone, (filter_about_stops i closing Hnd) in Hany.
      rewrite decide_False in Hany by done.
      rewrite (filter_about_none i [_; _]) in Hany by by repeat constructor.
      by apply elem_of_nil in Hany.
  - eexists (written st ++ map ContentBlockStop closing ++ [_]).
    split; [by rewrite <- !app_assoc |].
    rewrite Hb. cbn [initialState Streaming.initialState written].
    rewrite !in_app_iff. cbn [In]. rewrite in_map_iff.
    intros [[[? | [? | []]] | Hbody] | [(x & ? & _) | [? | []]]]; try done.
    apply list_elem_of_In in Hbody.
    apply (proj1 (Forall_forall _ _) Fb) in Hbody. by destruct Hbody.
Qed.

(** C3, as the code has it. At the end of a stream that did not fail,
    the translator stops the text block first, if one was opened, and then
    the tool blocks that were started, in the order in which their
    [ContentBlockStart]s were emitted; no block is stopped earlier. *)
Theorem stops_in_start_order (chunks : list ChatCompletionChunk)
    (model : string) (tokens : nat) (uuid8 : string) :
  exists body stopReason outputTokens,
    written (handleStream (map Chunk chunks) model tokens uuid8)
    = written (initialState model tokens uuid8)
      ++ body
      ++ map ContentBlockStop (textStarts body ++ toolStarts body)
      ++ [MessageDelta stopReason outputTokens; MessageStop]
    /\ stops body = []
    /\ length (textStarts body) <= 1.
Proof.
  destruct (stream_events chunks model tokens uuid8) as (st & body & _ & HI & Hb & Fb & Hw).
  exists body, (default end_turn (finalAnthropicStopReason st)), (outputTokenCount st).
  pose proof (inv_tool_starts st HI) as Htool.
  pose proof (inv_text_starts st HI) as Htext.
  pose proof (inv_no_stop st HI) as Hstop.
  rewrite Hb in Htool, Htext, Hstop.
  unfold toolStarts, textStarts, stops in *.
  rewrite omap_app in Htool, Htext, Hstop.
  cbn [initialState Streaming.initialState written omap list_omap toolStartIndex
    textStartIndex stopIndex app] in Htool, Htext, Hstop.
  rewrite Hw, Hb, Htool, Htext, Hstop, <- !app_assoc.
  split_and!; [reflexivity | reflexivity |].
  destruct (textBlockAnthropicIdx st); cbn; lia.
Qed.


End WithCollaborators.

End StreamingSpec.

(** ** Scenarios

    The translators run on concrete inputs. The collaborators are
    replaced by simple stand-ins: the scenarios do not depend on what
    they return. *)

Module Scenarios.
Import Converter Streaming Errors MessagesSpec StreamingSpec ErrorsSpec.

(** A stand-in for [toLowerCase]: the letters A to Z are lowered, every
    other character is kept. *)
Definition lowerLetter (c : Ascii.ascii) : Ascii.ascii :=
  let n := Ascii.nat_of_ascii c in
  if (65 <=? n)%nat && (n <=? 90)%nat then Ascii.ascii_of_nat (n + 32) else c.

Fixpoint sampleToLowerCase (s : string) : string :=
  match s with
  | EmptyString => EmptyString
  | String c s' => String (lowerLetter c) (sampleToLowerCase s')
  end.

Example scenario_A :
  fst (selectTargetModel sampleToLowerCase "claude-3-opus-20240229" "big-x" "small-y")
  = "big-x".
Proof. reflexivity. Qed.

Example selectTargetModel_case_insensitive :
  selectTargetModel sampleToLowerCase "CLAUDE-3-OPUS-20240229" "big-model" "small-model"
  = ("big-model", [mkLog DEBUG MODEL_SELECTION]).
Proof. reflexivity. Qed.

Example selectTargetModel_unknown :
  selectTargetModel sampleToLowerCase "unknown-model" "big-model" "small-model"
  = ("small-model", [mkLog WARNING MODEL_SELECTION; mkLog DEBUG MODEL_SELECTION]).
Proof. reflexivity. Qed.

Definition sampleStringify (v : json) : option string :=
  match v with
  | JObject [] => Some "{}"
  | _ => Some "[json]"
  end.

Definition sampleStringifyParts (parts : list UserPart) : string :=
  "[" +:+ join ","
    (map (fun p =>
            match p with
            | PartText t => "text:" +:+ t
            | PartImageUrl u => "image_url:" +:+ u
            end) parts) +:+ "]".

Definition sampleParse (s : string) : option json :=
  if String.eqb s "{}" then Some (JObject []) else None.

Definition sampleString (v : json) : string :=
  match v with
  | JString s => s
  | _ => "[value]"
  end.

Definition sampleCountTokens (s : string) : nat := String.length s.

Definition convert :=
  convertAnthropicToOpenAIMessages sampleStringify sampleStringifyParts sampleString.

Definition stream :=
  handleAnthropicStreamingResponseFromOpenAIStream (neverThrows sampleCountTokens) sampleParse
    "req".

Definition toolChunk (toolDeltas : list ToolCallDelta) : ChatCompletionChunk :=
  mkChunk [mkChunkChoice (mkDelta None (Some toolDeltas)) None].

Definition finishChunk (reason : string) : ChatCompletionChunk :=
  mkChunk [mkChunkChoice (mkDelta None None) (Some reason)].

(** Scenario C of the specification. *)
Definition scenarioC : list ChatCompletionChunk :=
  [ toolChunk [mkToolCallDelta 0 (Some "t1")
                 (Some (mkFunctionDelta (Some "get_weather") None))];
    toolChunk [mkToolCallDelta 0 None (Some (mkFunctionDelta None (Some "{c")))];
    toolChunk [mkToolCallDelta 0 None (Some (mkFunctionDelta None (Some "ity:Paris}")))];
    finishChunk "tool_calls" ].

Example scenario_C :
  written (stream (map Chunk scenarioC) "claude-3-opus" 7 "0a1b2c3d")
  = [ MessageStart "msg_stream_req_0a1b2c3d" "claude-3-opus" 7;
      Ping;
      ContentBlockStart 0 (SeedToolUse "t1" "get_weather");
      ContentBlockDelta 0 (InputJsonDelta "{c");
      ContentBlockDelta 0 (InputJsonDelta "ity:Paris}");
      ContentBlockStop 0;
      MessageDelta tool_use 12;
      MessageStop ].
Proof. vm_compute. reflexivity. Qed.

(** A stream that breaks: one [Error] event, no stop, no final events. *)
Example stream_failure :
  written (stream [Chunk (mkChunk [mkChunkChoice (mkDelta (Some "Hi") None) None]);
                   StreamError "socket hang up"] "claude-3-opus" 7 "0a1b2c3d")
  = [ MessageStart "msg_stream_req_0a1b2c3d" "claude-3-opus" 7;
      Ping;
      ContentBlockStart 0 SeedText;
      ContentBlockDelta 0 (TextDelta "Hi");
      ErrorEvent API_ERROR "socket hang up" ].
Proof. vm_compute. reflexivity. Qed.

Lemma block_lifecycle_witness :
  let events := written (stream (map Chunk scenarioC) "claude-3-opus" 7 "0a1b2c3d") in
  In (ContentBlockStart 0 (SeedToolUse "t1" "get_weather")) events
  /\ closedTrace 0 (filter (about 0) events)
  /\ exists before, events = before ++ [MessageStop] /\ ~ In MessageStop before.
Proof.
  assert (Hin : In (ContentBlockStart 0 (SeedToolUse "t1" "get_weather"))
                  (written (stream (map Chunk scenarioC) "claude-3-opus" 7 "0a1b2c3d"))).
  { vm_compute. auto. }
  split; [exact Hin |].
  exact (block_lifecycle sampleCountTokens sampleParse "req" scenarioC
           "claude-3-opus" 7 "0a1b2c3d" 0 _ Hin eq_refl).
Defined.

(** A tool-call delta that brings the id, the name and a fragment at
    once. *)
Definition wholeCall : ToolCallDelta :=
  mkToolCallDelta 0 (Some "t1") (Some (mkFunctionDelta (Some "f") (Some "{"))).

Definition firstState : StreamState :=
  initialState "req" "claude-3-opus" 7 "0a1b2c3d".

Lemma tool_block_start_and_deltas_witness :
  Reachable sampleCountTokens "req" firstState
  /\ exists blockIdx toolState st',
       handleToolCallDelta (neverThrows sampleCountTokens) "req" wholeCall firstState = Normal st'
       /\ openaiToolIdxToAnthropicBlockIdx st' !! td_index wholeCall = Some blockIdx
       /\ toolStates st' !! blockIdx = Some toolState
       /\ ts_arguments_buffer toolState
          = fold_left String.append (fragment wholeCall) (previousBuffer firstState wholeCall)
       /\ written st'
          = written firstState
            ++ (if startReady toolState && negb (wasReady firstState wholeCall)
                then [ContentBlockStart blockIdx
                        (SeedToolUse (ts_id toolState) (ts_name toolState))]
                else [])
            ++ (if startReady toolState
                then map (fun arguments =>
                            ContentBlockDelta blockIdx (InputJsonDelta arguments))
                       (fragment wholeCall)
                else [])
       /\ implb (wasReady firstState wholeCall) (startReady toolState) = true.
Proof.
  assert (HR : Reachable sampleCountTokens "req" firstState) by apply reach_initial.
  split; [exact HR |].
  exact (tool_block_start_and_deltas sampleCountTokens "req" firstState wholeCall HR).
Defined.

(** C2, the claim as stated, fails. No [ContentBlockStart] has been
    written when this delta arrives; its fragment is appended to the
    buffer of the block and is nevertheless written as a
    [ContentBlockDelta], right after the [ContentBlockStart] that the
    same delta triggers. *)
Lemma fragment_arriving_with_the_start :
  toolStarts (written firstState) = []
  /\ exists st',
       handleToolCallDelta (neverThrows sampleCountTokens) "req" wholeCall firstState = Normal st'
       /\ toolStates st' !! 0 = Some (mkToolState "t1" "f" "{")
       /\ written st'
          = written firstState
            ++ [ ContentBlockStart 0 (SeedToolUse "t1" "f");
                 ContentBlockDelta 0 (InputJsonDelta "{") ].
Proof.
  split; [reflexivity |]. eexists. split; [reflexivity |].
  split; vm_compute; reflexivity.
Qed.

(** Two tool calls of which the second is ready to start first: the
    first arrives without an id. *)
Definition lateFirstCall : list ChatCompletionChunk :=
  [ toolChunk [mkToolCallDelta 0 None (Some (mkFunctionDelta (Some "a") None))];
    toolChunk [mkToolCallDelta 1 (Some "t1") (Some (mkFunctionDelta (Some "b") None))];
    toolChunk [mkToolCallDelta 0 (Some "t0") None] ].

Fixpoint ascending (l : list nat) : bool :=
  match l with
  | a :: (b :: _) as rest => (a <? b)%nat && ascending rest
  | _ => true
  end.

(** C3, the claim as stated, fails: the stops follow the order of the
    starts, here block 1 before block 0. *)
Lemma stops_not_ascending :
  written (stream (map Chunk lateFirstCall) "claude-3-opus" 7 "0a1b2c3d")
  = [ MessageStart "msg_stream_req_0a1b2c3d" "claude-3-opus" 7;
      Ping;
      ContentBlockStart 1 (SeedToolUse "t1" "b");
      ContentBlockStart 0 (SeedToolUse "t0" "a");
      ContentBlockStop 1;
      ContentBlockStop 0;
      MessageDelta end_turn 0;
      MessageStop ]
  /\ ascending
       (stops (written (stream (map Chunk lateFirstCall) "claude-3-opus" 7 "0a1b2c3d")))
     = false.
Proof. split; vm_compute; reflexivity. Qed.


(** Scenario E of the specification. *)
Definition textAndToolUse : list Message :=
  [ mkMessage assistant
      (ContentBlocks [BlockText "Let me check."; BlockToolUse "t1" "get_weather" (JObject [])]) ].

Example scenario_E :
  fst (convert textAndToolUse SystemUndefined true)
  = [ plainMessage RoleAssistant "Let me check.";
      toolCallsMessage [mkToolCall "t1" "function" "get_weather" "{}"] ].
Proof. reflexivity. Qed.

Lemma assistant_tool_calls_null_content_witness :
  let m := toolCallsMessage [mkToolCall "t1" "function" "get_weather" "{}"] in
  In m (fst (convert textAndToolUse SystemUndefined true))
  /\ msg_role m = RoleAssistant
  /\ msg_tool_calls m <> None
  /\ msg_content m = None.
Proof.
  cbv zeta.
  assert (Hin : In (toolCallsMessage [mkToolCall "t1" "function" "get_weather" "{}"])
                  (fst (convert textAndToolUse SystemUndefined true))).
  { vm_compute. auto. }
  assert (Hcalls : msg_tool_calls
                     (toolCallsMessage [mkToolCall "t1" "function" "get_weather" "{}"])
                   <> None) by discriminate.
  split_and!; [exact Hin | reflexivity | exact Hcalls |].
  exact (assistant_tool_calls_null_content sampleStringify sampleStringifyParts
           sampleString textAndToolUse SystemUndefined true _ Hin eq_refl Hcalls).
Defined.

(** An assistant turn whose tool calls are merged into the empty
    assistant message before it. *)
Example tool_calls_merged :
  fst (convert [ mkMessage assistant (ContentString "");
                 mkMessage assistant (ContentBlocks [BlockToolUse "t1" "f" (JObject [])]) ]
         SystemUndefined true)
  = [ toolCallsMessage [mkToolCall "t1" "function" "f" "{}"] ].
Proof. reflexivity. Qed.

(** Scenario B of the specification. *)
Example scenario_B :
  fst (convert [mkMessage user (ContentBlocks [BlockText "Hello"; BlockText "World"])]
         SystemUndefined true)
  = [ plainMessage RoleUser (sampleStringifyParts [PartText "Hello"; PartText "World"]) ].
Proof. reflexivity. Qed.

Example tool_results_then_empty_user_message :
  fst (convert [ mkMessage user
                   (ContentBlocks [ BlockToolResult "t1" (ResultString "sunny");
                                    BlockToolResult "t2" (ResultString "18") ]) ]
         SystemUndefined true)
  = [ toolMessage "t1" "sunny"; toolMessage "t2" "18"; plainMessage RoleUser "" ].
Proof. reflexivity. Qed.

(** C7, the claim as stated, fails: an empty system string, and an array
    whose texts join to the empty string, give no system message. *)
Lemma empty_system_prompt_dropped :
  fst (convert [mkMessage user (ContentString "Hi")] (SystemString "") true)
  = [plainMessage RoleUser "Hi"]
  /\ fst (convert [mkMessage user (ContentString "Hi")]
            (SystemBlocks [mkSystemContent "text" ""]) true)
     = [plainMessage RoleUser "Hi"].
Proof. split; reflexivity. Qed.

Example system_prompt_blocks :
  convert [] (SystemBlocks [ mkSystemContent "text" "Be brief.";
                             mkSystemContent "image" "";
                             mkSystemContent "text" "Be kind." ]) true
  = ([plainMessage RoleSystem ("Be brief." +:+ LF +:+ "Be kind.")],
     [mkLog WARNING SYSTEM_PROMPT_ADJUSTED]).
Proof. reflexivity. Qed.

(** Scenario D of the specification. *)
Definition rateLimited : Exception :=
  mkException RateLimitError "Error" "429 Rate limit exceeded" (Some 429%Z) None.

Example scenario_D :
  getAnthropicErrorDetailsFromException sampleParse rateLimited
  = mkErrorDetails RATE_LIMIT "429 Rate limit exceeded" 429 None.
Proof. reflexivity. Qed.

Lemma error_kind_of_exception_witness :
  isAPIError (exc_class rateLimited) = true
  /\ exc_status rateLimited = Some 429%Z
  /\ errorType (getAnthropicErrorDetailsFromException sampleParse rateLimited) = RATE_LIMIT
  /\ errorMessage (getAnthropicErrorDetailsFromException sampleParse rateLimited)
     = "429 Rate limit exceeded"
  /\ (errorMessage (getAnthropicErrorDetailsFromException sampleParse rateLimited) <> ""
      <-> exc_message rateLimited <> "" \/ exc_name rateLimited <> "").
Proof.
  split_and!; [reflexivity | reflexivity | | |];
    apply (error_kind_of_exception sampleParse rateLimited 429 eq_refl eq_refl).
Defined.

(** C6, the claim as stated, fails: a backend exception with a status
    whose message and name are both empty gets the empty message. *)
Lemma empty_error_message :
  let exc := mkException GenericAPIError "" "" (Some 500%Z) None in
  isAPIError (exc_class exc) = true
  /\ exc_status exc = Some 500%Z
  /\ errorMessage (getAnthropicErrorDetailsFromException sampleParse exc) = "".
Proof. split_and!; reflexivity. Qed.

(** A server error keeps [api_error] whatever its status. *)
Example server_error_overrides_status :
  errorType (getAnthropicErrorDetailsFromException sampleParse
               (mkException InternalServerError "Error" "503 overloaded" (Some 503%Z) None))
  = API_ERROR.
Proof. reflexivity. Qed.

End Scenarios.

(** ** More on the request translator *)

Module MessagesExtra.
Import Converter MessagesSpec.

(** What one block of a user message adds to the parts. *)
Definition partOfBlock (b : ContentBlock) : list UserPart :=
  match b with
  | BlockText text => [PartText text]
  | BlockImage source_type media_type data =>
      if String.eqb source_type "base64"
      then [PartImageUrl ("data:" +:+ media_type +:+ ";base64," +:+ data)]
      else []
  | _ => []
  end.

(** What one block of an assistant message adds to the texts. *)
Definition textOfBlock (b : ContentBlock) : list string :=
  match b with
  | BlockText text => [text]
  | _ => []
  end.

(** A block of an assistant message that leaves no trace: it is neither
    a tool use nor a text that is not empty. *)
Definition silentBlock (b : ContentBlock) : bool :=
  match b with
  | BlockText text => negb (truthy text)
  | BlockToolUse _ _ _ => false
  | _ => true
  end.

(** A prefix of the output array that no later message can change: it is
    empty, or its last message is not an assistant message, or it already
    carries tool calls. *)
Definition closed (pre : list ChatCompletionMessageParam) : Prop :=
  forall x, last pre = Some x ->
    msg_role x <> RoleAssistant \/ msg_tool_calls x <> None.

Definition isNormalizedWarning (r : LogRecord) : bool :=
  bool_decide (event r = MESSAGE_FORMAT_NORMALIZED).

Section WithJSON.

Variable JSON_stringify : json -> option string.
Variable JSON_stringify_parts : list UserPart -> string.
Variable JS_String : json -> string.

Abbreviation convertBlock := (convertBlock JSON_stringify JS_String).
Abbreviation convertBlocks := (convertBlocks JSON_stringify JS_String).
Abbreviation convertMessage :=
  (convertMessage JSON_stringify JSON_stringify_parts JS_String).
Abbreviation serializeToolResult :=
  (serializeToolResultContentForOpenAI JSON_stringify JS_String).
Abbreviation convertMessages :=
  (convertAnthropicToOpenAIMessages JSON_stringify JSON_stringify_parts JS_String).

(** What one block of a user message pushes to the output. *)
Definition toolMessageOfBlock (logger : bool) (b : ContentBlock)
    : list ChatCompletionMessageParam :=
  match b with
  | BlockToolResult tool_use_id content =>
      [toolMessage tool_use_id (fst (serializeToolResult content logger))]
  | _ => []
  end.

(** What one block of an assistant message adds to the tool calls, and
    what it logs. *)
Definition callOfBlock (b : ContentBlock) : list ToolCall :=
  match b with
  | BlockToolUse id name input =>
      [mkToolCall id "function" name (default "{}" (JSON_stringify input))]
  | _ => []
  end.

Definition assistantLogOfBlock (logger : bool) (b : ContentBlock) : Log :=
  match b with
  | BlockToolUse _ _ input =>
      match JSON_stringify input with
      | Some _ => []
      | None => logIf logger (mkLog ERROR TOOL_INPUT_SERIALIZATION_FAILURE)
      end
  | _ => []
  end.

(** *** The loop over the blocks, block by block *)

Lemma convertBlocks_user logger blocks st :
  exists l,
    convertBlocks logger user blocks st
    = mkLocals (openaiMessages st ++ flat_map (toolMessageOfBlock logger) blocks)
        (logged st ++ l)
        (openaiPartsForUserMessage st ++ flat_map partOfBlock blocks)
        (assistantToolCalls st) (textContentForAssistant st).
Proof.
  unfold Converter.convertBlocks. revert st.
  induction blocks as [| b blocks IH]; intros st; cbn [fold_left flat_map].
  { exists []. destruct st. cbn. by rewrite !app_nil_r. }
  destruct (IH (convertBlock logger user b st)) as [l ->].
  destruct b as [t | sty mt d | i n inp | i c];
    cbn [Converter.convertBlock toolMessageOfBlock partOfBlock app].
  - exists l. cbn. by rewrite <- app_assoc.
  - destruct (String.eqb sty "base64"); cbn.
    + exists l. by rewrite <- app_assoc.
    + eexists. by rewrite <- app_assoc.
  - by exists l.
  - destruct (serializeToolResult c logger) as [s w]. cbn.
    eexists. by rewrite <- !app_assoc.
Qed.

Lemma convertBlocks_assistant logger blocks st :
  convertBlocks logger assistant blocks st
  = mkLocals (openaiMessages st)
      (logged st ++ flat_map (assistantLogOfBlock logger) blocks)
      (openaiPartsForUserMessage st)
      (assistantToolCalls st ++ flat_map callOfBlock blocks)
      (textContentForAssistant st ++ flat_map textOfBlock blocks).
Proof.
  unfold Converter.convertBlocks. revert st.
  induction blocks as [| b blocks IH]; intros st; cbn [fold_left flat_map].
  { destruct st. cbn. by rewrite !app_nil_r. }
  rewrite IH.
  destruct b as [t | sty mt d | i n inp | i c];
    cbn [Converter.convertBlock callOfBlock textOfBlock assistantLogOfBlock app];
    rewrite ?app_nil_r; try reflexivity.
  - cbn. by rewrite <- app_assoc.
  - destruct (JSON_stringify inp); cbn; by rewrite <- ?app_assoc, ?app_nil_r.
Qed.

(** The three arrays of a message are empty again after the message. *)
Lemma convertMessages_locals logger msgs sys :
  let st := fold_left (convertMessage logger) msgs (convertSystem sys logger) in
  st = mkLocals (openaiMessages st) (logged st) [] [] [].
Proof.
  cbv zeta. induction msgs as [| m msgs _] using rev_ind.
  - cbn [fold_left]. unfold convertSystem. by destruct sys.
  - rewrite fold_left_app. cbn [fold_left].
    unfold Converter.convertMessage.
    destruct (content m) as [s | [| b blocks]]; try reflexivity.
    by destruct (role m).
Qed.

(** A message reads the output array and the log of the state only. *)
Lemma convertMessage_reads logger st m :
  convertMessage logger st m
  = convertMessage logger (mkLocals (openaiMessages st) (logged st) [] [] []) m.
Proof. reflexivity. Qed.

(** *** The last pass *)

Lemma normalize_invariant logger msgs :
  Forall nullContentInvariant msgs ->
  map (normalizeMessage logger) msgs = msgs /\ normalizeLog logger msgs = [].
Proof.
  assert (Hno : forall m, nullContentInvariant m -> needsNormalizing logger m = false).
  { intros m Hm. unfold needsNormalizing.
    destruct (bool_decide (msg_role m = RoleAssistant)) eqn:Hr; [| done].
    destruct (bool_decide (msg_tool_calls m <> None)) eqn:Hc; [| done].
    apply bool_decide_eq_true_1 in Hr, Hc.
    rewrite (bool_decide_eq_false_2 (msg_content m <> None)); [done |].
    intros Hn. apply Hn. by apply Hm. }
  induction 1 as [| m msgs Hm _ [IH1 IH2]]; [done |].
  unfold normalizeLog, normalizeMessage in *. cbn.
  by rewrite IH1, IH2, (Hno m Hm).
Qed.

Lemma loop_invariant logger msgs sys :
  Forall nullContentInvariant
    (openaiMessages (fold_left (convertMessage logger) msgs (convertSystem sys logger))).
Proof.
  apply convertMessages_Forall.
  - intros r c _. by cbn.
  - intros i c. by cbn.
  - intros calls _ _. reflexivity.
  - intros x calls _ _ _ _. reflexivity.
  - apply convertSystem_Forall. intros c Hr. discriminate Hr.
Qed.

(** The pass that "normalizes messages with tool_calls" finds nothing to
    normalize: the translator returns the messages and the log of its
    loop as they are. *)
Theorem normalization_changes_nothing
    (anthropicMessages : list Message) (anthropicSystem : SystemPrompt) (logger : bool) :
  let st := fold_left (convertMessage logger) anthropicMessages
              (convertSystem anthropicSystem logger) in
  convertMessages anthropicMessages anthropicSystem logger
  = (openaiMessages st, logged st)
  /\ normalizeLog logger (openaiMessages st) = [].
Proof.
  cbv zeta. unfold Converter.convertAnthropicToOpenAIMessages.
  destruct (normalize_invariant logger _
              (loop_invariant logger anthropicMessages anthropicSystem)) as [-> ->].
  by rewrite app_nil_r.
Qed.

(** *** The output array without the logger *)

(** What a message does to the output array, written without the state
    of the loop and without the logger. *)
Definition pushMessage (acc : list ChatCompletionMessageParam) (m : Message)
    : list ChatCompletionMessageParam :=
  match content m with
  | ContentString s => acc ++ [plainMessage (openaiRole (role m)) s]
  | ContentBlocks [] => acc ++ [plainMessage (openaiRole (role m)) ""]
  | ContentBlocks blocks =>
      match role m with
      | user =>
          acc ++ flat_map (toolMessageOfBlock false) blocks
              ++ userMessageOfParts JSON_stringify_parts (flat_map partOfBlock blocks)
      | assistant =>
          assistantMessages acc (flat_map textOfBlock blocks) (flat_map callOfBlock blocks)
      end
  end.

Definition systemMessage (anthropicSystem : SystemPrompt)
    : list ChatCompletionMessageParam :=
  let text :=
    match anthropicSystem with
    | SystemUndefined => ""
    | SystemString s => s
    | SystemBlocks blocks => join LF (systemTexts blocks)
    end in
  if truthy text then [plainMessage RoleSystem text] else [].

Lemma toolMessageOfBlock_logger l1 l2 b : toolMessageOfBlock l1 b = toolMessageOfBlock l2 b.
Proof. destruct b as [| | | i [s | items]]; reflexivity. Qed.

Lemma convertMessage_pushMessage logger st m :
  openaiMessages (convertMessage logger st m) = pushMessage (openaiMessages st) m.
Proof.
  unfold Converter.convertMessage, pushMessage.
  destruct (content m) as [s | [| b blocks]]; try reflexivity.
  destruct (role m).
  - destruct (convertBlocks_user logger (b :: blocks)
                (mkLocals (openaiMessages st) (logged st) [] [] [])) as [l ->].
    cbn [openaiMessages openaiPartsForUserMessage app].
    rewrite <- app_assoc. do 2 f_equal.
    apply flat_map_ext. intros a. apply toolMessageOfBlock_logger.
  - by rewrite convertBlocks_assistant.
Qed.

Lemma convertMessages_pushMessage logger msgs st :
  openaiMessages (fold_left (convertMessage logger) msgs st)
  = fold_left pushMessage msgs (openaiMessages st).
Proof.
  revert st. induction msgs as [| m msgs IH]; intros st; [reflexivity |].
  cbn [fold_left]. by rewrite IH, convertMessage_pushMessage.
Qed.

(** The messages of the translated request are a fold of [pushMessage]
    over the source messages, started with the system message; so the
    logger has no influence on them. *)
Theorem messages_without_logger
    (anthropicMessages : list Message) (anthropicSystem : SystemPrompt) (logger : bool) :
  fst (convertMessages anthropicMessages anthropicSystem logger)
  = fold_left pushMessage anthropicMessages (systemMessage anthropicSystem)
  /\ fst (convertMessages anthropicMessages anthropicSystem logger)
     = fst (convertMessages anthropicMessages anthropicSystem (negb logger)).
Proof.
  assert (H : forall l,
    fst (convertMessages anthropicMessages anthropicSystem l)
    = fold_left pushMessage anthropicMessages (systemMessage anthropicSystem)).
  { intros l.
    destruct (normalization_changes_nothing anthropicMessages anthropicSystem l)
      as [-> _].
    cbn [fst]. rewrite convertMessages_pushMessage. f_equal.
    unfold convertSystem, systemMessage. by destruct anthropicSystem. }
  split; [apply H | by rewrite !H].
Qed.

(** *** Closed prefixes *)

Lemma closed_snoc pre x :
  msg_role x <> RoleAssistant \/ msg_tool_calls x <> None -> closed (pre ++ [x]).
Proof. intros H y. rewrite last_snoc. by intros [= <-]. Qed.

Lemma closed_nil : closed [].
Proof. intros x. by cbn. Qed.

Lemma attachToolCalls_closed pre msgs calls :
  closed pre ->
  attachToolCalls (pre ++ msgs) calls = pre ++ attachToolCalls msgs calls.
Proof.
  intros Hc. unfold attachToolCalls. rewrite last_app_sealed.
  destruct msgs as [| y msgs _] using rev_ind.
  - cbn [last]. rewrite app_nil_r.
    destruct (last pre) as [x |] eqn:Hl; [| reflexivity].
    destruct (Hc x Hl) as [Hr | Ht].
    + by rewrite (bool_decide_eq_false_2 _ Hr).
    + rewrite (bool_decide_eq_false_2 _ Ht). by rewrite !andb_false_r.
  - rewrite last_snoc.
    repeat case_match; rewrite ?app_assoc, ?removelast_snoc; try reflexivity.
Qed.

Lemma assistantMessages_closed pre msgs texts calls :
  closed pre ->
  assistantMessages (pre ++ msgs) texts calls = pre ++ assistantMessages msgs texts calls.
Proof.
  intros Hc. unfold assistantMessages.
  destruct (truthy _), calls; rewrite <- ?app_assoc; try reflexivity.
  all: rewrite attachToolCalls_closed by assumption; reflexivity.
Qed.

Lemma pushMessage_closed pre acc m :
  closed pre -> pushMessage (pre ++ acc) m = pre ++ pushMessage acc m.
Proof.
  intros Hc. unfold pushMessage.
  destruct (content m) as [s | [| b blocks]]; rewrite <- ?app_assoc; try reflexivity.
  destruct (role m); rewrite <- ?app_assoc; [reflexivity |].
  by apply assistantMessages_closed.
Qed.

Lemma pushMessages_closed pre acc msgs :
  closed pre ->
  fold_left pushMessage msgs (pre ++ acc) = pre ++ fold_left pushMessage msgs acc.
Proof.
  intros Hc. revert acc. induction msgs as [| m msgs IH]; intros acc; [reflexivity |].
  cbn [fold_left]. by rewrite pushMessage_closed, IH.
Qed.

(** The request translator is compositional at every point where the
    messages translated so far end closed: what follows is translated
    as on its own. *)
Theorem translation_composes
    (before after : list Message) (anthropicSystem : SystemPrompt) (logger : bool) :
  closed (fst (convertMessages before anthropicSystem logger)) ->
  fst (convertMessages (before ++ after) anthropicSystem logger)
  = fst (convertMessages before anthropicSystem logger)
    ++ fst (convertMessages after SystemUndefined logger).
Proof.
  intros Hc.
  destruct (messages_without_logger (before ++ after) anthropicSystem logger) as [-> _].
  destruct (messages_without_logger after SystemUndefined logger) as [-> _].
  destruct (messages_without_logger before anthropicSystem logger) as [Hb _].
  rewrite Hb in Hc |- *. rewrite fold_left_app.
  rewrite <- (app_nil_r (fold_left pushMessage before _)) at 1.
  by rewrite pushMessages_closed.
Qed.

(** The same for a run of messages between two lists, when the run
    appends a closed segment whatever it finds. *)
Lemma in_context (before mid after : list Message)
    (anthropicSystem : SystemPrompt) (logger : bool)
    (segment : list ChatCompletionMessageParam) :
  (forall acc, fold_left pushMessage mid acc = acc ++ segment) ->
  closed segment ->
  segment <> [] ->
  fst (convertMessages (before ++ mid ++ after) anthropicSystem logger)
  = fst (convertMessages before anthropicSystem logger)
    ++ segment
    ++ fst (convertMessages after SystemUndefined logger).
Proof.
  intros Hm Hc Hne.
  destruct (messages_without_logger (before ++ mid ++ after) anthropicSystem logger)
    as [-> _].
  destruct (messages_without_logger after SystemUndefined logger) as [-> _].
  destruct (messages_without_logger before anthropicSystem logger) as [-> _].
  rewrite !fold_left_app, Hm.
  rewrite <- (app_nil_r (_ ++ segment)).
  rewrite pushMessages_closed; [by rewrite <- app_assoc |].
  intros x. rewrite last_app_sealed.
  destruct (last segment) as [y |] eqn:Hl.
  - intros [= <-]. by apply Hc.
  - by apply last_None in Hl.
Qed.

Lemma userMessageOfParts_one parts :
  exists c, userMessageOfParts JSON_stringify_parts parts = [plainMessage RoleUser c].
Proof.
  unfold userMessageOfParts. destruct parts as [| p parts]; [by eexists |].
  destruct (existsb isImageUrl (p :: parts) || (1 <? length (p :: parts))%nat) eqn:H;
    [by eexists |].
  apply orb_false_iff in H as [Himg Hlen].
  destruct parts as [| q parts]; [| by cbn in Hlen].
  destruct p as [t | u]; [by eexists | by cbn in Himg].
Qed.

(** A user message with blocks, anywhere in a request: its tool results
    come first, one tool-role message each, in block order; then exactly
    one user-role message made of its text and image parts, even when
    those stand before the tool results in the source, and even when
    there is no part at all. *)
Theorem user_message_tool_results_first
    (before after : list Message) (b : ContentBlock) (blocks : list ContentBlock)
    (anthropicSystem : SystemPrompt) (logger : bool) :
  let parts := flat_map partOfBlock (b :: blocks) in
  fst (convertMessages
         (before ++ mkMessage user (ContentBlocks (b :: blocks)) :: after)
         anthropicSystem logger)
  = fst (convertMessages before anthropicSystem logger)
    ++ (flat_map (toolMessageOfBlock logger) (b :: blocks)
        ++ userMessageOfParts JSON_stringify_parts parts)
    ++ fst (convertMessages after SystemUndefined logger)
  /\ length (userMessageOfParts JSON_stringify_parts parts) = 1.
Proof.
  cbv zeta.
  destruct (userMessageOfParts_one (flat_map partOfBlock (b :: blocks))) as [c Hc].
  split; [| by rewrite Hc].
  apply (in_context before [mkMessage user (ContentBlocks (b :: blocks))] after).
  - intros acc. cbn [fold_left]. unfold pushMessage. cbn [content role].
    do 2 f_equal. apply flat_map_ext. intros a. apply toolMessageOfBlock_logger.
  - rewrite Hc. apply closed_snoc. by left.
  - rewrite Hc. intros H. by apply app_eq_nil in H as [_ ?].
Qed.

Lemma silent_blocks logger blocks :
  forallb silentBlock blocks = true ->
  flat_map callOfBlock blocks = []
  /\ flat_map (assistantLogOfBlock logger) blocks = []
  /\ filter (fun t => truthy t = true) (flat_map textOfBlock blocks) = [].
Proof.
  induction blocks as [| b blocks IH]; [done |].
  cbn [forallb flat_map]. intros H. apply andb_true_iff in H as [Hb H].
  destruct (IH H) as (-> & -> & IH3).
  destruct b as [t | sty mt d | i n inp | i c]; cbn [silentBlock] in Hb;
    cbn [callOfBlock assistantLogOfBlock textOfBlock app]; try done.
  apply negb_true_iff in Hb. rewrite filter_cons, IH3.
  by rewrite decide_False by by rewrite Hb.
Qed.

(** An assistant message whose blocks hold no tool use and no text but
    empty ones leaves no trace at all, neither in the messages nor in the
    log: the request is translated as if the message were not there. *)
Theorem silent_assistant_message_dropped
    (before after : list Message) (blocks : list ContentBlock)
    (anthropicSystem : SystemPrompt) (logger : bool) :
  blocks <> [] ->
  forallb silentBlock blocks = true ->
  convertMessages (before ++ mkMessage assistant (ContentBlocks blocks) :: after)
    anthropicSystem logger
  = convertMessages (before ++ after) anthropicSystem logger.
Proof.
  intros Hne Hs. unfold Converter.convertAnthropicToOpenAIMessages.
  rewrite !fold_left_app. cbn [fold_left].
  pose proof (convertMessages_locals logger before anthropicSystem) as Hst.
  cbv zeta in Hst.
  set (st := fold_left (convertMessage logger) before _) in *.
  assert (Hm : convertMessage logger st (mkMessage assistant (ContentBlocks blocks)) = st).
  { unfold Converter.convertMessage. cbn [content role].
    destruct blocks as [| b blocks]; [done |].
    rewrite convertBlocks_assistant.
    destruct (silent_blocks logger (b :: blocks) Hs) as (-> & -> & Ht).
    cbn [openaiMessages logged textContentForAssistant assistantToolCalls app].
    unfold assistantMessages. rewrite Ht. cbn. by rewrite app_nil_r, <- Hst. }
  by rewrite Hm.
Qed.

Lemma attachToolCalls_after_text acc text calls :
  truthy text = true ->
  attachToolCalls (acc ++ [plainMessage RoleAssistant text]) calls
  = acc ++ [plainMessage RoleAssistant text; toolCallsMessage calls].
Proof.
  intros Ht. unfold attachToolCalls. rewrite last_snoc.
  cbn [plainMessage msg_role msg_content msg_tool_calls truthy_opt]. rewrite Ht.
  rewrite !bool_decide_eq_true_2 by done. cbn [andb]. by rewrite <- app_assoc.
Qed.

Lemma attachToolCalls_after_empty acc calls :
  attachToolCalls (acc ++ [plainMessage RoleAssistant ""]) calls
  = acc ++ [toolCallsMessage calls].
Proof.
  unfold attachToolCalls. rewrite last_snoc.
  cbn [plainMessage msg_role msg_content msg_tool_calls msg_tool_call_id truthy_opt truthy].
  rewrite !bool_decide_eq_true_2 by done. cbn [andb]. by rewrite removelast_snoc.
Qed.

(** An assistant message with a text that is not empty and with tool
    uses gives exactly two messages whatever stands before it: the text,
    then an assistant message without content that carries the calls. *)
Theorem text_and_tool_uses_give_two_messages
    (before after : list Message) (blocks : list ContentBlock)
    (anthropicSystem : SystemPrompt) (logger : bool) :
  let text := join LF (filter (fun t => truthy t = true) (flat_map textOfBlock blocks)) in
  let calls := flat_map callOfBlock blocks in
  truthy text = true ->
  calls <> [] ->
  fst (convertMessages (before ++ mkMessage assistant (ContentBlocks blocks) :: after)
         anthropicSystem logger)
  = fst (convertMessages before anthropicSystem logger)
    ++ [plainMessage RoleAssistant text; toolCallsMessage calls]
    ++ fst (convertMessages after SystemUndefined logger).
Proof.
  cbv zeta. intros Ht Hcalls.
  apply (in_context before [mkMessage assistant (ContentBlocks blocks)] after).
  - intros acc. cbn [fold_left]. unfold pushMessage. cbn [content role].
    destruct blocks as [| b blocks]; [done |].
    unfold assistantMessages. rewrite Ht.
    destruct (flat_map callOfBlock (b :: blocks)) as [| c calls]; [done |].
    by apply attachToolCalls_after_text.
  - apply (closed_snoc [_]). by right.
  - done.
Qed.

(** An assistant turn that is empty, followed by an assistant message
    that brings tool uses and no text: the two collapse into one message,
    the empty turn is overwritten by the message that carries the
    calls. *)
Theorem tool_uses_merge_into_empty_turn
    (before after : list Message) (blocks : list ContentBlock)
    (anthropicSystem : SystemPrompt) (logger : bool) :
  let text := join LF (filter (fun t => truthy t = true) (flat_map textOfBlock blocks)) in
  let calls := flat_map callOfBlock blocks in
  truthy text = false ->
  calls <> [] ->
  fst (convertMessages
         (before ++ [mkMessage assistant (ContentString "");
                     mkMessage assistant (ContentBlocks blocks)] ++ after)
         anthropicSystem logger)
  = fst (convertMessages before anthropicSystem logger)
    ++ [toolCallsMessage calls]
    ++ fst (convertMessages after SystemUndefined logger).
Proof.
  cbv zeta. intros Ht Hcalls.
  apply in_context.
  - intros acc. cbn [fold_left]. unfold pushMessage at 2. cbn [content role openaiRole].
    unfold pushMessage. cbn [content role].
    destruct blocks as [| b blocks]; [done |].
    unfold assistantMessages. rewrite Ht.
    destruct (flat_map callOfBlock (b :: blocks)) as [| c calls]; [done |].
    apply attachToolCalls_after_empty.
  - apply (closed_snoc []). by right.
  - done.
Qed.

End WithJSON.

End MessagesExtra.

(** ** More on the response translator, and the tool choice *)

Module ResponseSpec.
Import Converter MessagesSpec.

Definition isFunctionType (call : ToolCall) : Prop := tc_type call = "function".

#[global] Instance isFunctionType_dec call : Decision (isFunctionType call).
Proof. unfold isFunctionType. apply _. Defined.

(** The input of every tool-use block of a block list is an object. *)
Definition objectInputs (blocks : list ContentBlock) : Prop :=
  Forall (fun b =>
            match b with
            | BlockToolUse _ _ input => is_object input = true
            | _ => True
            end) blocks.

(** The names of the members every JavaScript object inherits. *)
Definition prototypeNames : list string :=
  [ "constructor"; "hasOwnProperty"; "isPrototypeOf"; "propertyIsEnumerable";
    "toLocaleString"; "toString"; "valueOf"; "__proto__";
    "__defineGetter__"; "__defineSetter__"; "__lookupGetter__"; "__lookupSetter__" ].

(** The stop reason of a finish reason, case by case: the five reasons
    of the table, then the inherited names, then everything else, an
    absent and an empty finish reason included. *)
Definition responseStopReason (finishReason : option string) : StopReason :=
  match finishReason with
  | Some r =>
      if String.eqb r "stop" then end_turn
      else if String.eqb r "length" then max_tokens
      else if String.eqb r "tool_calls" || String.eqb r "function_call" then tool_use
      else if String.eqb r "content_filter" then stop_sequence
      else if bool_decide (r ∈ prototypeNames) then inherited r
      else end_turn
  | None => end_turn
  end.

Section WithJSON.

Variable JSON_parse : string -> option json.

Abbreviation convertResponse := (convertOpenAIToAnthropicResponse JSON_parse).
Abbreviation toolInput := (toolInputOfArguments JSON_parse).

(** The block a tool call becomes. *)
Definition blockOfCall (logger : bool) (call : ToolCall) : ContentBlock :=
  BlockToolUse (tc_id call) (tc_name call) (fst (toolInput (tc_arguments call) logger)).

(** The text block of a completion message, if it has a content that is
    not empty. *)
Definition textBlock (text : option string) : list ContentBlock :=
  match text with
  | Some c => if truthy c then [BlockText c] else []
  | None => []
  end.

Lemma convertToolCalls_blocks logger calls acc :
  fst (fold_left (convertToolCall JSON_parse logger) calls acc)
  = fst acc ++ map (blockOfCall logger) (filter isFunctionType calls).
Proof.
  revert acc. induction calls as [| call calls IH]; intros acc; cbn [fold_left].
  { by rewrite app_nil_r. }
  rewrite IH, filter_cons. unfold convertToolCall.
  destruct (decide (isFunctionType call)) as [Hf | Hf].
  - unfold isFunctionType in Hf. rewrite Hf, String.eqb_refl.
    unfold blockOfCall. cbn [map].
    destruct (toolInput (tc_arguments call) logger) as [d l].
    cbn [fst]. by rewrite <- app_assoc.
  - apply String.eqb_neq in Hf. by rewrite Hf.
Qed.

(** The content of the translated response: the text block, if the
    completion has a text, then one tool-use block per tool call of type
    [function] in the order of the calls, calls of another type being
    skipped; and the single empty text block when that leaves nothing,
    which is also the content for a completion without choices. *)
Theorem response_content (openaiResponse : ChatCompletion)
    (model : string) (logger : bool) (requestId : string) :
  resp_content (fst (convertResponse openaiResponse model logger requestId))
  = match cc_choices openaiResponse with
    | choice :: _ =>
        match textBlock (cm_content (message choice))
              ++ map (blockOfCall logger)
                   (filter isFunctionType (default [] (cm_tool_calls (message choice))))
        with
        | [] => [BlockText ""]
        | blocks => blocks
        end
    | [] => [BlockText ""]
    end.
Proof.
  unfold Converter.convertOpenAIToAnthropicResponse.
  destruct (cc_choices openaiResponse) as [| choice _]; [reflexivity |].
  fold (textBlock (cm_content (message choice))).
  destruct (cm_tool_calls (message choice)) as [calls |]; cbn [default].
  - pose proof (convertToolCalls_blocks logger calls
                  (textBlock (cm_content (message choice)), [])) as H.
    destruct (fold_left _ calls _) as [content1 l1]. cbn [fst] in H.
    cbn [fst resp_content]. rewrite H. unfold id. by destruct (_ ++ _).
  - cbn [fst resp_content filter map]. rewrite filter_nil. cbn [map].
    rewrite app_nil_r. by destruct (textBlock _).
Qed.

(** The content of the translated response is never empty, and its stop
    reason is [null] exactly when the completion has no choice. *)
Theorem response_never_empty (openaiResponse : ChatCompletion)
    (model : string) (logger : bool) (requestId : string) :
  let response := fst (convertResponse openaiResponse model logger requestId) in
  resp_content response <> []
  /\ (resp_stop_reason response = None <-> cc_choices openaiResponse = []).
Proof.
  cbv zeta. split.
  - rewrite response_content.
    destruct (cc_choices openaiResponse) as [| choice _]; [done |].
    by destruct (_ ++ _).
  - unfold Converter.convertOpenAIToAnthropicResponse.
    destruct (cc_choices openaiResponse) as [| choice rest]; [done |].
    destruct (cm_tool_calls (message choice)) as [calls |].
    + destruct (fold_left _ calls _). cbn. split; done.
    + cbn. split; done.
Qed.

Lemma mapStopReason_cases finishReason :
  mapStopReason finishReason = responseStopReason finishReason.
Proof.
  unfold mapStopReason, responseStopReason, lookupReason, stopReasonMap.
  destruct finishReason as [r |]; [| reflexivity].
  destruct r as [| c r']; [reflexivity |]. cbn [js_or truthy].
  generalize (String c r'). clear c r'. intros r. cbn [ownReason].
  rewrite !(String.eqb_sym _ r).
  destruct (String.eqb_spec r "stop") as [-> | ?]; [reflexivity |].
  destruct (String.eqb_spec r "length") as [-> | ?]; [reflexivity |].
  destruct (String.eqb_spec r "tool_calls") as [-> | ?]; [reflexivity |].
  destruct (String.eqb_spec r "function_call") as [-> | ?]; [reflexivity |].
  destruct (String.eqb_spec r "content_filter") as [-> | ?]; [reflexivity |].
  cbn [orb]. change objectPrototypeMembers with prototypeNames.
  by destruct (bool_decide (r ∈ prototypeNames)).
Qed.

(** When the completion has a choice, the stop reason of the translated
    response is decided by the finish reason of the first choice alone:
    the image under the table for the five reasons of the table, the
    inherited member for a finish reason that is one of the inherited
    names, and [end_turn] for every other, absent or empty finish reason.
    The special case for [tool_calls] never changes it; in particular
    tool calls that come with the finish reason [stop] give [end_turn]. *)
Theorem response_stop_reason (openaiResponse : ChatCompletion) (choice : Choice)
    (rest : list Choice) (model : string) (logger : bool) (requestId : string) :
  cc_choices openaiResponse = choice :: rest ->
  resp_stop_reason (fst (convertResponse openaiResponse model logger requestId))
  = Some (responseStopReason (finish_reason choice)).
Proof.
  intros Hc. rewrite <- mapStopReason_cases.
  unfold Converter.convertOpenAIToAnthropicResponse. rewrite Hc.
  destruct (cm_tool_calls (message choice)) as [calls |]; [| reflexivity].
  destruct (fold_left _ calls _). cbn [fst resp_stop_reason].
  destruct (bool_decide (finish_reason choice = Some "tool_calls")) eqn:Hf; [| reflexivity].
  apply bool_decide_eq_true_1 in Hf. by rewrite Hf.
Qed.

Lemma toolInput_object arguments logger :
  is_object (fst (toolInput arguments logger)) = true.
Proof.
  unfold toolInputOfArguments.
  destruct (JSON_parse arguments) as [parsed |]; [| reflexivity].
  by destruct (is_object parsed) eqn:H.
Qed.

(** Every tool-use block of the translated response has an object as
    input, whatever the arguments string of the call holds: the parsed
    value when it is an object, the value wrapped under [value] when it is
    not, the raw string under [error_parsing_arguments] when it does not
    parse. *)
Theorem response_inputs_are_objects (openaiResponse : ChatCompletion)
    (model : string) (logger : bool) (requestId : string) :
  objectInputs (resp_content (fst (convertResponse openaiResponse model logger requestId)))
  /\ forall arguments,
       fst (toolInput arguments logger)
       = match JSON_parse arguments with
         | Some parsed =>
             if is_object parsed then parsed else JObject [("value", parsed)]
         | None => JObject [("error_parsing_arguments", JString arguments)]
         end.
Proof.
  split.
  - rewrite response_content. unfold objectInputs.
    destruct (cc_choices openaiResponse) as [| choice _]; [by repeat constructor |].
    assert (H : Forall (fun b => match b with
                                 | BlockToolUse _ _ input => is_object input = true
                                 | _ => True
                                 end)
                  (textBlock (cm_content (message choice))
                   ++ map (blockOfCall logger)
                        (filter isFunctionType
                           (default [] (cm_tool_calls (message choice)))))).
    { apply Forall_app. split.
      - unfold textBlock. destruct (cm_content (message choice)) as [c |];
          [destruct (truthy c) |]; by repeat constructor.
      - apply List.Forall_map, Forall_forall. intros call _. apply toolInput_object. }
    destruct (_ ++ _); [by repeat constructor | exact H].
  - intros arguments. unfold toolInputOfArguments.
    destruct (JSON_parse arguments) as [parsed |]; [| reflexivity].
    by destruct (is_object parsed).
Qed.

End WithJSON.

(** The tool choice sent to the backend forces a function exactly when
    the source choice has type [tool] and a name that is not empty, and
    then it forces that name; every other choice becomes ['auto'], with a
    warning, if a logger is there, for [any] and for a [tool] choice
    without name; an absent choice stays absent. *)
Theorem tool_choice_translation (anthropicChoice : option ToolChoice) (logger : bool) :
  let result := convertAnthropicToolChoiceToOpenAI anthropicChoice logger in
  let named :=
    match anthropicChoice with
    | Some (mkToolChoice ChoiceTool (Some name)) => truthy name
    | _ => false
    end in
  fst result
  = match anthropicChoice with
    | None => None
    | Some choice =>
        Some (if named then ToolChoiceFunction (default "" (choice_name choice))
              else ToolChoiceAuto)
    end
  /\ warned (snd result)
     = match anthropicChoice with
       | None => false
       | Some choice =>
           match choice_type choice with
           | ChoiceAuto => false
           | ChoiceAny | ChoiceTool => logger && negb named
           end
       end.
Proof.
  cbv zeta. unfold convertAnthropicToolChoiceToOpenAI.
  destruct anthropicChoice as [[[] [name |]] |]; cbn; try (by destruct logger).
  destruct (truthy name); by destruct logger.
Qed.

End ResponseSpec.

(** ** More on the error mapper *)

Module ErrorsExtra.
Import Errors ErrorsSpec.

(** The provider fields of an error payload. *)
Definition providerFields (d : AnthropicErrorDetail)
    : option string * option json * option json :=
  (detail_provider d, detail_provider_message d, detail_provider_code d).

Section WithJSON.

Variable JSON_parse : string -> option json.

Abbreviation mapException := (getAnthropicErrorDetailsFromException JSON_parse).
Abbreviation extractDetails := (extractProviderErrorDetails JSON_parse).

(** The kinds [overloaded_error] and [request_too_large_error] come out
    of the mapper for one input each: an [APIError] of no named subtype
    with status 503, respectively 413. A 503 that arrives as an
    [InternalServerError] is an [api_error]. *)
Theorem overloaded_only_without_subtype (exc : Exception) :
  (errorType (mapException exc) = OVERLOADED
   <-> exc_class exc = GenericAPIError /\ exc_status exc = Some 503%Z)
  /\ (errorType (mapException exc) = REQUEST_TOO_LARGE
      <-> exc_class exc = GenericAPIError /\ exc_status exc = Some 413%Z).
Proof.
  assert (Hgen : exc_class exc = GenericAPIError ->
                 errorType (mapException exc)
                 = match exc_status exc with
                   | Some status => statusKind status
                   | None => API_ERROR
                   end).
  { intros Hc. unfold getAnthropicErrorDetailsFromException. rewrite Hc.
    cbn [isAPIError errorType].
    destruct (exc_status exc) as [status |]; [apply lookupStatus_table | reflexivity]. }
  assert (Hkind : forall status,
            (statusKind status = OVERLOADED <-> status = 503%Z)
            /\ (statusKind status = REQUEST_TOO_LARGE <-> status = 413%Z)).
  { intros status. unfold statusKind.
    repeat match goal with
           | |- context [(status =? ?k)%Z] =>
               destruct (Z.eqb_spec status k) as [-> | ?]; [by split; split |]
           end.
    cbn. split; split; (done || lia). }
  destruct (exc_class exc) eqn:Hc;
    try (unfold getAnthropicErrorDetailsFromException; rewrite Hc;
         cbn [isAPIError errorType]; split; split; (done || by intros [? _])).
  rewrite (Hgen eq_refl).
  destruct (exc_status exc) as [status |].
  - destruct (Hkind status) as [H1 H2]. rewrite H1, H2.
    split; split; (by intros -> || by intros [_ [= ->]]).
  - split; split; (done || by intros [_ ?]).
Qed.

(** Provider details are extracted only from error details that hold an
    object [metadata] with a string [provider_name] that is not empty,
    and that name is returned; a [raw] payload that is a string is never
    lost: it is returned parsed, or, when it does not parse, whole under
    [raw_string_parse_failed]. *)
Theorem provider_details_extracted (details : json) (p : ProviderErrorMetadata) :
  extractDetails (Some details) = Some p ->
  exists metadata,
    get details "metadata" = Some metadata
    /\ get metadata "provider_name" = Some (JString (provider_name p))
    /\ provider_name p <> ""
    /\ forall rawErrorStr,
         get metadata "raw" = Some (JString rawErrorStr) ->
         raw_error p
         = Some (default (JObject [("raw_string_parse_failed", JString rawErrorStr)])
                   (JSON_parse rawErrorStr)).
Proof.
  unfold extractProviderErrorDetails.
  destruct (is_object details); [| done].
  destruct (get details "metadata") as [metadata |]; [| done].
  destruct (is_object metadata); [| done].
  destruct (get metadata "provider_name") as [[| | | providerName | |] |] eqn:Hp;
    try done.
  destruct (truthy providerName) eqn:Hn; [| done].
  intros [= <-]. exists metadata. cbn [provider_name raw_error].
  split_and!; [done | done | by apply truthy_nonempty |].
  intros rawErrorStr ->. by destruct (JSON_parse rawErrorStr).
Qed.

End WithJSON.

(** The error event of a stream and the body of an HTTP error reply
    carry the same payload: for the same kind, message and provider
    details the event is the frame around the serialised body. *)
Theorem error_event_carries_reply_body
    (JSON_stringify_error : AnthropicErrorDetail -> string)
    (kind : AnthropicErrorType) (message : string) (statusCode : Z)
    (providerDetails : option ProviderErrorMetadata) :
  let reply := buildAnthropicErrorResponse kind message statusCode providerDetails in
  formatAnthropicErrorSSEEvent JSON_stringify_error kind message providerDetails
  = "event: error" +:+ LF +:+ "data: " +:+ JSON_stringify_error (snd reply) +:+ LF +:+ LF
  /\ fst reply = statusCode
  /\ detail_type (snd reply) = kind
  /\ detail_message (snd reply) = message
  /\ providerFields (snd (buildAnthropicErrorResponse kind message statusCode None))
     = (None, None, None).
Proof.
  cbv zeta. split_and!; try reflexivity.
  - unfold buildAnthropicErrorResponse. cbn [snd].
    destruct providerDetails as [d |]; [| reflexivity].
    by destruct (match raw_error d with Some _ => _ | None => _ end).
  - unfold buildAnthropicErrorResponse. cbn [snd].
    destruct providerDetails as [d |]; [| reflexivity].
    by destruct (match raw_error d with Some _ => _ | None => _ end).
Qed.

End ErrorsExtra.

(** ** More on the streaming translator *)

Module StreamingExtra.
Import Streaming StreamingSpec.

(** The first choice of a chunk ends the loop. *)
Definition terminal (choice : ChunkChoice) : bool :=
  truthy_opt (chunk_finish_reason choice).

(** The text payloads of the events, in order. *)
Definition textPayloads (events : list SSEEvent) : list string :=
  flat_map (fun e =>
              match e with
              | ContentBlockDelta _ (TextDelta text) => [text]
              | _ => []
              end) events.

(** The block indices of the text deltas, in order. *)
Definition textDeltaIndices (events : list SSEEvent) : list nat :=
  flat_map (fun e =>
              match e with
              | ContentBlockDelta i (TextDelta _) => [i]
              | _ => []
              end) events.

(** The content delta of a choice, when it is not empty. *)
Definition contentOf (choice : ChunkChoice) : list string :=
  match delta_content (delta choice) with
  | Some text => if truthy text then [text] else []
  | None => []
  end.

(** The content deltas of a stream up to the chunk that ends the loop. *)
Fixpoint streamTexts (chunks : list ChatCompletionChunk) : list string :=
  match chunks with
  | [] => []
  | chunk :: rest =>
      match chunk_choices chunk with
      | [] => streamTexts rest
      | choice :: _ =>
          contentOf choice ++ (if terminal choice then [] else streamTexts rest)
      end
  end.

(** The tool-call deltas of a stream up to the chunk that ends the loop,
    in the order in which the loop meets them. *)
Fixpoint streamToolDeltas (chunks : list ChatCompletionChunk) : list ToolCallDelta :=
  match chunks with
  | [] => []
  | chunk :: rest =>
      match chunk_choices chunk with
      | [] => streamToolDeltas rest
      | choice :: _ =>
          default [] (delta_tool_calls (delta choice))
          ++ (if terminal choice then [] else streamToolDeltas rest)
      end
  end.

Section WithCollaborators.

Variable countTokens : string -> nat.
Variable JSON_parse : string -> option json.
Variable requestId : string.

Abbreviation encoder := (neverThrows countTokens).
Abbreviation contentStep := (contentStep countTokens).
Abbreviation assignToolBlock := (assignToolBlock requestId).
Abbreviation accumulated := (accumulated countTokens).
Abbreviation handleToolCallDelta := (handleToolCallDelta encoder requestId).
Abbreviation handleToolCallDeltas := (handleToolCallDeltas encoder requestId).
Abbreviation consume := (consume encoder requestId).
Abbreviation finalize := (finalize JSON_parse).
Abbreviation initialState := (initialState requestId).
Abbreviation handleStream :=
  (handleAnthropicStreamingResponseFromOpenAIStream encoder JSON_parse requestId).
Abbreviation Reachable := (Reachable countTokens requestId).
Abbreviation reach_contentStep := (reach_contentStep countTokens requestId).
Abbreviation consume_nil := (consume_nil countTokens requestId).
Abbreviation consume_Chunk := (consume_Chunk countTokens requestId).
Abbreviation handleToolCallDelta_eq := (handleToolCallDelta_eq countTokens requestId).

(** The tokens of a stream up to the chunk that ends the loop: those of
    the content deltas and of the arguments fragments. *)
Definition tokensOf (texts : list string) : nat := sum_list (map countTokens texts).

Definition streamTokens (chunks : list ChatCompletionChunk) : nat :=
  tokensOf (streamTexts chunks) + tokensOf (flat_map fragment (streamToolDeltas chunks)).

(** *** After the chunk that ends the loop *)

Lemma terminal_finish choice :
  terminal choice = true <->
  exists r, chunk_finish_reason choice = Some r /\ truthy r = true.
Proof.
  unfold terminal, truthy_opt. destruct (chunk_finish_reason choice) as [r |].
  - split; [by exists r | by intros (? & [= <-] & ?)].
  - split; [done | by intros (? & ? & ?)].
Qed.

Lemma consume_after_terminal (chunks : list ChatCompletionChunk) rest st :
  terminalFinishReason chunks <> None ->
  consume (map Chunk chunks ++ rest) st = consume (map Chunk chunks) st.
Proof.
  revert st. induction chunks as [| chunk chunks IH]; intros st; [done |].
  cbn [map app terminalFinishReason]; rewrite ?consume_nil, ?consume_Chunk.
  destruct (chunk_choices chunk) as [| choice _]; [apply IH |].
  intros Ht.
  destruct (handleToolCallDeltas _ _) as [st2 | st2 m]; [| reflexivity].
  destruct (chunk_finish_reason choice) as [r |]; [| by apply IH].
  destruct (truthy r); [reflexivity | by apply IH].
Qed.

Lemma consume_before_terminal (chunks : list ChatCompletionChunk) rest st st' :
  terminalFinishReason chunks = None ->
  consume (map Chunk chunks) st = Normal st' ->
  consume (map Chunk chunks ++ rest) st = consume rest st'.
Proof.
  revert st. induction chunks as [| chunk chunks IH]; intros st.
  { by intros _ [= <-]. }
  cbn [map app terminalFinishReason]; rewrite ?consume_nil, ?consume_Chunk.
  destruct (chunk_choices chunk) as [| choice _]; [apply IH |].
  destruct (handleToolCallDeltas _ _) as [st2 | st2 m]; [| done].
  destruct (chunk_finish_reason choice) as [r |]; [| by apply IH].
  destruct (truthy r); [done | by apply IH].
Qed.

(** Once a chunk carries a finish reason, nothing that follows it in the
    stream is read: neither chunks nor a failure of the stream change
    the events, the log or the counters. *)
Theorem nothing_read_after_finish_reason (chunks : list ChatCompletionChunk)
    (rest : list StreamItem) (model : string) (tokens : nat) (uuid8 : string) :
  terminalFinishReason chunks <> None ->
  handleStream (map Chunk chunks ++ rest) model tokens uuid8
  = handleStream (map Chunk chunks) model tokens uuid8.
Proof.
  intros Ht. unfold handleAnthropicStreamingResponseFromOpenAIStream.
  by rewrite consume_after_terminal.
Qed.

(** A failure of the stream before any finish reason: the events written
    so far are followed by one [Error] event with the message of the
    failure and nothing else; the blocks that were started are not
    stopped, and neither [MessageDelta] nor [MessageStop] is written.
    Without the failure the same events are followed by the stops and the
    two final events. *)
Theorem stream_failure_leaves_blocks_open (chunks : list ChatCompletionChunk)
    (message : string) (rest : list StreamItem)
    (model : string) (tokens : nat) (uuid8 : string) :
  terminalFinishReason chunks = None ->
  exists body stopReason outputTokens,
    written (handleStream (map Chunk chunks ++ StreamError message :: rest)
               model tokens uuid8)
    = written (initialState model tokens uuid8) ++ body
      ++ [ErrorEvent API_ERROR message]
    /\ written (handleStream (map Chunk chunks) model tokens uuid8)
       = written (initialState model tokens uuid8) ++ body
         ++ map ContentBlockStop (textStarts body ++ toolStarts body)
         ++ [MessageDelta stopReason outputTokens; MessageStop]
    /\ Forall isBlockEvent body
    /\ stops body = []
    /\ finalAnthropicStopReason
         (handleStream (map Chunk chunks ++ StreamError message :: rest)
            model tokens uuid8)
       = Some error.
Proof.
  intros Ht.
  destruct (stream_events countTokens JSON_parse requestId chunks model tokens uuid8)
    as (st & body & Hc & HI & Hb & Fb & Hw).
  exists body, (default end_turn (finalAnthropicStopReason st)), (outputTokenCount st).
  pose proof (inv_tool_starts st HI) as Htool.
  pose proof (inv_text_starts st HI) as Htext.
  pose proof (inv_no_stop st HI) as Hstop.
  rewrite Hb in Htool, Htext, Hstop.
  unfold toolStarts, textStarts, stops in *.
  rewrite omap_app in Htool, Htext, Hstop.
  cbn [Streaming.initialState written omap list_omap toolStartIndex
    textStartIndex stopIndex app] in Htool, Htext, Hstop.
  unfold handleAnthropicStreamingResponseFromOpenAIStream in *.
  rewrite (consume_before_terminal chunks _ _ st Ht Hc).
  cbn [Streaming.consume logRecord interrupted writeSSE written finalAnthropicStopReason].
  split_and!; [by rewrite Hb, <- app_assoc | | done | done | done].
  rewrite Hw, Hb, Htool, Htext, <- !app_assoc. reflexivity.
Qed.

(** *** Text and tokens *)

(** The text deltas written so far all carry the index of the text
    block. *)
Definition textIndexed (st : StreamState) : Prop :=
  Forall (fun i => textBlockAnthropicIdx st = Some i) (textDeltaIndices (written st)).

Lemma textPayloads_app l1 l2 : textPayloads (l1 ++ l2) = textPayloads l1 ++ textPayloads l2.
Proof. apply flat_map_app. Qed.

Lemma textDeltaIndices_app l1 l2 :
  textDeltaIndices (l1 ++ l2) = textDeltaIndices l1 ++ textDeltaIndices l2.
Proof. apply flat_map_app. Qed.

Lemma tokensOf_app l1 l2 : tokensOf (l1 ++ l2) = tokensOf l1 + tokensOf l2.
Proof.
  unfold tokensOf. induction l1 as [| x l1 IH]; [reflexivity |].
  cbn. rewrite IH. lia.
Qed.

Lemma handleContentDelta_effect choice st :
  let st' := contentStep (delta_content (delta choice)) st in
  textPayloads (written st') = textPayloads (written st) ++ contentOf choice
  /\ outputTokenCount st' = outputTokenCount st + tokensOf (contentOf choice)
  /\ (textIndexed st -> textIndexed st').
Proof.
  cbv zeta. unfold StreamingSpec.contentStep, contentOf, textIndexed, tokensOf.
  destruct (delta_content (delta choice)) as [text |];
    [| cbn; by rewrite app_nil_r, Nat.add_0_r].
  destruct (truthy text); [| cbn; by rewrite app_nil_r, Nat.add_0_r].
  destruct (textBlockAnthropicIdx (addOutputTokens (countTokens text) st)) as [idx |] eqn:Ht;
    cbn [writeSSE written outputTokenCount addOutputTokens textBlockAnthropicIdx] in *.
  - rewrite textPayloads_app, textDeltaIndices_app. cbn. rewrite Nat.add_0_r.
    split_and!; [done | done |]. intros H. rewrite Ht in *.
    apply Forall_app. split; [done | by repeat constructor].
  - rewrite !textPayloads_app, !textDeltaIndices_app. cbn.
    rewrite app_nil_r, Nat.add_0_r. split_and!; [done | done |].
    rewrite Ht. intros H. apply Forall_app. split; [| by repeat constructor].
    destruct (textDeltaIndices (written st)) as [| i l]; [constructor |].
    by inversion H.
Qed.

Lemma handleToolCallDelta_effect toolDelta st st' :
  handleToolCallDelta toolDelta st = Normal st' ->
  textPayloads (written st') = textPayloads (written st)
  /\ textDeltaIndices (written st') = textDeltaIndices (written st)
  /\ textBlockAnthropicIdx st' = textBlockAnthropicIdx st
  /\ outputTokenCount st' = outputTokenCount st + tokensOf (fragment toolDelta).
Proof.
  rewrite handleToolCallDelta_eq; cbv zeta.
  assert (H0 : written (assignToolBlock toolDelta st) = written st
               /\ textBlockAnthropicIdx (assignToolBlock toolDelta st)
                  = textBlockAnthropicIdx st
               /\ outputTokenCount (assignToolBlock toolDelta st) = outputTokenCount st).
  { unfold Streaming.assignToolBlock.
    destruct (openaiToolIdxToAnthropicBlockIdx st !! _); [done |].
    by destruct (truthy_opt _). }
  revert H0. generalize (assignToolBlock toolDelta st). intros st1 (Hw & Ht & Ho).
  destruct (openaiToolIdxToAnthropicBlockIdx _ !! _) as [blockIdx |]; [| done].
  destruct (toolStates _ !! blockIdx) as [toolState |]; [| done].
  intros [= <-]. rewrite <- Hw, <- Ht, <- Ho.
  unfold sendToolArgumentsDelta, sendToolBlockStart, StreamingSpec.accumulated,
    fragment, tokensOf.
  destruct (td_arguments toolDelta) as [a |]; [destruct (truthy a) |];
    repeat case_match;
    cbn [writeSSE written outputTokenCount addOutputTokens addSentToolBlockStart
      setToolState logRecord textBlockAnthropicIdx sentToolBlockStarts andb map sum_list];
    rewrite ?textPayloads_app, ?textDeltaIndices_app; cbn;
    rewrite ?app_nil_r, ?Nat.add_0_r; done.
Qed.

Lemma handleToolCallDeltas_effect toolDeltas st st' :
  handleToolCallDeltas toolDeltas st = Normal st' ->
  textPayloads (written st') = textPayloads (written st)
  /\ textDeltaIndices (written st') = textDeltaIndices (written st)
  /\ textBlockAnthropicIdx st' = textBlockAnthropicIdx st
  /\ outputTokenCount st'
     = outputTokenCount st + tokensOf (flat_map fragment toolDeltas).
Proof.
  revert st. induction toolDeltas as [| toolDelta rest IH]; intros st;
    cbn [Streaming.handleToolCallDeltas flat_map].
  { intros [= <-]. unfold tokensOf. cbn. by rewrite Nat.add_0_r. }
  destruct (handleToolCallDelta toolDelta st) as [st1 | st1 m] eqn:H1; [| done].
  intros H2. destruct (IH _ H2) as (-> & -> & -> & ->).
  destruct (handleToolCallDelta_effect _ _ _ H1) as (-> & -> & -> & ->).
  split_and!; try done. rewrite tokensOf_app. lia.
Qed.

Lemma consume_effect (chunks : list ChatCompletionChunk) st st' :
  consume (map Chunk chunks) st = Normal st' ->
  textPayloads (written st') = textPayloads (written st) ++ streamTexts chunks
  /\ outputTokenCount st' = outputTokenCount st + streamTokens chunks
  /\ (textIndexed st -> textIndexed st').
Proof.
  unfold streamTokens.
  revert st. induction chunks as [| chunk chunks IH]; intros st;
    cbn [map streamTexts streamToolDeltas]; rewrite ?consume_nil, ?consume_Chunk.
  { intros [= <-]. unfold tokensOf. cbn. by rewrite app_nil_r, Nat.add_0_r. }
  destruct (chunk_choices chunk) as [| choice _]; [apply IH |].
  destruct (handleContentDelta_effect choice st) as (Hp & Ho & Hi).
  cbv zeta in Hp, Ho, Hi.
  destruct (handleToolCallDeltas _ _) as [st2 | st2 m] eqn:H2; [| done].
  destruct (handleToolCallDeltas_effect _ _ _ H2) as (Hp2 & Hi2 & Ht2 & Ho2).
  assert (Hidx : textIndexed st -> textIndexed st2).
  { intros H. apply Hi in H. unfold textIndexed in *. by rewrite Hi2, Ht2. }
  unfold terminal, truthy_opt.
  destruct (chunk_finish_reason choice) as [r |]; [destruct (truthy r) |].
  - intros [= <-]. cbn [setFinalAnthropicStopReason written outputTokenCount].
    rewrite Hp2, Hp, Ho2, Ho, !app_nil_r. split_and!; [done | | done].
    lia.
  - intros H3. destruct (IH _ H3) as (-> & -> & Hi3).
    rewrite Hp2, Hp, Ho2, Ho, <- app_assoc. split_and!; [done | | by auto].
    rewrite !flat_map_app, !tokensOf_app. lia.
  - intros H3. destruct (IH _ H3) as (-> & -> & Hi3).
    rewrite Hp2, Hp, Ho2, Ho, <- app_assoc. split_and!; [done | | by auto].
    rewrite !flat_map_app, !tokensOf_app. lia.
Qed.

(** With an encoder that returns on every text, the text of the stream
    arrives whole and in order. *)
Lemma text_deltas_when_encoder_returns (chunks : list ChatCompletionChunk)
    (model : string) (tokens : nat) (uuid8 : string) :
  let events := written (handleStream (map Chunk chunks) model tokens uuid8) in
  textPayloads events = streamTexts chunks
  /\ exists idx, Forall (fun i => i = idx) (textDeltaIndices events).
Proof.
  cbv zeta.
  destruct (stream_events countTokens JSON_parse requestId chunks model tokens uuid8)
    as (st & body & Hc & HI & Hb & Fb & Hw).
  destruct (consume_effect chunks _ st Hc) as (Hp & _ & Hi).
  rewrite Hw, !textPayloads_app, !textDeltaIndices_app, Hp.
  assert (Hstops : forall l, textPayloads (map ContentBlockStop l) = []
                             /\ textDeltaIndices (map ContentBlockStop l) = []).
  { induction l as [| x l [IH1 IH2]]; [done |]. split; cbn; done. }
  destruct (Hstops (option_list (textBlockAnthropicIdx st) ++ sentToolBlockStarts st))
    as [-> ->].
  cbn. rewrite !app_nil_r. split; [done |].
  assert (Hidx : textIndexed st) by (apply Hi; constructor).
  unfold textIndexed in Hidx.
  destruct (textBlockAnthropicIdx st) as [t |].
  - exists t. eapply Forall_impl; [exact Hidx |]. by intros i [= ->].
  - exists 0. eapply Forall_impl; [exact Hidx |]. done.
Qed.

(** The output tokens reported at the end count every content delta and
    every arguments fragment that was read, also the fragments that were
    buffered without a [ContentBlockDelta]. *)
Theorem output_tokens_count_everything_read (chunks : list ChatCompletionChunk)
    (model : string) (tokens : nat) (uuid8 : string) :
  exists body stopReason,
    written (handleStream (map Chunk chunks) model tokens uuid8)
    = body ++ [MessageDelta stopReason (streamTokens chunks); MessageStop]
    /\ outputTokenCount (handleStream (map Chunk chunks) model tokens uuid8)
       = streamTokens chunks.
Proof.
  destruct (stream_events countTokens JSON_parse requestId chunks model tokens uuid8)
    as (st & body & Hc & HI & Hb & Fb & Hw).
  destruct (consume_effect chunks _ st Hc) as (_ & Ho & _).
  cbn [Streaming.initialState outputTokenCount] in Ho. cbn in Ho.
  rewrite Hw, Ho.
  eexists (written st ++ map ContentBlockStop _), _.
  split; [by rewrite <- !app_assoc |].
  unfold handleAnthropicStreamingResponseFromOpenAIStream. rewrite Hc.
  cbn [logRecord outputTokenCount]. unfold Streaming.finalize.
  cbn [writeSSE setFinalAnthropicStopReason outputTokenCount].
  destruct (stopToolBlocks_fields JSON_parse
              (sentToolBlockStarts
                 match textBlockAnthropicIdx st with
                 | Some idx => writeSSE (ContentBlockStop idx) st
                 | None => st
                 end)
              match textBlockAnthropicIdx st with
              | Some idx => writeSSE (ContentBlockStop idx) st
              | None => st
              end) as (_ & Ht & _).
  cbv zeta in Ht. rewrite Ht. by destruct (textBlockAnthropicIdx st).
Qed.

(** *** How block indices are handed out *)

Record Alloc (st : StreamState) : Prop := mkAlloc {
  alloc_inj : forall k1 k2 v,
    openaiToolIdxToAnthropicBlockIdx st !! k1 = Some v ->
    openaiToolIdxToAnthropicBlockIdx st !! k2 = Some v -> k1 = k2;
  alloc_next :
    nextAnthropicBlockIdx st
    = length (option_list (textBlockAnthropicIdx st))
      + size (openaiToolIdxToAnthropicBlockIdx st);
  alloc_used : forall i,
    i < nextAnthropicBlockIdx st ->
    textBlockAnthropicIdx st = Some i
    \/ exists k, openaiToolIdxToAnthropicBlockIdx st !! k = Some i
}.

Lemma assignToolBlock_fields toolDelta st :
  let st1 := assignToolBlock toolDelta st in
  textBlockAnthropicIdx st1 = textBlockAnthropicIdx st
  /\ sentToolBlockStarts st1 = sentToolBlockStarts st
  /\ written st1 = written st
  /\ match openaiToolIdxToAnthropicBlockIdx st !! td_index toolDelta with
     | Some _ => st1 = st
     | None =>
         nextAnthropicBlockIdx st1 = nextAnthropicBlockIdx st + 1
         /\ openaiToolIdxToAnthropicBlockIdx st1
            = <[td_index toolDelta := nextAnthropicBlockIdx st]>
                (openaiToolIdxToAnthropicBlockIdx st)
         /\ exists id,
              toolStates st1
              = <[nextAnthropicBlockIdx st := mkToolState id "" ""]> (toolStates st)
     end.
Proof.
  cbv zeta. unfold Streaming.assignToolBlock.
  destruct (openaiToolIdxToAnthropicBlockIdx st !! td_index toolDelta); [done |].
  destruct (truthy_opt (td_id toolDelta)); cbn; split_and!; try done; by eexists.
Qed.

(** What a tool-call delta changes, once the block of the delta and the
    state of that block are found. *)
Lemma handleToolCallDelta_fields toolDelta st st' :
  handleToolCallDelta toolDelta st = Normal st' ->
  let st1 := assignToolBlock toolDelta st in
  exists blockIdx old,
    openaiToolIdxToAnthropicBlockIdx st1 !! td_index toolDelta = Some blockIdx
    /\ toolStates st1 !! blockIdx = Some old
    /\ nextAnthropicBlockIdx st' = nextAnthropicBlockIdx st1
    /\ textBlockAnthropicIdx st' = textBlockAnthropicIdx st1
    /\ openaiToolIdxToAnthropicBlockIdx st' = openaiToolIdxToAnthropicBlockIdx st1
    /\ toolStates st' = <[blockIdx := updatedToolState toolDelta old]> (toolStates st1)
    /\ exists starts,
         written st'
         = written st ++ starts
           ++ (if bool_decide (blockIdx ∈ sentToolBlockStarts st')
               then map (fun a => ContentBlockDelta blockIdx (InputJsonDelta a))
                      (fragment toolDelta)
               else [])
         /\ Forall (fun e => exists seed, e = ContentBlockStart blockIdx seed) starts.
Proof.
  cbv zeta. rewrite handleToolCallDelta_eq; cbv zeta.
  destruct (assignToolBlock_fields toolDelta st) as (_ & _ & Hw & _). cbv zeta in Hw.
  revert Hw. generalize (assignToolBlock toolDelta st). intros st1 Hw.
  destruct (openaiToolIdxToAnthropicBlockIdx st1 !! _) as [blockIdx |] eqn:Hk; [| done].
  destruct (toolStates st1 !! blockIdx) as [old |] eqn:Hold; [| done].
  intros [= <-]. exists blockIdx, old. rewrite <- Hw.
  assert (Hacc :
    let st2 := accumulated blockIdx toolDelta old st1 in
    nextAnthropicBlockIdx st2 = nextAnthropicBlockIdx st1
    /\ textBlockAnthropicIdx st2 = textBlockAnthropicIdx st1
    /\ openaiToolIdxToAnthropicBlockIdx st2 = openaiToolIdxToAnthropicBlockIdx st1
    /\ toolStates st2 = <[blockIdx := updatedToolState toolDelta old]> (toolStates st1)
    /\ written st2 = written st1).
  { unfold StreamingSpec.accumulated.
    destruct (_ && _); destruct (td_arguments toolDelta) as [a |];
      try destruct (truthy a); done. }
  cbv zeta in Hacc. revert Hacc.
  generalize (accumulated blockIdx toolDelta old st1).
  intros st2 (En2 & Et2 & Em2 & Es2 & Ew2).
  generalize (updatedToolState toolDelta old) Es2. clear Es2. intros toolState Es2.
  assert (H3 :
    let st3 := sendToolBlockStart blockIdx toolState st2 in
    nextAnthropicBlockIdx st3 = nextAnthropicBlockIdx st2
    /\ textBlockAnthropicIdx st3 = textBlockAnthropicIdx st2
    /\ openaiToolIdxToAnthropicBlockIdx st3 = openaiToolIdxToAnthropicBlockIdx st2
    /\ toolStates st3 = toolStates st2
    /\ exists starts, written st3 = written st2 ++ starts
         /\ Forall (fun e => exists seed, e = ContentBlockStart blockIdx seed) starts).
  { unfold sendToolBlockStart. destruct (_ && _).
    - split_and!; try done. eexists [_]. split; [done |]. repeat constructor. by eexists.
    - split_and!; try done. exists []. by rewrite app_nil_r. }
  cbv zeta in H3. revert H3.
  generalize (sendToolBlockStart blockIdx toolState st2).
  intros st3 (En3 & Et3 & Em3 & Es3 & starts & Hs & Fs).
  assert (H4 :
    let st4 := sendToolArgumentsDelta blockIdx toolDelta st3 in
    nextAnthropicBlockIdx st4 = nextAnthropicBlockIdx st3
    /\ textBlockAnthropicIdx st4 = textBlockAnthropicIdx st3
    /\ openaiToolIdxToAnthropicBlockIdx st4 = openaiToolIdxToAnthropicBlockIdx st3
    /\ toolStates st4 = toolStates st3
    /\ sentToolBlockStarts st4 = sentToolBlockStarts st3
    /\ written st4
       = written st3
         ++ (if bool_decide (blockIdx ∈ sentToolBlockStarts st3)
             then map (fun a => ContentBlockDelta blockIdx (InputJsonDelta a))
                    (fragment toolDelta)
             else [])).
  { unfold sendToolArgumentsDelta, fragment.
    destruct (td_arguments toolDelta) as [a |].
    - destruct (truthy a); cbn [andb].
      + by destruct (bool_decide (blockIdx ∈ sentToolBlockStarts st3)); rewrite ?app_nil_r.
      + by destruct (bool_decide _); rewrite app_nil_r.
    - by destruct (bool_decide _); rewrite app_nil_r. }
  cbv zeta in H4. revert H4.
  generalize (sendToolArgumentsDelta blockIdx toolDelta st3).
  intros st4 (En4 & Et4 & Em4 & Es4 & Ess4 & Ew4).
  split_and!; try congruence.
  exists starts. split; [| done].
  rewrite Ew4, Ess4, Hs, Ew2, <- app_assoc. done.
Qed.

Lemma Alloc_handleContentDelta content st :
  Alloc st -> Alloc (contentStep content st).
Proof.
  intros [Hinj Hnext Hused]. unfold StreamingSpec.contentStep.
  destruct content as [text |]; [| by constructor].
  destruct (truthy text); [| by constructor].
  destruct (textBlockAnthropicIdx (addOutputTokens (countTokens text) st)) as [idx |] eqn:Ht;
    cbn [addOutputTokens textBlockAnthropicIdx] in Ht.
  { by constructor. }
  constructor; cbn [writeSSE addOutputTokens nextAnthropicBlockIdx textBlockAnthropicIdx
    openaiToolIdxToAnthropicBlockIdx].
  - exact Hinj.
  - rewrite Hnext, Ht. cbn. lia.
  - intros i Hi. destruct (decide (i = nextAnthropicBlockIdx st)) as [-> | Hne]; [by left |].
    destruct (Hused i) as [Hi' | Hi']; [lia | congruence | by right].
Qed.

Lemma Alloc_handleToolCallDelta toolDelta st st' :
  Inv st -> Alloc st -> handleToolCallDelta toolDelta st = Normal st' -> Alloc st'.
Proof.
  intros HI [Hinj Hnext Hused] Hstep.
  destruct (handleToolCallDelta_fields _ _ _ Hstep)
    as (blockIdx & old & _ & _ & En & Et & Em & _).
  destruct (assignToolBlock_fields toolDelta st) as (Et1 & _ & _ & Hk).
  cbv zeta in *.
  destruct (openaiToolIdxToAnthropicBlockIdx st !! td_index toolDelta) as [v |] eqn:Hkv.
  { rewrite Hk in *. constructor; rewrite ?En, ?Et, ?Em; done. }
  destruct Hk as (En1 & Em1 & _).
  constructor; rewrite ?En, ?Et, ?Em, ?En1, ?Et1, ?Em1.
  - intros k1 k2 v. rewrite !lookup_insert.
    repeat case_decide; subst; try done.
    + intros [= <-] H2. apply (inv_map st HI) in H2 as [? _]. lia.
    + intros H1 [= <-]. apply (inv_map st HI) in H1 as [? _]. lia.
    + apply Hinj.
  - rewrite map_size_insert_None by done. rewrite Hnext. lia.
  - intros i Hi. destruct (decide (i = nextAnthropicBlockIdx st)) as [-> | Hne].
    + right. exists (td_index toolDelta). by rewrite lookup_insert_eq.
    + destruct (Hused i) as [Hi' | [k Hi']]; [lia | by left |].
      right. exists k. rewrite lookup_insert_ne; [done |]. intros <-. congruence.
Qed.

Lemma Reachable_Alloc st : Reachable st -> Alloc st.
Proof.
  induction 1 as [model tokens uuid8 | content st st' _ IH Hstep
                  | toolDelta st st' HR IH Hstep | r st _ IH].
  - constructor; cbn; [by intros ? ? ? ? | done | intros i Hi; lia].
  - rewrite (handleContentDelta_returns countTokens) in Hstep. injection Hstep as <-.
    by apply Alloc_handleContentDelta.
  - eapply Alloc_handleToolCallDelta; [| exact IH | exact Hstep].
    by eapply Reachable_Inv.
  - destruct IH. by constructor.
Qed.

(** In every state the translator reaches, the block indices in use are
    exactly the numbers below the next free index: the index of the text
    block, if it is open, and one index per tool-call index of the
    backend; two tool-call indices never share a block, and no tool block
    shares the index of the text block. *)
Theorem block_indices_are_consecutive (st : StreamState) (i : nat) :
  Reachable st ->
  (i < nextAnthropicBlockIdx st
   <-> textBlockAnthropicIdx st = Some i
       \/ exists k, openaiToolIdxToAnthropicBlockIdx st !! k = Some i)
  /\ nextAnthropicBlockIdx st
     = length (option_list (textBlockAnthropicIdx st))
       + size (openaiToolIdxToAnthropicBlockIdx st)
  /\ (forall k1 k2,
        openaiToolIdxToAnthropicBlockIdx st !! k1 = Some i ->
        openaiToolIdxToAnthropicBlockIdx st !! k2 = Some i -> k1 = k2)
  /\ (forall k,
        openaiToolIdxToAnthropicBlockIdx st !! k = Some i ->
        textBlockAnthropicIdx st <> Some i).
Proof.
  intros HR. pose proof (Reachable_Inv _ _ st HR) as HI.
  destruct (Reachable_Alloc st HR) as [Hinj Hnext Hused].
  split_and!.
  - split; [apply Hused |]. intros [Ht | [k Hk]].
    + by apply (inv_text st HI).
    + by apply (inv_map st HI) in Hk as [? _].
  - exact Hnext.
  - intros k1 k2. apply Hinj.
  - intros k Hk. by apply (inv_map st HI) in Hk as (_ & ? & _).
Qed.

(** *** The arguments buffer of a tool block *)

(** The arguments fragments of the tool-call deltas with one tool-call
    index, in order. *)
Definition fragmentsOf (k : nat) (toolDeltas : list ToolCallDelta) : list string :=
  flat_map fragment (filter (fun toolDelta => td_index toolDelta = k) toolDeltas).

(** The [partial_json] payloads of the events of one block, in order. *)
Definition jsonPayloads (blockIdx : nat) (events : list SSEEvent) : list string :=
  flat_map (fun e =>
              match e with
              | ContentBlockDelta i (InputJsonDelta a) =>
                  if decide (i = blockIdx) then [a] else []
              | _ => []
              end) events.

(** [+=] over the fragments, from the empty buffer. *)
Definition joined (fragments : list string) : string :=
  fold_left String.append fragments "".

(** The buffers and the payloads after the tool-call deltas [history]. *)
Definition Buffered (history : list ToolCallDelta) (st : StreamState) : Prop :=
  forall k,
    match openaiToolIdxToAnthropicBlockIdx st !! k with
    | Some blockIdx =>
        exists toolState unsent,
          toolStates st !! blockIdx = Some toolState
          /\ ts_arguments_buffer toolState = joined (fragmentsOf k history)
          /\ fragmentsOf k history = unsent ++ jsonPayloads blockIdx (written st)
    | None => filter (fun toolDelta => td_index toolDelta = k) history = []
    end.

Lemma jsonPayloads_app blockIdx l1 l2 :
  jsonPayloads blockIdx (l1 ++ l2) = jsonPayloads blockIdx l1 ++ jsonPayloads blockIdx l2.
Proof. apply flat_map_app. Qed.

Lemma jsonPayloads_about blockIdx l :
  jsonPayloads blockIdx l = jsonPayloads blockIdx (filter (about blockIdx) l).
Proof.
  induction l as [| e l IH]; [done |].
  rewrite filter_cons. change (e :: l) with ([e] ++ l). rewrite jsonPayloads_app, IH.
  destruct (decide (about blockIdx e)) as [Ha | Ha].
  { unfold jsonPayloads. cbn [flat_map]. by rewrite app_nil_r. }
  destruct e as [| | | i [t | a] | | | |]; try done.
  cbn. destruct (decide (i = blockIdx)) as [-> |]; [| done]. by destruct Ha.
Qed.

Lemma jsonPayloads_unopened st blockIdx :
  Inv st -> ~ opened st blockIdx -> jsonPayloads blockIdx (written st) = [].
Proof.
  intros HI Hno. rewrite jsonPayloads_about. by rewrite (inv_unused st HI).
Qed.

Lemma jsonPayloads_starts blockIdx b l :
  Forall (fun e => exists seed, e = ContentBlockStart b seed) l ->
  jsonPayloads blockIdx l = [].
Proof. induction 1 as [| e l [seed ->] _ IH]; [done | exact IH]. Qed.

Lemma jsonPayloads_deltas blockIdx b fragments :
  jsonPayloads blockIdx
    (map (fun a => ContentBlockDelta b (InputJsonDelta a)) fragments)
  = if decide (b = blockIdx) then fragments else [].
Proof.
  induction fragments as [| a l IH]; [by destruct (decide _) |].
  cbn. unfold jsonPayloads in IH. rewrite IH. by destruct (decide (b = blockIdx)).
Qed.

Lemma fragmentsOf_snoc k history toolDelta :
  fragmentsOf k (history ++ [toolDelta])
  = fragmentsOf k history
    ++ (if decide (td_index toolDelta = k) then fragment toolDelta else []).
Proof.
  unfold fragmentsOf. rewrite filter_app, flat_map_app. f_equal.
  rewrite filter_cons, filter_nil. destruct (decide _); cbn; by rewrite ?app_nil_r.
Qed.

Lemma Buffered_initialState model tokens uuid8 :
  Buffered [] (initialState model tokens uuid8).
Proof. intros k. cbn. by rewrite lookup_empty. Qed.

Lemma Buffered_handleContentDelta history content st :
  Buffered history st -> Buffered history (contentStep content st).
Proof.
  intros HB. unfold StreamingSpec.contentStep.
  destruct content as [text |]; [| exact HB].
  destruct (truthy text); [| exact HB].
  intros k. specialize (HB k).
  destruct (textBlockAnthropicIdx (addOutputTokens (countTokens text) st));
    cbn [writeSSE addOutputTokens openaiToolIdxToAnthropicBlockIdx toolStates written]
      in *;
    destruct (openaiToolIdxToAnthropicBlockIdx st !! k) as [blockIdx |]; try done;
    destruct HB as (toolState & unsent & Hs & Hb & Hf);
    exists toolState, unsent; rewrite !jsonPayloads_app; cbn; by rewrite ?app_nil_r.
Qed.

Lemma Buffered_handleToolCallDelta history toolDelta st st' :
  Reachable st -> Buffered history st ->
  handleToolCallDelta toolDelta st = Normal st' ->
  Buffered (history ++ [toolDelta]) st'.
Proof.
  intros HR HB Hstep.
  pose proof (Reachable_Inv _ _ st HR) as HI.
  assert (HR' : Reachable st') by (by eapply reach_tool).
  pose proof (Reachable_Inv _ _ st' HR') as HI'.
  destruct (Reachable_Alloc st' HR') as [Hinj' _ _].
  destruct (handleToolCallDelta_fields _ _ _ Hstep)
    as (v & old & Hk1 & Hold1 & _ & _ & Em & Es & starts & Hw & Fs).
  destruct (assignToolBlock_fields toolDelta st) as (_ & _ & _ & Hcase).
  cbv zeta in *.
  assert (Hkv' : openaiToolIdxToAnthropicBlockIdx st' !! td_index toolDelta = Some v)
    by (by rewrite Em).
  (* the block of this delta before the delta *)
  assert (Hprev :
    ts_arguments_buffer old = joined (fragmentsOf (td_index toolDelta) history)
    /\ (exists unsent,
          fragmentsOf (td_index toolDelta) history
          = unsent ++ jsonPayloads v (written st))
    /\ (forall k, k <> td_index toolDelta ->
          openaiToolIdxToAnthropicBlockIdx st' !! k
          = openaiToolIdxToAnthropicBlockIdx st !! k)
    /\ (forall v', v' <> v -> toolStates st' !! v' = toolStates st !! v')).
  { pose proof (HB (td_index toolDelta)) as HBk.
    destruct (openaiToolIdxToAnthropicBlockIdx st !! td_index toolDelta)
      as [v0 |] eqn:Hkv.
    - rewrite Hcase in *. rewrite Hkv in Hk1. injection Hk1 as ->.
      destruct HBk as (toolState & unsent & Hs & Hb & Hf).
      rewrite Hold1 in Hs. injection Hs as <-.
      split_and!; [done | by exists unsent | by intros k _; rewrite Em |].
      intros v' Hv'. by rewrite Es, lookup_insert_ne.
    - destruct Hcase as (_ & Em1 & id & Es1).
      rewrite Em1, lookup_insert_eq in Hk1. injection Hk1 as <-.
      rewrite Es1, lookup_insert_eq in Hold1. injection Hold1 as <-.
      unfold fragmentsOf. rewrite HBk. cbn [flat_map ts_arguments_buffer].
      split_and!; [done | | |].
      + exists []. by rewrite (jsonPayloads_unopened st _ HI (next_unused st HI)).
      + intros k Hk. by rewrite Em, Em1, lookup_insert_ne.
      + intros v' Hv'. by rewrite Es, Es1, !lookup_insert_ne. }
  destruct Hprev as (Hbuf & (unsent & Hsent) & Hmap & Hstates).
  intros k. rewrite fragmentsOf_snoc.
  destruct (decide (td_index toolDelta = k)) as [<- | Hne].
  - rewrite Hkv'. rewrite Es, lookup_insert_eq.
    destruct (bool_decide (v ∈ sentToolBlockStarts st')) eqn:Hin.
    + exists (updatedToolState toolDelta old), unsent. split_and!; [done | |].
      * rewrite updatedBuffer_fragment, Hbuf. unfold joined. by rewrite fold_left_app.
      * rewrite Hw, !jsonPayloads_app, (jsonPayloads_starts _ _ _ Fs),
          jsonPayloads_deltas, decide_True by done.
        cbn [app]. by rewrite Hsent, <- app_assoc.
    + exists (updatedToolState toolDelta old),
        (fragmentsOf (td_index toolDelta) history ++ fragment toolDelta).
      split_and!; [done | |].
      * rewrite updatedBuffer_fragment, Hbuf. unfold joined. by rewrite fold_left_app.
      * rewrite (jsonPayloads_unopened st' v HI'); [by rewrite app_nil_r |].
        apply bool_decide_eq_false in Hin. intros [Ht | Hs]; [| done].
        by apply (inv_map st' HI') in Hkv' as (_ & ? & _).
  - rewrite app_nil_r. rewrite Hmap by done. specialize (HB k).
    destruct (openaiToolIdxToAnthropicBlockIdx st !! k) as [v' |] eqn:Hkv.
    + assert (Hv' : v' <> v).
      { intros ->. apply Hne. apply (Hinj' _ _ v); [done |]. by rewrite Hmap. }
      rewrite Hstates by done.
      destruct HB as (toolState & unsent' & Hs & Hb & Hf).
      exists toolState, unsent'. split_and!; [done | done |].
      rewrite Hw, !jsonPayloads_app, (jsonPayloads_starts _ _ _ Fs).
      destruct (bool_decide _); [| by rewrite !app_nil_r].
      rewrite jsonPayloads_deltas, decide_False by done. by rewrite !app_nil_r.
    + rewrite filter_app, HB, filter_cons, filter_nil.
      by rewrite decide_False by done.
Qed.

Lemma Buffered_handleToolCallDeltas toolDeltas history st st' :
  Reachable st -> Buffered history st ->
  handleToolCallDeltas toolDeltas st = Normal st' ->
  Buffered (history ++ toolDeltas) st'.
Proof.
  revert history st. induction toolDeltas as [| toolDelta rest IH]; intros history st HR HB;
    cbn [Streaming.handleToolCallDeltas].
  { intros [= <-]. by rewrite app_nil_r. }
  destruct (handleToolCallDelta toolDelta st) as [st1 | st1 m] eqn:H1; [| done].
  intros H2. change (toolDelta :: rest) with ([toolDelta] ++ rest). rewrite app_assoc.
  eapply IH; [| | exact H2].
  - by eapply reach_tool.
  - by eapply Buffered_handleToolCallDelta.
Qed.

Lemma Buffered_consume (chunks : list ChatCompletionChunk) history st st' :
  Reachable st -> Buffered history st ->
  consume (map Chunk chunks) st = Normal st' ->
  Buffered (history ++ streamToolDeltas chunks) st'.
Proof.
  revert history st. induction chunks as [| chunk chunks IH]; intros history st HR HB;
    cbn [map streamToolDeltas]; rewrite ?consume_nil, ?consume_Chunk.
  { intros [= <-]. by rewrite app_nil_r. }
  destruct (chunk_choices chunk) as [| choice _]; [by apply IH |].
  destruct (handleToolCallDeltas _ _) as [st2 | st2 m] eqn:H2; [| done].
  assert (HR1 : Reachable (contentStep (delta_content (delta choice)) st))
    by (by apply reach_contentStep).
  pose proof (Reachable_handleToolCallDeltas _ _ _ _ _ HR1 H2) as HR2.
  pose proof (Buffered_handleToolCallDeltas _ _ _ _ HR1
                (Buffered_handleContentDelta _ _ _ HB) H2) as HB2.
  rewrite app_assoc. unfold terminal, truthy_opt.
  destruct (chunk_finish_reason choice) as [r |]; [destruct (truthy r) |].
  - intros [= <-]. by rewrite app_nil_r.
  - by apply IH.
  - by apply IH.
Qed.

Lemma finalize_tables st :
  openaiToolIdxToAnthropicBlockIdx (finalize st) = openaiToolIdxToAnthropicBlockIdx st
  /\ toolStates (finalize st) = toolStates st.
Proof.
  unfold Streaming.finalize.
  cbn [writeSSE setFinalAnthropicStopReason openaiToolIdxToAnthropicBlockIdx toolStates].
  generalize (sentToolBlockStarts
                match textBlockAnthropicIdx st with
                | Some idx => writeSSE (ContentBlockStop idx) st
                | None => st
                end).
  intros blocks.
  assert (H0 : openaiToolIdxToAnthropicBlockIdx
                 match textBlockAnthropicIdx st with
                 | Some idx => writeSSE (ContentBlockStop idx) st
                 | None => st
                 end = openaiToolIdxToAnthropicBlockIdx st
               /\ toolStates
                    match textBlockAnthropicIdx st with
                    | Some idx => writeSSE (ContentBlockStop idx) st
                    | None => st
                    end = toolStates st)
    by (by destruct (textBlockAnthropicIdx st)).
  revert H0.
  generalize (match textBlockAnthropicIdx st with
              | Some idx => writeSSE (ContentBlockStop idx) st
              | None => st
              end).
  induction blocks as [| b blocks IH]; intros st0 H0; [exact H0 |].
  cbn [fold_left]. apply IH. unfold Streaming.stopToolBlock.
  destruct (toolStates st0 !! b) as [toolState |]; [destruct (JSON_parse _) |]; exact H0.
Qed.

(** At the end of a stream that did not fail, the arguments buffer of the
    block of a tool-call index is the concatenation, in order, of all the
    non-empty arguments fragments that were read for this index, and the
    [partial_json] payloads written for the block are the last of these
    fragments, one event for each and in the same order: what is missing
    from the events is a prefix of the arguments. A tool-call index has a
    block as soon as one tool-call delta with this index was read. *)
Theorem arguments_buffer_collects_fragments (chunks : list ChatCompletionChunk)
    (model : string) (tokens : nat) (uuid8 : string) (k : nat) :
  let final := handleStream (map Chunk chunks) model tokens uuid8 in
  match openaiToolIdxToAnthropicBlockIdx final !! k with
  | Some blockIdx =>
      exists toolState unsent,
        toolStates final !! blockIdx = Some toolState
        /\ ts_arguments_buffer toolState
           = joined (fragmentsOf k (streamToolDeltas chunks))
        /\ fragmentsOf k (streamToolDeltas chunks)
           = unsent ++ jsonPayloads blockIdx (written final)
  | None =>
      filter (fun toolDelta => td_index toolDelta = k) (streamToolDeltas chunks) = []
  end.
Proof.
  cbv zeta.
  destruct (stream_events countTokens JSON_parse requestId chunks model tokens uuid8)
    as (st & body & Hc & HI & Hb & Fb & Hw).
  pose proof (Buffered_consume chunks [] _ st (reach_initial _ _ model tokens uuid8)
                (Buffered_initialState model tokens uuid8) Hc k) as HB.
  cbn [app] in HB. rewrite Hw.
  unfold handleAnthropicStreamingResponseFromOpenAIStream. rewrite Hc.
  cbn [logRecord openaiToolIdxToAnthropicBlockIdx toolStates].
  destruct (finalize_tables st) as [-> ->].
  destruct (openaiToolIdxToAnthropicBlockIdx st !! k) as [blockIdx |]; [| exact HB].
  destruct HB as (toolState & unsent & Hs & Hbuf & Hf).
  exists toolState, unsent. split_and!; [done | done |].
  rewrite !jsonPayloads_app.
  assert (Hstops : forall l, jsonPayloads blockIdx (map ContentBlockStop l) = []).
  { induction l as [| x l IH]; [done | exact IH]. }
  rewrite Hstops. cbn. by rewrite app_nil_r.
Qed.

End WithCollaborators.

(** *** An encoder that may throw *)

(** The counts of an encoder, where it returns. *)
Definition counted (encoder : Tiktoken) (text : string) : nat :=
  match encoder text with
  | Tokens count => count
  | EncodeError _ => 0
  end.

Definition isErrorEvent (e : SSEEvent) : bool :=
  match e with
  | ErrorEvent _ _ => true
  | _ => false
  end.

Section WithEncoder.

Variable encoder : Tiktoken.
Variable JSON_parse : string -> option json.
Variable requestId : string.

(** A step that returns is the step of the encoder that never throws and
    counts the same. *)
Lemma handleContentDelta_counted content st st' :
  Streaming.handleContentDelta encoder content st = Normal st' ->
  Streaming.handleContentDelta (neverThrows (counted encoder)) content st = Normal st'.
Proof.
  unfold Streaming.handleContentDelta, neverThrows, counted.
  destruct content as [text |]; [| done]. destruct (truthy text); [| done].
  by destruct (encoder text).
Qed.

Lemma accumulate_counted blockIdx toolDelta toolState st st' :
  Streaming.accumulate encoder blockIdx toolDelta toolState st = Normal st' ->
  Streaming.accumulate (neverThrows (counted encoder)) blockIdx toolDelta toolState st
  = Normal st'.
Proof.
  unfold Streaming.accumulate, neverThrows, counted.
  destruct (td_arguments toolDelta) as [a |]; [| done]. destruct (truthy a); [| done].
  by destruct (encoder a).
Qed.

Lemma handleToolCallDelta_counted toolDelta st st' :
  Streaming.handleToolCallDelta encoder requestId toolDelta st = Normal st' ->
  Streaming.handleToolCallDelta (neverThrows (counted encoder)) requestId toolDelta st
  = Normal st'.
Proof.
  unfold Streaming.handleToolCallDelta. cbv zeta.
  destruct (openaiToolIdxToAnthropicBlockIdx _ !! _) as [blockIdx |]; [| done].
  destruct (toolStates _ !! blockIdx) as [toolState |]; [| done].
  destruct (Streaming.accumulate encoder _ _ _ _) as [st1 | st1 m] eqn:Ha; [| done].
  by rewrite (accumulate_counted _ _ _ _ _ Ha).
Qed.

Lemma handleToolCallDeltas_counted toolDeltas st st' :
  Streaming.handleToolCallDeltas encoder requestId toolDeltas st = Normal st' ->
  Streaming.handleToolCallDeltas (neverThrows (counted encoder)) requestId toolDeltas st
  = Normal st'.
Proof.
  revert st. induction toolDeltas as [| toolDelta rest IH]; intros st;
    cbn [Streaming.handleToolCallDeltas]; [done |].
  destruct (Streaming.handleToolCallDelta encoder _ _ _) as [st1 | st1 m] eqn:H1; [| done].
  rewrite (handleToolCallDelta_counted _ _ _ H1). apply IH.
Qed.

Lemma consume_counted stream st st' :
  Streaming.consume encoder requestId stream st = Normal st' ->
  Streaming.consume (neverThrows (counted encoder)) requestId stream st = Normal st'.
Proof.
  revert st. induction stream as [| [chunk | m] rest IH]; intros st;
    cbn [Streaming.consume]; [done | | done].
  destruct (chunk_choices chunk) as [| choice _]; [apply IH |].
  destruct (Streaming.handleContentDelta encoder _ _) as [st1 | st1 m] eqn:H1; [| done].
  rewrite (handleContentDelta_counted _ _ _ H1).
  destruct (Streaming.handleToolCallDeltas encoder _ _ _) as [st2 | st2 m] eqn:H2; [| done].
  rewrite (handleToolCallDeltas_counted _ _ _ H2).
  destruct (chunk_finish_reason choice) as [r |]; [| apply IH].
  destruct (truthy r); [done | apply IH].
Qed.

(** When the loop throws, the handler ends the events with an error
    event. *)
Lemma thrown_error_event stream st message model tokens uuid8 :
  Streaming.consume encoder requestId stream (initialState requestId model tokens uuid8)
  = Thrown st message ->
  existsb isErrorEvent
    (written (handleAnthropicStreamingResponseFromOpenAIStream encoder JSON_parse
                requestId stream model tokens uuid8)) = true.
Proof.
  intros Hc. unfold handleAnthropicStreamingResponseFromOpenAIStream. rewrite Hc.
  cbn [logRecord interrupted writeSSE written]. rewrite existsb_app. cbn.
  by rewrite orb_true_r.
Qed.

(** For any encoder, one that throws on some texts included: when the
    translation of a stream did not fail, that is when no error event was
    written, the text of the stream has arrived whole and in order. The
    text deltas of the events are the content deltas of the chunks, empty
    ones left out, up to the chunk that ends the loop, and they all carry
    one and the same block index. *)
Theorem text_deltas_are_the_content (chunks : list ChatCompletionChunk)
    (model : string) (tokens : nat) (uuid8 : string) :
  let events :=
    written (handleAnthropicStreamingResponseFromOpenAIStream encoder JSON_parse
               requestId (map Chunk chunks) model tokens uuid8) in
  existsb isErrorEvent events = false ->
  textPayloads events = streamTexts chunks
  /\ exists idx, Forall (fun i => i = idx) (textDeltaIndices events).
Proof.
  cbv zeta. intros Hok.
  destruct (Streaming.consume encoder requestId (map Chunk chunks)
              (initialState requestId model tokens uuid8)) as [st | st m] eqn:Hc.
  - pose proof (text_deltas_when_encoder_returns (counted encoder) JSON_parse requestId
                  chunks model tokens uuid8) as H.
    cbv zeta in H. unfold handleAnthropicStreamingResponseFromOpenAIStream in *.
    by rewrite (consume_counted _ _ _ Hc) in H; rewrite Hc.
  - by rewrite (thrown_error_event _ _ _ _ _ _ Hc) in Hok.
Qed.

End WithEncoder.

End StreamingExtra.

(** ** Properties of the token counter *)

Module TokenizerSpec.
Import Converter Tokenizer.

(** The images among the blocks of the messages. *)
Definition isImage (block : ContentBlock) : bool :=
  match block with
  | BlockImage _ _ _ => true
  | _ => false
  end.

Definition blocksOf (msg : Message) : list ContentBlock :=
  match content msg with
  | ContentString _ => []
  | ContentBlocks blocks => blocks
  end.

Definition imagesOf (messages : list Message) : nat :=
  length (filter (fun block => isImage block = true) (flat_map blocksOf messages)).

(** The estimate a count returns; [None] when it throws. *)
Definition estimate (c : Counted) : option nat :=
  match c with
  | Returns tokens _ => Some tokens
  | Throws _ _ => None
  end.

(** The sum of two estimates, when there are two. *)
Definition plusEstimate (a b : option nat) : option nat :=
  match a, b with
  | Some x, Some y => Some (x + y)
  | _, _ => None
  end.

Definition sumEstimates (l : list (option nat)) : option nat :=
  fold_right plusEstimate (Some 0) l.

(** A count with its log left out. *)
Definition silenced (c : Counted) : Counted :=
  match c with
  | Returns tokens _ => Returns tokens []
  | Throws message _ => Throws message []
  end.

(** The encoder returns on every text. *)
Definition returnsAlways (encoder : Tiktoken) : Prop :=
  forall text, exists count, encoder text = Tokens count.

Lemma plusEstimate_assoc a b c :
  plusEstimate (plusEstimate a b) c = plusEstimate a (plusEstimate b c).
Proof. destruct a, b, c; cbn; try done. f_equal. lia. Qed.

Lemma plusEstimate_comm a b : plusEstimate a b = plusEstimate b a.
Proof. destruct a, b; cbn; try done. f_equal. lia. Qed.

Lemma plusEstimate_0_r a : plusEstimate a (Some 0) = a.
Proof. destruct a; cbn; [f_equal; lia | done]. Qed.

Lemma plusEstimate_0_l a : plusEstimate (Some 0) a = a.
Proof. by destruct a. Qed.

Lemma sumEstimates_app l1 l2 :
  sumEstimates (l1 ++ l2) = plusEstimate (sumEstimates l1) (sumEstimates l2).
Proof.
  induction l1 as [| a l1 IH]; cbn [app sumEstimates fold_right].
  - by rewrite plusEstimate_0_l.
  - fold (sumEstimates (l1 ++ l2)). fold (sumEstimates l1).
    by rewrite IH, plusEstimate_assoc.
Qed.

Section WithTiktoken.

Variable encoding_for_model : string -> option Tiktoken.
Variable get_encoding : string -> option Tiktoken.
Variable JSON_stringify : json -> option string.
Variable JS_String : json -> string.
Variable JS_length : string -> nat.

Abbreviation getTokenEncoder :=
  (getTokenEncoder encoding_for_model get_encoding JS_length).
Abbreviation appendItem := (appendItem JSON_stringify JS_String).
Abbreviation textOfItem := (textOfItem JS_String).
Abbreviation countContentBlockTokens :=
  (countContentBlockTokens JSON_stringify JS_String).
Abbreviation countBlock := (countBlock JSON_stringify JS_String).
Abbreviation countMessage := (countMessage JSON_stringify JS_String).
Abbreviation countTool := (countTool JSON_stringify).
Abbreviation countTokensForAnthropicRequest :=
  (countTokensForAnthropicRequest encoding_for_model get_encoding JSON_stringify JS_String
     JS_length).

(** What one text, one block, one message, the system prompt and the
    tools add to the total. *)
Definition textEstimate (encoder : Tiktoken) (text : string) : option nat :=
  estimate (addTokens encoder text (Returns 0 [])).

Definition blockEstimate (encoder : Tiktoken) (block : ContentBlock) : option nat :=
  estimate (countContentBlockTokens block encoder false).

Definition messageEstimate (encoder : Tiktoken) (msg : Message) : option nat :=
  estimate (countMessage encoder false (Returns 0 []) msg).

Definition systemEstimate (encoder : Tiktoken) (system : SystemPrompt) : option nat :=
  estimate (countSystemTokens encoder system (Returns 0 [])).

Definition toolEstimate (encoder : Tiktoken) (tool : Tool) : option nat :=
  estimate (countTool encoder false (Returns 0 []) tool).

Definition toolsEstimate (encoder : Tiktoken) (tools : option (list Tool)) : option nat :=
  match tools with
  | Some tools => plusEstimate (Some 2) (sumEstimates (map (toolEstimate encoder) tools))
  | None => Some 0
  end.



(** *** The cache of the encoder *)

Lemma getTokenEncoder_cached logger cache :
  let '(encoder, cache', log) := getTokenEncoder logger cache in
  cache' !! "gpt-4" = Some encoder.
Proof.
  unfold Tokenizer.getTokenEncoder.
  destruct (cache !! "gpt-4") as [e |] eqn:Hc; [done |].
  destruct (encoding_for_model "gpt-4") as [e |]; [by rewrite lookup_insert_eq |].
  destruct (get_encoding "cl100k_base") as [e |]; by rewrite lookup_insert_eq.
Qed.

Lemma getTokenEncoder_hit logger cache encoder :
  cache !! "gpt-4" = Some encoder ->
  getTokenEncoder logger cache = (encoder, cache, []).
Proof. intros Hc. unfold Tokenizer.getTokenEncoder. by rewrite Hc. Qed.

Lemma getTokenEncoder_logger cache :
  getTokenEncoder false cache
  = (fst (fst (getTokenEncoder true cache)), snd (fst (getTokenEncoder true cache)), []).
Proof.
  unfold Tokenizer.getTokenEncoder. destruct (cache !! "gpt-4"); [done |].
  destruct (encoding_for_model _); [done |]. by destruct (get_encoding _).
Qed.

(** The encoder is loaded once: whatever the cache holds at first, a
    call leaves its encoder in the cache under ['gpt-4'], and the next
    call returns this encoder, leaves the cache as it is and logs
    nothing. The first call logs at most one record, and only if it was
    given a logger, found the cache empty and could not load the encoder
    of the model. *)
Theorem encoder_loaded_once (logger logger' : bool) (cache : gmap string Tiktoken) :
  let '(encoder, cache1, log1) := getTokenEncoder logger cache in
  cache1 !! "gpt-4" = Some encoder
  /\ getTokenEncoder logger' cache1 = (encoder, cache1, [])
  /\ (log1 = []
      \/ (exists r, log1 = [r] /\ log_event r = "token_encoder_load_failed")
         /\ logger = true
         /\ cache !! "gpt-4" = None
         /\ encoding_for_model "gpt-4" = None).
Proof.
  pose proof (getTokenEncoder_cached logger cache) as Hc.
  destruct (getTokenEncoder logger cache) as [[encoder cache1] log1] eqn:Hg.
  split_and!; [done | by apply getTokenEncoder_hit |].
  unfold Tokenizer.getTokenEncoder in Hg.
  destruct (cache !! "gpt-4") as [e |]; [injection Hg as <- <- <-; by left |].
  destruct (encoding_for_model "gpt-4") as [e |]; [injection Hg as <- <- <-; by left |].
  destruct logger; [| left; by destruct (get_encoding _); injection Hg as <- <- <-].
  right. split_and!; try done.
  destruct (get_encoding _); injection Hg as <- <- <-; by eexists.
Qed.

(** *** The estimate, step by step *)

Lemma estimate_addTokens encoder text acc :
  estimate (addTokens encoder text acc)
  = plusEstimate (estimate acc) (textEstimate encoder text).
Proof.
  unfold textEstimate, addTokens. destruct acc as [n l | m l]; [| done].
  destruct (encoder text); cbn; [f_equal; lia | done].
Qed.

Lemma estimate_addConstant n acc :
  estimate (addConstant n acc) = plusEstimate (estimate acc) (Some n).
Proof. by destruct acc. Qed.

Lemma estimate_countContentBlockTokens block encoder logger :
  estimate (countContentBlockTokens block encoder logger) = blockEstimate encoder block.
Proof.
  unfold blockEstimate, Tokenizer.countContentBlockTokens.
  destruct block as [text | t m d | id name input | id c]; try done.
  - destruct (encoder name); [| done].
    destruct (JSON_stringify input) as [inputStr |]; [| done]. by destruct (encoder inputStr).
  - destruct (match c with
              | ResultString s => Some s
              | ResultArray items => fold_left appendItem items (Some "")
              end) as [str |]; [| done].
    by destruct (encoder str).
Qed.

Lemma estimate_countBlock encoder logger acc block :
  estimate (countBlock encoder logger acc block)
  = plusEstimate (estimate acc) (blockEstimate encoder block).
Proof.
  rewrite <- (estimate_countContentBlockTokens block encoder logger).
  unfold Tokenizer.countBlock. destruct acc as [n l | m l]; [| done].
  by destruct (countContentBlockTokens block encoder logger).
Qed.

(** A loop whose body adds an estimate of its own to the total. *)
Lemma estimate_fold {X : Type} (step : Counted -> X -> Counted) (part : X -> option nat)
    (xs : list X) (acc : Counted) :
  (forall acc x, estimate (step acc x) = plusEstimate (estimate acc) (part x)) ->
  estimate (fold_left step xs acc)
  = plusEstimate (estimate acc) (sumEstimates (map part xs)).
Proof.
  intros Hstep. revert acc. induction xs as [| x xs IH]; intros acc; cbn [fold_left map].
  { cbn. by rewrite plusEstimate_0_r. }
  rewrite IH, Hstep. cbn [sumEstimates fold_right]. by rewrite plusEstimate_assoc.
Qed.

Lemma estimate_countMessage encoder logger acc msg :
  estimate (countMessage encoder logger acc msg)
  = plusEstimate (estimate acc) (messageEstimate encoder msg).
Proof.
  assert (Hfrom : forall logger n l,
    estimate (countMessage encoder logger (Returns n l) msg)
    = plusEstimate (Some (n + 4))
        (plusEstimate (textEstimate encoder (roleName (role msg)))
           match content msg with
           | ContentString s => textEstimate encoder s
           | ContentBlocks blocks => sumEstimates (map (blockEstimate encoder) blocks)
           end)).
  { intros lg n l. unfold Tokenizer.countMessage.
    destruct (content msg) as [s | blocks].
    - by rewrite !estimate_addTokens, plusEstimate_assoc.
    - rewrite (estimate_fold _ (blockEstimate encoder)) by apply estimate_countBlock.
      by rewrite estimate_addTokens, plusEstimate_assoc. }
  destruct acc as [n l | m l]; [| done].
  unfold messageEstimate. rewrite !Hfrom. cbn [estimate].
  generalize (plusEstimate (textEstimate encoder (roleName (role msg)))
                match content msg with
                | ContentString s => textEstimate encoder s
                | ContentBlocks blocks => sumEstimates (map (blockEstimate encoder) blocks)
                end).
  intros [k |]; cbn; [f_equal; lia | done].
Qed.

Lemma estimate_countTool encoder logger acc tool :
  estimate (countTool encoder logger acc tool)
  = plusEstimate (estimate acc) (toolEstimate encoder tool).
Proof.
  assert (Hfrom : forall logger acc,
    estimate (countTool encoder logger acc tool)
    = plusEstimate (estimate acc)
        (plusEstimate (textEstimate encoder (tool_name tool))
           (plusEstimate
              match tool_description tool with
              | Some description =>
                  if truthy description then textEstimate encoder description else Some 0
              | None => Some 0
              end
              match JSON_stringify (tool_input_schema tool) with
              | Some schemaStr =>
                  match encoder schemaStr with
                  | Tokens count => Some count
                  | EncodeError _ => Some 0
                  end
              | None => Some 0
              end))).
  { intros lg acc0. unfold Tokenizer.countTool.
    set (acc1 := addTokens encoder (tool_name tool) acc0).
    set (acc2 := match tool_description tool with
                 | Some description =>
                     if truthy description then addTokens encoder description acc1
                     else acc1
                 | None => acc1
                 end).
    assert (H2 : estimate acc2
                 = plusEstimate (estimate acc1)
                     match tool_description tool with
                     | Some description =>
                         if truthy description then textEstimate encoder description
                         else Some 0
                     | None => Some 0
                     end).
    { unfold acc2. destruct (tool_description tool) as [d |];
        [destruct (truthy d) |]; by rewrite ?estimate_addTokens, ?plusEstimate_0_r. }
    assert (H1 : estimate acc1
                 = plusEstimate (estimate acc0) (textEstimate encoder (tool_name tool)))
      by apply estimate_addTokens.
    rewrite <- !plusEstimate_assoc, <- H1, <- H2.
    destruct acc2 as [n l | m l]; [| done].
    destruct (JSON_stringify _) as [schemaStr |]; [destruct (encoder schemaStr) |];
      cbn; f_equal; lia. }
  unfold toolEstimate. rewrite !Hfrom. cbn [estimate]. by rewrite plusEstimate_0_l.
Qed.

Lemma estimate_countSystemTokens encoder system acc :
  estimate (countSystemTokens encoder system acc)
  = plusEstimate (estimate acc) (systemEstimate encoder system).
Proof.
  unfold systemEstimate, countSystemTokens. destruct system as [| s | blocks].
  - by rewrite plusEstimate_0_r.
  - apply estimate_addTokens.
  - rewrite !(estimate_fold _
                (fun block => if String.eqb (sc_type block) "text"
                              then textEstimate encoder (sc_text block) else Some 0)).
    + cbn [estimate]. by rewrite plusEstimate_0_l.
    + intros acc0 block. destruct (String.eqb _ _);
        by rewrite ?estimate_addTokens, ?plusEstimate_0_r.
    + intros acc0 block. destruct (String.eqb _ _);
        by rewrite ?estimate_addTokens, ?plusEstimate_0_r.
Qed.

(** The counter, by the encoder it gets: its estimate is the sum of the
    estimates of the system prompt, of the messages and of the tools, and
    it throws when one of them does. *)
Lemma countTokens_estimate messages system tools logger cache :
  let '(encoder, cache1, log0) := getTokenEncoder logger cache in
  let '(result, cache') :=
    countTokensForAnthropicRequest messages system tools logger cache in
  estimate result
  = plusEstimate (systemEstimate encoder system)
      (plusEstimate (sumEstimates (map (messageEstimate encoder) messages))
         (toolsEstimate encoder tools))
  /\ cache' = cache1.
Proof.
  unfold Tokenizer.countTokensForAnthropicRequest.
  destruct (getTokenEncoder logger cache) as [[encoder cache1] log0].
  split; [| done].
  set (acc1 := fold_left _ messages _).
  assert (H1 : estimate acc1
               = plusEstimate (systemEstimate encoder system)
                   (sumEstimates (map (messageEstimate encoder) messages))).
  { unfold acc1.
    rewrite (estimate_fold _ (messageEstimate encoder)) by apply estimate_countMessage.
    rewrite estimate_countSystemTokens. cbn [estimate]. by rewrite plusEstimate_0_l. }
  set (acc2 := match tools with
               | Some tools0 => fold_left _ tools0 _
               | None => acc1
               end).
  assert (H2 : estimate acc2 = plusEstimate (estimate acc1) (toolsEstimate encoder tools)).
  { unfold acc2, toolsEstimate. destruct tools as [tools0 |].
    - rewrite (estimate_fold _ (toolEstimate encoder)) by apply estimate_countTool.
      by rewrite estimate_addConstant, plusEstimate_assoc.
    - by rewrite plusEstimate_0_r. }
  rewrite <- plusEstimate_assoc, <- H1, <- H2. by destruct acc2.
Qed.

(** The estimate is a sum over the request: the tokens of the system
    prompt, of each message and of the tools. So the count of two runs
    of messages returns exactly when the count of the first run, with the
    system prompt and the tools, and the count of the second run alone,
    made with the cache the first count leaves, both return; and its
    estimate is then the sum of theirs. *)
Theorem token_count_is_additive (messages1 messages2 : list Message)
    (system : SystemPrompt) (tools : option (list Tool)) (logger logger' : bool)
    (cache : gmap string Tiktoken) :
  let '(result, _) :=
    countTokensForAnthropicRequest (messages1 ++ messages2) system tools logger cache in
  let '(result1, cache1) :=
    countTokensForAnthropicRequest messages1 system tools logger cache in
  let '(result2, _) :=
    countTokensForAnthropicRequest messages2 SystemUndefined None logger' cache1 in
  estimate result
  = match estimate result1, estimate result2 with
    | Some total1, Some total2 => Some (total1 + total2)
    | _, _ => None
    end.
Proof.
  pose proof (countTokens_estimate (messages1 ++ messages2) system tools logger cache) as H.
  pose proof (countTokens_estimate messages1 system tools logger cache) as H1.
  pose proof (getTokenEncoder_cached logger cache) as Hc.
  destruct (getTokenEncoder logger cache) as [[encoder cache0] log0].
  destruct (countTokensForAnthropicRequest (messages1 ++ messages2) _ _ _ _)
    as [result cache'].
  destruct (countTokensForAnthropicRequest messages1 _ _ _ _) as [result1 cache1].
  destruct H as [-> _]. destruct H1 as [-> ->].
  pose proof (countTokens_estimate messages2 SystemUndefined None logger' cache0) as H2.
  rewrite (getTokenEncoder_hit logger' cache0 encoder Hc) in H2.
  destruct (countTokensForAnthropicRequest messages2 _ _ _ _) as [result2 cache2].
  destruct H2 as [-> _].
  rewrite map_app, sumEstimates_app.
  change (toolsEstimate encoder None) with (Some 0).
  change (systemEstimate encoder SystemUndefined) with (Some 0).
  change (match ?a, ?b with
          | Some total1, Some total2 => Some (total1 + total2)
          | _, _ => None
          end) with (plusEstimate a b).
  rewrite plusEstimate_0_r, plusEstimate_0_l.
  generalize (systemEstimate encoder system)
    (sumEstimates (map (messageEstimate encoder) messages1))
    (sumEstimates (map (messageEstimate encoder) messages2))
    (toolsEstimate encoder tools).
  intros [a |] [b |] [c |] [d |]; cbn; try done. f_equal. lia.
Qed.

Lemma blocks_lower_bound encoder blocks total :
  sumEstimates (map (blockEstimate encoder) blocks) = Some total ->
  768 * length (filter (fun block => isImage block = true) blocks) <= total.
Proof.
  revert total. induction blocks as [| block blocks IH]; intros total.
  { intros _. cbn. lia. }
  cbn [map sumEstimates fold_right]. fold (sumEstimates (map (blockEstimate encoder) blocks)).
  rewrite filter_cons.
  destruct (blockEstimate encoder block) as [k |] eqn:Hk; [| done].
  destruct (sumEstimates _) as [rest |]; [| done].
  intros [= <-]. specialize (IH rest eq_refl).
  destruct (decide (isImage block = true)) as [Hi | Hi]; [| lia].
  destruct block; try done. injection Hk as <-. cbn [length]. lia.
Qed.

Lemma message_lower_bound encoder msg total :
  messageEstimate encoder msg = Some total ->
  4 + 768 * length (filter (fun block => isImage block = true) (blocksOf msg)) <= total.
Proof.
  unfold messageEstimate, Tokenizer.countMessage, blocksOf.
  destruct (content msg) as [s | blocks].
  - rewrite !estimate_addTokens. cbn [estimate filter length].
    destruct (textEstimate encoder _) as [r |]; [| done].
    destruct (textEstimate encoder s) as [k |]; [| done]. cbn. intros [= <-]. lia.
  - rewrite (estimate_fold _ (blockEstimate encoder)) by apply estimate_countBlock.
    rewrite estimate_addTokens. cbn [estimate].
    destruct (textEstimate encoder _) as [r |]; [| done].
    destruct (sumEstimates _) as [k |] eqn:Hk; [| done]. cbn. intros [= <-].
    pose proof (blocks_lower_bound encoder blocks k Hk). lia.
Qed.

Lemma messages_lower_bound encoder messages total :
  sumEstimates (map (messageEstimate encoder) messages) = Some total ->
  4 * length messages + 768 * imagesOf messages <= total.
Proof.
  unfold imagesOf. revert total. induction messages as [| msg messages IH]; intros total.
  { intros _. cbn. lia. }
  cbn [map sumEstimates fold_right length flat_map].
  fold (sumEstimates (map (messageEstimate encoder) messages)).
  rewrite filter_app, length_app.
  destruct (messageEstimate encoder msg) as [k |] eqn:Hk; [| done].
  destruct (sumEstimates _) as [rest |]; [| done].
  intros [= <-]. specialize (IH rest eq_refl).
  pose proof (message_lower_bound encoder msg k Hk). lia.
Qed.

(** Whatever the encoder, an estimate that is returned is at least 4
    tokens for every message and 768 tokens for every image block, and 2
    more when the request has a list of tools, even an empty one. *)
Theorem token_count_lower_bound (messages : list Message) (system : SystemPrompt)
    (tools : option (list Tool)) (logger : bool) (cache : gmap string Tiktoken) :
  let '(result, _) :=
    countTokensForAnthropicRequest messages system tools logger cache in
  match estimate result with
  | Some total =>
      4 * length messages + 768 * imagesOf messages
      + match tools with Some _ => 2 | None => 0 end <= total
  | None => True
  end.
Proof.
  pose proof (countTokens_estimate messages system tools logger cache) as H.
  destruct (getTokenEncoder logger cache) as [[encoder cache0] log0].
  destruct (countTokensForAnthropicRequest messages _ _ _ _) as [result cache'].
  destruct H as [-> _].
  destruct (systemEstimate encoder system) as [a |]; [| done].
  destruct (sumEstimates (map (messageEstimate encoder) messages)) as [b |] eqn:Hb;
    [| done].
  pose proof (messages_lower_bound encoder messages b Hb) as Hm.
  unfold toolsEstimate. destruct tools as [tools0 |]; cbn [plusEstimate].
  - destruct (sumEstimates (map (toolEstimate encoder) tools0)) as [c |];
      cbn [plusEstimate]; [lia | done].
  - lia.
Qed.

(** *** The counter returns when its encoder does *)

Lemma textEstimate_returns encoder text :
  returnsAlways encoder -> is_Some (textEstimate encoder text).
Proof.
  intros He. unfold textEstimate, addTokens. destruct (He text) as [n ->]. by eexists.
Qed.

Lemma sumEstimates_returns {X : Type} (part : X -> option nat) (xs : list X) :
  (forall x, is_Some (part x)) -> is_Some (sumEstimates (map part xs)).
Proof.
  intros Hp. induction xs as [| x xs [k IH]]; [by eexists |].
  cbn [map sumEstimates fold_right]. fold (sumEstimates (map part xs)).
  destruct (Hp x) as [n ->]. rewrite IH. by eexists.
Qed.

Lemma blockEstimate_returns encoder block :
  returnsAlways encoder -> is_Some (blockEstimate encoder block).
Proof.
  intros He. unfold blockEstimate, Tokenizer.countContentBlockTokens.
  destruct block as [text | t m d | id name input | id c].
  - destruct (He text) as [n ->]. by eexists.
  - by eexists.
  - destruct (He name) as [n ->].
    destruct (JSON_stringify input) as [inputStr |]; [| by eexists].
    destruct (encoder inputStr); by eexists.
  - destruct (match c with
              | ResultString s => Some s
              | ResultArray items => fold_left appendItem items (Some "")
              end) as [str |]; [| by eexists].
    destruct (encoder str); by eexists.
Qed.

Lemma plusEstimate_returns a b : is_Some a -> is_Some b -> is_Some (plusEstimate a b).
Proof. intros [x ->] [y ->]. by eexists. Qed.

Lemma messageEstimate_returns encoder msg :
  returnsAlways encoder -> is_Some (messageEstimate encoder msg).
Proof.
  intros He. unfold messageEstimate, Tokenizer.countMessage.
  destruct (content msg) as [s | blocks].
  - rewrite !estimate_addTokens.
    repeat apply plusEstimate_returns; try by eexists.
    all: by apply textEstimate_returns.
  - rewrite (estimate_fold _ (blockEstimate encoder)) by apply estimate_countBlock.
    rewrite estimate_addTokens.
    repeat apply plusEstimate_returns; try by eexists.
    + by apply textEstimate_returns.
    + apply sumEstimates_returns. intros b. by apply blockEstimate_returns.
Qed.

Lemma toolEstimate_returns encoder tool :
  returnsAlways encoder -> is_Some (toolEstimate encoder tool).
Proof.
  intros He. unfold toolEstimate, Tokenizer.countTool, addTokens.
  destruct (He (tool_name tool)) as [n ->].
  assert (H2 : exists k l,
    match tool_description tool with
    | Some description =>
        if truthy description
        then match encoder description with
             | Tokens count => Returns (0 + n + count) []
             | EncodeError message => Throws message []
             end
        else Returns (0 + n) []
    | None => Returns (0 + n) []
    end = Returns k l).
  { destruct (tool_description tool) as [d |]; [destruct (truthy d) |];
      try by eexists _, _. destruct (He d) as [k ->]. by eexists _, _. }
  destruct H2 as (k & l & ->).
  destruct (JSON_stringify _) as [schemaStr |]; [destruct (encoder schemaStr) |];
    by eexists.
Qed.

Lemma systemEstimate_returns encoder system :
  returnsAlways encoder -> is_Some (systemEstimate encoder system).
Proof.
  intros He. unfold systemEstimate, countSystemTokens.
  destruct system as [| s | blocks]; [by eexists | by apply textEstimate_returns |].
  rewrite (estimate_fold _
             (fun block => if String.eqb (sc_type block) "text"
                           then textEstimate encoder (sc_text block) else Some 0)).
  - apply plusEstimate_returns; [by eexists |]. apply sumEstimates_returns.
    intros block. destruct (String.eqb _ _); [by apply textEstimate_returns | by eexists].
  - intros acc0 block. destruct (String.eqb _ _);
      by rewrite ?estimate_addTokens, ?plusEstimate_0_r.
Qed.

(** The counter throws only what its encoder throws: with an encoder
    that returns on every text it returns an estimate, whatever
    [JSON.stringify] does. *)
Theorem token_count_returns (messages : list Message) (system : SystemPrompt)
    (tools : option (list Tool)) (logger : bool) (cache : gmap string Tiktoken) :
  returnsAlways (fst (fst (getTokenEncoder logger cache))) ->
  is_Some
    (estimate (fst (countTokensForAnthropicRequest messages system tools logger cache))).
Proof.
  intros He.
  pose proof (countTokens_estimate messages system tools logger cache) as H.
  destruct (getTokenEncoder logger cache) as [[encoder cache0] log0]. cbn [fst] in He.
  destruct (countTokensForAnthropicRequest messages _ _ _ _) as [result cache'].
  cbn [fst]. destruct H as [-> _].
  repeat apply plusEstimate_returns.
  - by apply systemEstimate_returns.
  - apply sumEstimates_returns. intros msg. by apply messageEstimate_returns.
  - unfold toolsEstimate. destruct tools as [tools0 |]; [| by eexists].
    apply plusEstimate_returns; [by eexists |].
    apply sumEstimates_returns. intros tool. by apply toolEstimate_returns.
Qed.

(** *** The logger *)

Lemma silenced_addTokens encoder text acc :
  addTokens encoder text (silenced acc) = silenced (addTokens encoder text acc).
Proof. destruct acc; [| done]. cbn. by destruct (encoder text). Qed.

Lemma silenced_countContentBlockTokens block encoder :
  countContentBlockTokens block encoder false
  = silenced (countContentBlockTokens block encoder true).
Proof.
  unfold Tokenizer.countContentBlockTokens.
  destruct block as [text | t m d | id name input | id c].
  - by destruct (encoder text).
  - done.
  - destruct (encoder name); [| done].
    destruct (JSON_stringify input) as [inputStr |]; [| done]. by destruct (encoder inputStr).
  - destruct (match c with
              | ResultString s => Some s
              | ResultArray items => fold_left appendItem items (Some "")
              end) as [str |]; [| done].
    by destruct (encoder str).
Qed.

Lemma silenced_countBlock encoder acc block :
  countBlock encoder false (silenced acc) block = silenced (countBlock encoder true acc block).
Proof.
  unfold Tokenizer.countBlock. rewrite silenced_countContentBlockTokens.
  destruct acc; [| done]. cbn. by destruct (countContentBlockTokens block encoder true).
Qed.

Lemma silenced_fold {X : Type} (quiet loud : Counted -> X -> Counted) (xs : list X)
    (acc : Counted) :
  (forall acc x, quiet (silenced acc) x = silenced (loud acc x)) ->
  fold_left quiet xs (silenced acc) = silenced (fold_left loud xs acc).
Proof.
  intros Hstep. revert acc. induction xs as [| x xs IH]; intros acc; [done |].
  cbn [fold_left]. by rewrite Hstep, IH.
Qed.

Lemma silenced_countMessage encoder acc msg :
  countMessage encoder false (silenced acc) msg
  = silenced (countMessage encoder true acc msg).
Proof.
  unfold Tokenizer.countMessage. destruct acc as [n l | m l]; [| done]. cbn [silenced].
  change (Returns (n + 4) []) with (silenced (Returns (n + 4) l)).
  rewrite silenced_addTokens.
  destruct (content msg) as [s | blocks]; [apply silenced_addTokens |].
  apply silenced_fold, silenced_countBlock.
Qed.

Lemma silenced_countTool encoder acc tool :
  countTool encoder false (silenced acc) tool = silenced (countTool encoder true acc tool).
Proof.
  unfold Tokenizer.countTool. rewrite silenced_addTokens.
  set (acc1 := addTokens encoder (tool_name tool) acc).
  assert (H2 : match tool_description tool with
               | Some description =>
                   if truthy description
                   then addTokens encoder description (silenced acc1)
                   else silenced acc1
               | None => silenced acc1
               end
               = silenced match tool_description tool with
                          | Some description =>
                              if truthy description
                              then addTokens encoder description acc1
                              else acc1
                          | None => acc1
                          end).
  { destruct (tool_description tool) as [d |]; [destruct (truthy d) |];
      by rewrite ?silenced_addTokens. }
  rewrite H2.
  destruct (match tool_description tool with
            | Some description =>
                if truthy description then addTokens encoder description acc1 else acc1
            | None => acc1
            end) as [n l | m l]; [| done].
  cbn [silenced].
  by destruct (JSON_stringify _) as [schemaStr |]; [destruct (encoder schemaStr) |].
Qed.

Lemma silenced_countSystemTokens encoder system acc :
  countSystemTokens encoder system (silenced acc)
  = silenced (countSystemTokens encoder system acc).
Proof.
  unfold countSystemTokens. destruct system as [| s | blocks];
    [done | apply silenced_addTokens |].
  apply (silenced_fold _
           (fun acc block => if String.eqb (sc_type block) "text"
                             then addTokens encoder (sc_text block) acc else acc)).
  intros acc0 block. destruct (String.eqb _ _); [apply silenced_addTokens | done].
Qed.

(** The logger changes neither how the count ends nor the cache: it
    returns the same estimate, or throws the same exception. Without a
    logger nothing is logged; with one, the last record of a count that
    returns is the debug record of the estimate, and it carries the
    estimate that is returned. *)
Theorem token_count_same_without_logger (messages : list Message)
    (system : SystemPrompt) (tools : option (list Tool))
    (cache : gmap string Tiktoken) :
  let '(result, cache1) :=
    countTokensForAnthropicRequest messages system tools true cache in
  countTokensForAnthropicRequest messages system tools false cache
  = (silenced result, cache1)
  /\ match result with
     | Returns total log =>
         last log = Some (mkTokenLog LogDebug "token_count" (Some total))
     | Throws _ _ => True
     end.
Proof.
  unfold Tokenizer.countTokensForAnthropicRequest.
  rewrite getTokenEncoder_logger.
  destruct (getTokenEncoder true cache) as [[encoder cache1] log0]. cbn [fst snd].
  change (Returns 0 []) with (silenced (Returns 0 log0)).
  rewrite silenced_countSystemTokens.
  rewrite (silenced_fold _ (countMessage encoder true)) by apply silenced_countMessage.
  set (acc1 := fold_left (countMessage encoder true) messages _).
  assert (H2 : match tools with
               | Some tools0 =>
                   fold_left (countTool encoder false) tools0 (addConstant 2 (silenced acc1))
               | None => silenced acc1
               end
               = silenced match tools with
                          | Some tools0 =>
                              fold_left (countTool encoder true) tools0 (addConstant 2 acc1)
                          | None => acc1
                          end).
  { destruct tools as [tools0 |]; [| done].
    replace (addConstant 2 (silenced acc1)) with (silenced (addConstant 2 acc1))
      by (by destruct acc1).
    apply silenced_fold, silenced_countTool. }
  rewrite H2.
  destruct (match tools with
            | Some tools0 => fold_left (countTool encoder true) tools0 (addConstant 2 acc1)
            | None => acc1
            end) as [n l | m l]; cbn [silenced tokenLogIf].
  - split; [by rewrite app_nil_r | by rewrite last_snoc].
  - done.
Qed.

(** *** Tool results *)




End WithTiktoken.

End TokenizerSpec.

(** ** More scenarios *)

Module ScenariosExtra.
Import Converter Streaming Errors MessagesSpec StreamingSpec Scenarios.
Import MessagesExtra ResponseSpec ErrorsExtra StreamingExtra.

Definition greeting : list Message := [mkMessage user (ContentString "hi")].

Definition answer : list Message := [mkMessage assistant (ContentString "hello")].

Lemma translation_composes_witness :
  closed (fst (convert greeting (SystemString "Be brief.") true))
  /\ fst (convert (greeting ++ answer) (SystemString "Be brief.") true)
     = fst (convert greeting (SystemString "Be brief.") true)
       ++ fst (convert answer SystemUndefined true).
Proof.
  assert (Hc : closed (fst (convert greeting (SystemString "Be brief.") true))).
  { intros x Hx. vm_compute in Hx. injection Hx as <-. left. discriminate. }
  split; [exact Hc |].
  exact (translation_composes sampleStringify sampleStringifyParts sampleString
           greeting answer (SystemString "Be brief.") true Hc).
Defined.

Lemma silent_assistant_message_dropped_witness :
  convert (greeting ++ mkMessage assistant (ContentBlocks [BlockText ""]) :: answer)
    SystemUndefined true
  = convert (greeting ++ answer) SystemUndefined true.
Proof.
  refine (silent_assistant_message_dropped sampleStringify sampleStringifyParts
            sampleString greeting answer [BlockText ""] SystemUndefined true _ eq_refl).
  discriminate.
Defined.

Definition weatherCall : ContentBlock := BlockToolUse "t1" "get_weather" (JObject []).

Lemma text_and_tool_uses_give_two_messages_witness :
  fst (convert
         (greeting
          ++ mkMessage assistant (ContentBlocks [BlockText "Let me check."; weatherCall])
             :: answer)
         SystemUndefined true)
  = fst (convert greeting SystemUndefined true)
    ++ [plainMessage RoleAssistant "Let me check.";
        toolCallsMessage [mkToolCall "t1" "function" "get_weather" "{}"]]
    ++ fst (convert answer SystemUndefined true).
Proof.
  refine (text_and_tool_uses_give_two_messages sampleStringify sampleStringifyParts
            sampleString greeting answer [BlockText "Let me check."; weatherCall]
            SystemUndefined true eq_refl _).
  discriminate.
Defined.

Lemma tool_uses_merge_into_empty_turn_witness :
  fst (convert
         (greeting
          ++ [mkMessage assistant (ContentString "");
              mkMessage assistant (ContentBlocks [weatherCall])] ++ answer)
         SystemUndefined true)
  = fst (convert greeting SystemUndefined true)
    ++ [toolCallsMessage [mkToolCall "t1" "function" "get_weather" "{}"]]
    ++ fst (convert answer SystemUndefined true).
Proof.
  refine (tool_uses_merge_into_empty_turn sampleStringify sampleStringifyParts
            sampleString greeting answer [weatherCall] SystemUndefined true eq_refl _).
  discriminate.
Defined.

Definition truncated : ChatCompletion :=
  mkChatCompletion "abc" [mkChoice (mkCompletionMessage (Some "Once upon") None)
                            (Some "length")] None.

Lemma response_stop_reason_witness :
  resp_stop_reason
    (fst (convertOpenAIToAnthropicResponse sampleParse truncated "claude-3-opus" true "req"))
  = Some max_tokens.
Proof.
  exact (response_stop_reason sampleParse truncated _ [] "claude-3-opus" true "req"
           eq_refl).
Defined.

Definition providerError : json :=
  JObject [("metadata",
            JObject [("provider_name", JString "acme"); ("raw", JString "oops")])].

Lemma provider_details_extracted_witness :
  exists metadata,
    get providerError "metadata" = Some metadata
    /\ get metadata "provider_name" = Some (JString "acme")
    /\ "acme" <> ""
    /\ forall rawErrorStr,
         get metadata "raw" = Some (JString rawErrorStr) ->
         Some (JObject [("raw_string_parse_failed", JString "oops")])
         = Some (default (JObject [("raw_string_parse_failed", JString rawErrorStr)])
                   (sampleParse rawErrorStr)).
Proof.
  exact (provider_details_extracted sampleParse providerError
           (mkProviderErrorMetadata "acme"
              (Some (JObject [("raw_string_parse_failed", JString "oops")])))
           eq_refl).
Defined.

Lemma nothing_read_after_finish_reason_witness :
  stream (map Chunk scenarioC ++ [StreamError "socket hang up"]) "claude-3-opus" 7 "0a1b2c3d"
  = stream (map Chunk scenarioC) "claude-3-opus" 7 "0a1b2c3d".
Proof.
  refine (nothing_read_after_finish_reason sampleCountTokens sampleParse "req" scenarioC
            [StreamError "socket hang up"] "claude-3-opus" 7 "0a1b2c3d" _).
  discriminate.
Defined.

(** Scenario C without its last chunk. *)
Definition unfinished : list ChatCompletionChunk := removelast scenarioC.

Lemma stream_failure_leaves_blocks_open_witness :
  exists body stopReason outputTokens,
    written (stream (map Chunk unfinished ++ [StreamError "socket hang up"])
               "claude-3-opus" 7 "0a1b2c3d")
    = written firstState ++ body ++ [ErrorEvent API_ERROR "socket hang up"]
    /\ written (stream (map Chunk unfinished) "claude-3-opus" 7 "0a1b2c3d")
       = written firstState ++ body
         ++ map ContentBlockStop (textStarts body ++ toolStarts body)
         ++ [MessageDelta stopReason outputTokens; MessageStop]
    /\ Forall isBlockEvent body
    /\ stops body = []
    /\ finalAnthropicStopReason
         (stream (map Chunk unfinished ++ [StreamError "socket hang up"])
            "claude-3-opus" 7 "0a1b2c3d")
       = Some error.
Proof.
  exact (stream_failure_leaves_blocks_open sampleCountTokens sampleParse "req" unfinished
           "socket hang up" [] "claude-3-opus" 7 "0a1b2c3d" eq_refl).
Defined.

(** The state after the first tool-call delta of a stream. *)
Definition afterWholeCall : StreamState :=
  match handleToolCallDelta (neverThrows sampleCountTokens) "req" wholeCall firstState with
  | Normal st | Thrown st _ => st
  end.

Lemma block_indices_are_consecutive_witness :
  Reachable sampleCountTokens "req" afterWholeCall
  /\ (0 < nextAnthropicBlockIdx afterWholeCall
      <-> textBlockAnthropicIdx afterWholeCall = Some 0
          \/ exists k, openaiToolIdxToAnthropicBlockIdx afterWholeCall !! k = Some 0)
  /\ nextAnthropicBlockIdx afterWholeCall
     = length (option_list (textBlockAnthropicIdx afterWholeCall))
       + size (openaiToolIdxToAnthropicBlockIdx afterWholeCall)
  /\ (forall k1 k2,
        openaiToolIdxToAnthropicBlockIdx afterWholeCall !! k1 = Some 0 ->
        openaiToolIdxToAnthropicBlockIdx afterWholeCall !! k2 = Some 0 -> k1 = k2)
  /\ (forall k,
        openaiToolIdxToAnthropicBlockIdx afterWholeCall !! k = Some 0 ->
        textBlockAnthropicIdx afterWholeCall <> Some 0).
Proof.
  assert (HR : Reachable sampleCountTokens "req" afterWholeCall).
  { apply (reach_tool _ _ wholeCall firstState); [apply reach_initial |].
    vm_compute. reflexivity. }
  split; [exact HR |].
  exact (block_indices_are_consecutive sampleCountTokens "req" afterWholeCall 0 HR).
Defined.

(** A finish reason that is the name of an inherited member. *)
Example inherited_response_stop_reason :
  resp_stop_reason
    (fst (convertOpenAIToAnthropicResponse sampleParse
            (mkChatCompletion "abc"
               [mkChoice (mkCompletionMessage (Some "Hi") None) (Some "__proto__")] None)
            "claude-3-opus" true "req"))
  = Some (inherited "__proto__").
Proof. reflexivity. Qed.

(** An encoder that throws on a text that holds a special token. *)
Definition sampleEncoder : Tiktoken :=
  fun text =>
    if includes text "<|endoftext|>"
    then EncodeError "The text contains a special token that is not allowed"
    else Tokens (String.length text).

Definition textChunk (text : string) : ChatCompletionChunk :=
  mkChunk [mkChunkChoice (mkDelta (Some text) None) None].

Definition helloStream : list ChatCompletionChunk :=
  [textChunk "Hel"; textChunk "lo"; finishChunk "stop"].

Lemma text_deltas_are_the_content_witness :
  let events :=
    written (handleAnthropicStreamingResponseFromOpenAIStream sampleEncoder sampleParse
               "req" (map Chunk helloStream) "claude-3-opus" 7 "0a1b2c3d") in
  existsb isErrorEvent events = false
  /\ textPayloads events = ["Hel"; "lo"]
  /\ exists idx, Forall (fun i => i = idx) (textDeltaIndices events).
Proof.
  split; [vm_compute; reflexivity |].
  exact (text_deltas_are_the_content sampleEncoder sampleParse "req" helloStream
           "claude-3-opus" 7 "0a1b2c3d" eq_refl).
Defined.

(** The encoder throws on the second content delta: the first one was
    written, the second one was not, and the error event ends the
    stream. *)
Example encoder_failure :
  written (handleAnthropicStreamingResponseFromOpenAIStream sampleEncoder sampleParse
             "req" (map Chunk [textChunk "Hi"; textChunk "<|endoftext|>"; finishChunk "stop"])
             "claude-3-opus" 7 "0a1b2c3d")
  = [ MessageStart "msg_stream_req_0a1b2c3d" "claude-3-opus" 7;
      Ping;
      ContentBlockStart 0 SeedText;
      ContentBlockDelta 0 (TextDelta "Hi");
      ErrorEvent API_ERROR "The text contains a special token that is not allowed" ].
Proof. vm_compute. reflexivity. Qed.

(** The token counter with no encoder to load: it falls back on the
    dummy encoder. *)
Definition noEncoding (name : string) : option Tiktoken := None.

Definition countRequest :=
  Tokenizer.countTokensForAnthropicRequest noEncoding noEncoding sampleStringify
    sampleString String.length.

Lemma token_count_returns_witness :
  TokenizerSpec.returnsAlways
    (fst (fst (Tokenizer.getTokenEncoder noEncoding noEncoding String.length true ∅)))
  /\ is_Some (TokenizerSpec.estimate (fst (countRequest greeting SystemUndefined None true ∅))).
Proof.
  assert (He : TokenizerSpec.returnsAlways
                 (fst (fst (Tokenizer.getTokenEncoder noEncoding noEncoding String.length
                              true ∅)))).
  { intros text. by eexists. }
  split; [exact He |].
  exact (TokenizerSpec.token_count_returns noEncoding noEncoding sampleStringify
           sampleString String.length greeting SystemUndefined None true ∅ He).
Defined.

(** The dummy encoder counts the characters: 4 for the message, 4 for
    its role and 2 for its content. *)
Example count_with_dummy_encoder :
  fst (countRequest greeting SystemUndefined None false ∅) = Tokenizer.Returns 10 [].
Proof. vm_compute. reflexivity. Qed.

(** A tool result on which the encoder throws counts for nothing; a text
    on which it throws makes the counter throw. *)
Example tool_result_encoder_failure :
  Tokenizer.countContentBlockTokens sampleStringify sampleString
    (BlockToolResult "t1" (ResultString "<|endoftext|>")) sampleEncoder true
  = Tokenizer.Returns 0
      [Tokenizer.mkTokenLog Tokenizer.LogWarning "tool_result_serialization_failure" None]
  /\ Tokenizer.countContentBlockTokens sampleStringify sampleString
       (BlockText "<|endoftext|>") sampleEncoder true
     = Tokenizer.Throws "The text contains a special token that is not allowed" [].
Proof. split; reflexivity. Qed.

End ScenariosExtra.
